(** * TV locker backend: device lifecycle over a relational store

    A shallow embedding of the two Go programs of the repository,

    - [main.go], the standalone server (package [main]), and
    - the serverless entry point (package [handler]),

    together with the tables and constraints of [schema.sql].

    The handlers are embedded after request decoding: each one takes the
    decoded request struct and runs in a small state monad over the
    store.  [uuid.New], [time.Now] and the failures of the database
    connection are answers of the environment, read from oracles that are
    indexed by the number of interactions made so far. *)

From stdpp Require Import base numbers list strings gmap sorting.
From Stdlib Require Import Ascii.

Local Open Scope Z_scope.

(** ** Package [time], restricted to what the handlers call

    A [Time] produced by [Parse] with the date-only layout is a UTC
    midnight; it is represented by its day number, counted from
    0001-01-01 in the proleptic Gregorian calendar.  [Date], [absDate]
    and [date] follow the functions of the same names of the Go runtime. *)
Module time.

Definition Time := Z.

Definition isLeap (year : Z) : bool :=
  (year mod 4 =? 0) && (negb (year mod 100 =? 0) || (year mod 400 =? 0)).

(** [daysBefore m] is the number of days of a non-leap year before month
    [m + 1]. *)
Definition daysBefore (m : Z) : Z :=
  nth (Z.to_nat m) [0; 31; 59; 90; 120; 151; 181; 212; 243; 273; 304; 334; 365] 0.

Definition daysIn (month year : Z) : Z :=
  if (month =? 2) && isLeap year then 29
  else daysBefore month - daysBefore (month - 1).

Definition daysSinceEpoch (year : Z) : Z :=
  let y := year - 1 in
  365 * y + y / 4 - y / 100 + y / 400.

(** [Date year month day]: month and day may be out of range and are
    normalised, "October 32" being November 1. *)
Definition Date (year month day : Z) : Time :=
  let m := month - 1 in
  let year := year + m / 12 in
  let m := m mod 12 in
  let month := m + 1 in
  let d := daysSinceEpoch year in
  let d := d + daysBefore (month - 1) in
  let d := if isLeap year && (3 <=? month) then d + 1 else d in
  d + (day - 1).

(** Year and day of the year (from 0) of a day number. *)
Definition absDate (abs : Time) : Z * Z :=
  let d := abs in
  let n := d / 146097 in
  let y := 400 * n in
  let d := d - 146097 * n in
  let n := d / 36524 in
  let n := n - n / 4 in
  let y := y + 100 * n in
  let d := d - 36524 * n in
  let n := d / 1461 in
  let y := y + 4 * n in
  let d := d - 1461 * n in
  let n := d / 365 in
  let n := n - n / 4 in
  let y := y + n in
  let d := d - 365 * n in
  (y + 1, d).

(** Year, month and day of the month of a day number. *)
Definition date (abs : Time) : Z * Z * Z :=
  let '(year, yday) := absDate abs in
  let day := yday in
  if isLeap year && (day =? 31 + 29 - 1) then (year, 2, 29)
  else
    let day := if isLeap year && (31 + 29 - 1 <? day) then day - 1 else day in
    let month := day / 31 in
    let end_ := daysBefore (month + 1) in
    if end_ <=? day then (year, month + 1 + 1, day - end_ + 1)
    else (year, month + 1, day - daysBefore month + 1).

Definition AddDate (years months days : Z) (t : Time) : Time :=
  let '(year, month, day) := date t in
  Date (year + years) (month + months) (day + days).

Definition isDigit (c : ascii) : bool :=
  let n := nat_of_ascii c in (48 <=? n)%nat && (n <=? 57)%nat.

Definition digit (c : ascii) : Z := Z.of_nat (nat_of_ascii c) - 48.

(** [Parse "2006-01-02" value]: four digits, a dash, two digits, a dash,
    two digits and nothing else; the month and the day of the month are
    range checked. *)
Definition Parse (value : string) : option Time :=
  match String.list_ascii_of_string value with
  | [y1; y2; y3; y4; s1; m1; m2; s2; d1; d2] =>
      if forallb isDigit [y1; y2; y3; y4; m1; m2; d1; d2]
         && Ascii.eqb s1 "-"%char && Ascii.eqb s2 "-"%char
      then
        let year := 1000 * digit y1 + 100 * digit y2 + 10 * digit y3 + digit y4 in
        let month := 10 * digit m1 + digit m2 in
        let day := 10 * digit d1 + digit d2 in
        if (month <=? 0) || (12 <? month) then None
        else if (day <? 1) || (daysIn month year <? day) then None
        else Some (Date year month day)
      else None
  | _ => None
  end.

Fixpoint utoa (fuel : nat) (u : Z) (acc : string) : string :=
  match fuel with
  | O => acc
  | S fuel' =>
      let acc' := String (ascii_of_nat (48 + Z.to_nat (u mod 10))) acc in
      if u / 10 =? 0 then acc' else utoa fuel' (u / 10) acc'
  end.

Fixpoint zeros (n : nat) : string :=
  match n with
  | O => EmptyString
  | S n' => String "0"%char (zeros n')
  end.

(** Decimal form of [x], zero-padded to [width] digits. *)
Definition appendInt (x : Z) (width : nat) : string :=
  let u := Z.abs x in
  let ds := utoa (S (Z.to_nat (Z.log2 u))) u EmptyString in
  let sign := if x <? 0 then "-"%string else ""%string in
  sign +:+ zeros (width - String.length ds) +:+ ds.

(** [Format "2006-01-02" t]. *)
Definition Format (t : Time) : string :=
  let '(year, month, day) := date t in
  appendInt year 4 +:+ "-"%string +:+ appendInt month 2 +:+ "-"%string +:+ appendInt day 2.

End time.

(** ** Rows of the four tables *)

Module Device.
Record t := mk {
  ID : string;
  SerialNumber : string;
  CustomerName : string;
  PhoneNumber : string;
  EMITerm : Z;
  EMIStartDate : time.Time;
  TermDuration : Z;
  IsActive : bool;
  IsLocked : bool;
  CreatedAt : Z
}.
Definition set_IsActive (b : bool) (r : t) : t :=
  mk (ID r) (SerialNumber r) (CustomerName r) (PhoneNumber r) (EMITerm r)
     (EMIStartDate r) (TermDuration r) b (IsLocked r) (CreatedAt r).
Definition set_IsLocked (b : bool) (r : t) : t :=
  mk (ID r) (SerialNumber r) (CustomerName r) (PhoneNumber r) (EMITerm r)
     (EMIStartDate r) (TermDuration r) (IsActive r) b (CreatedAt r).
End Device.

Module ActivationCode.
Record t := mk {
  ID : string;
  DeviceID : string;
  Code : string;
  TermNumber : Z;
  IsUsed : bool;
  UsedAt : option Z;
  CreatedAt : Z
}.
Definition set_used (now : Z) (r : t) : t :=
  mk (ID r) (DeviceID r) (Code r) (TermNumber r) true (Some now) (CreatedAt r).
End ActivationCode.

Module LockDate.
Record t := mk {
  ID : string;
  DeviceID : string;
  LockDate : time.Time;
  IsLocked : bool;
  CreatedAt : Z
}.
End LockDate.

Module RemoteLock.
Record t := mk {
  ID : string;
  DeviceID : string;
  IsLocked : bool;
  CreatedAt : Z;
  UpdatedAt : Z
}.
Definition set_IsLocked (b : bool) (updated : Z) (r : t) : t :=
  mk (ID r) (DeviceID r) b (CreatedAt r) updated.
End RemoteLock.

(** The store: one list of rows per table, in insertion order. *)
Record DB := mkDB {
  devices : list Device.t;
  activation_codes : list ActivationCode.t;
  lock_dates : list LockDate.t;
  remote_locks : list RemoteLock.t
}.

Definition empty_db : DB := mkDB [] [] [] [].

(** ** Statements

    One function per SQL statement of the handlers.  An [INSERT] is
    refused ([None]) when it violates a constraint of [schema.sql]: a
    primary key, a [UNIQUE] column, a foreign key, or the [CHECK] on
    [term_duration].  An [UPDATE] touches every row its [WHERE] selects,
    possibly none. *)
Module sql.

(** [SELECT ... FROM devices WHERE serial_number = $1], first row. *)
Definition device_by_serial (serial : string) (d : DB) : option Device.t :=
  head (filter (λ r, Device.SerialNumber r = serial) (devices d)).

(** [INSERT INTO devices ...]. *)
Definition insert_device (r : Device.t) (d : DB) : option DB :=
  if decide (Device.ID r ∈ Device.ID <$> devices d) then None
  else if decide (Device.SerialNumber r ∈ Device.SerialNumber <$> devices d) then None
  else if decide (Device.TermDuration r ∈ [7; 15; 30]) then
    Some (mkDB (devices d ++ [r]) (activation_codes d) (lock_dates d) (remote_locks d))
  else None.

(** [INSERT INTO activation_codes ...]. *)
Definition insert_activation_code (r : ActivationCode.t) (d : DB) : option DB :=
  if decide (ActivationCode.ID r ∈ ActivationCode.ID <$> activation_codes d) then None
  else if decide (ActivationCode.Code r ∈ ActivationCode.Code <$> activation_codes d)
  then None
  else if decide ((ActivationCode.DeviceID r, ActivationCode.TermNumber r)
                  ∈ (λ x, (ActivationCode.DeviceID x, ActivationCode.TermNumber x))
                    <$> activation_codes d)
  then None
  else if decide (ActivationCode.DeviceID r ∈ Device.ID <$> devices d) then
    Some (mkDB (devices d) (activation_codes d ++ [r]) (lock_dates d) (remote_locks d))
  else None.

(** [INSERT INTO lock_dates ...]. *)
Definition insert_lock_date (r : LockDate.t) (d : DB) : option DB :=
  if decide (LockDate.ID r ∈ LockDate.ID <$> lock_dates d) then None
  else if decide (LockDate.DeviceID r ∈ Device.ID <$> devices d) then
    Some (mkDB (devices d) (activation_codes d) (lock_dates d ++ [r]) (remote_locks d))
  else None.

(** [INSERT INTO remote_locks ...]. *)
Definition insert_remote_lock (r : RemoteLock.t) (d : DB) : option DB :=
  if decide (RemoteLock.ID r ∈ RemoteLock.ID <$> remote_locks d) then None
  else if decide (RemoteLock.DeviceID r ∈ RemoteLock.DeviceID <$> remote_locks d)
  then None
  else if decide (RemoteLock.DeviceID r ∈ Device.ID <$> devices d) then
    Some (mkDB (devices d) (activation_codes d) (lock_dates d) (remote_locks d ++ [r]))
  else None.

(** [SELECT ac.id, ac.device_id, ac.term_number FROM activation_codes ac
    WHERE ac.code = $1 AND ac.is_used = false], first row. *)
Definition unused_code (code : string) (d : DB) : option ActivationCode.t :=
  head (filter (λ r, ActivationCode.Code r = code ∧ ActivationCode.IsUsed r = false)
               (activation_codes d)).

(** [UPDATE activation_codes SET is_used = true, used_at = $1 WHERE id = $2]. *)
Definition mark_code_used (now : Z) (id : string) (d : DB) : DB :=
  mkDB (devices d)
       ((λ r, if decide (ActivationCode.ID r = id)
              then ActivationCode.set_used now r else r) <$> activation_codes d)
       (lock_dates d) (remote_locks d).

(** [UPDATE devices SET is_active = true WHERE id = $1]. *)
Definition set_device_active (id : string) (d : DB) : DB :=
  mkDB ((λ r, if decide (Device.ID r = id) then Device.set_IsActive true r else r)
          <$> devices d)
       (activation_codes d) (lock_dates d) (remote_locks d).

(** [UPDATE devices SET is_locked = $1 WHERE id = $2]. *)
Definition set_device_locked (locked : bool) (id : string) (d : DB) : DB :=
  mkDB ((λ r, if decide (Device.ID r = id) then Device.set_IsLocked locked r else r)
          <$> devices d)
       (activation_codes d) (lock_dates d) (remote_locks d).

(** [UPDATE devices SET is_locked = false, is_active = false WHERE id = $1]. *)
Definition reset_device (id : string) (d : DB) : DB :=
  mkDB ((λ r, if decide (Device.ID r = id)
              then Device.set_IsActive false (Device.set_IsLocked false r) else r)
          <$> devices d)
       (activation_codes d) (lock_dates d) (remote_locks d).

(** [UPDATE remote_locks SET is_locked = $1, updated_at = $2 WHERE
    device_id = $3].  The trigger [update_remote_locks_updated_at]
    replaces the [updated_at] of every updated row by the time of the
    database server, [server_now]. *)
Definition set_remote_lock (locked : bool) (updated server_now : Z) (device_id : string)
    (d : DB) : DB :=
  mkDB (devices d) (activation_codes d) (lock_dates d)
       ((λ r, if decide (RemoteLock.DeviceID r = device_id)
              then RemoteLock.set_IsLocked locked server_now
                     (RemoteLock.set_IsLocked locked updated r)
              else r) <$> remote_locks d).

(** [SELECT is_locked FROM remote_locks WHERE device_id = $1], first row. *)
Definition remote_lock_of (device_id : string) (d : DB) : option RemoteLock.t :=
  head (filter (λ r, RemoteLock.DeviceID r = device_id) (remote_locks d)).

(** The order of [ORDER BY term_number] on rows [(term_number, code)]. *)
Definition by_term_number (x y : Z * string) : Prop := x.1 ≤ y.1.

#[export] Instance by_term_number_dec : RelDecision by_term_number.
Proof. intros x y. unfold by_term_number. apply _. Defined.

(** [SELECT term_number, code FROM activation_codes WHERE device_id = $1
    ORDER BY term_number]. *)
Definition codes_of (device_id : string) (d : DB) : list (Z * string) :=
  merge_sort by_term_number
    ((λ r, (ActivationCode.TermNumber r, ActivationCode.Code r))
       <$> filter (λ r, ActivationCode.DeviceID r = device_id) (activation_codes d)).

(** [SELECT lock_date FROM lock_dates WHERE device_id = $1 ORDER BY
    lock_date]. *)
Definition lock_dates_of (device_id : string) (d : DB) : list time.Time :=
  merge_sort Z.le
    (LockDate.LockDate <$> filter (λ r, LockDate.DeviceID r = device_id) (lock_dates d)).

End sql.

(** ** Requests and responses *)

Module RegisterDeviceRequest.
Record t := mk {
  SerialNumber : string;
  CustomerName : string;
  PhoneNumber : string;
  EMITerm : Z;
  EMIStartDate : string;
  TermDuration : Z
}.
End RegisterDeviceRequest.

Module ActivateRequest.
Record t := mk { ActivationCode : string }.
End ActivateRequest.

Module RemoteLockRequest.
Record t := mk { SerialNumber : string; IsLocked : bool }.
End RemoteLockRequest.

Module UnlockRequest.
Record t := mk { SerialNumber : string }.
End UnlockRequest.

Module TermWithLockDate.
Record t := mk { Term : Z; LockDate : string }.
End TermWithLockDate.

Module TermWithLockDateAndCode.
Record t := mk { Term : Z; LockDate : string; ActivationCode : string }.
End TermWithLockDateAndCode.

Definition StatusBadRequest : Z := 400.
Definition StatusForbidden : Z := 403.
Definition StatusNotFound : Z := 404.
Definition StatusConflict : Z := 409.
Definition StatusInternalServerError : Z := 500.

(** What a handler writes.  [Error msg code] is [http.Error(w, msg, code)];
    the other constructors are the JSON bodies of the successful paths.
    [ActivationResponse] is the struct of [main.go], whose terms carry no
    code; [ActivationResponseWithCode] is the struct of the same name of
    package [handler].  [Panic] stands for a run-time panic of the
    handler goroutine (an index out of range). *)
Inductive Response :=
  | Error (msg : string) (code : Z)
  | RegisterResponse (success : bool) (message : string) (device_id : string)
      (terms : list TermWithLockDateAndCode.t)
  | ActivationResponse (Success : bool) (Message : string)
      (Terms : list TermWithLockDate.t)
  | ActivationResponseWithCode (Success : bool) (Message : string)
      (Terms : list TermWithLockDateAndCode.t)
  | RemoteLockResponse (success : bool) (message : string) (is_locked : bool)
  | CheckLockResponse (IsLocked : bool)
  | UnlockResponse (success : bool) (message : string)
  | HealthResponse (status : string)
  | Panic.

(** The response reports success: it is none of the error statuses. *)
Definition reports_success (r : Response) : bool :=
  match r with
  | Error _ _ | Panic => false
  | RegisterResponse s _ _ _ | ActivationResponse s _ _
  | ActivationResponseWithCode s _ _ | RemoteLockResponse s _ _
  | UnlockResponse s _ => s
  | CheckLockResponse _ | HealthResponse _ => true
  end.

(** ** The environment and the handler monad *)

(** The answers of the outside world to the [n]-th interaction of the
    server: the UUID drawn by [uuid.New], the clock read by [time.Now]
    (and by [NOW()] in the store), and whether the store call fails for
    a reason of its own (lost connection, time-out, ...). *)
Record Env := mkEnv {
  uuid_at : nat → string;
  now_at : nat → Z;
  fault_at : nat → bool
}.

(** The store, the number of interactions so far, and the lines written
    by [log.Printf] to report an error (the format string, without the
    error value).  Lines that report progress are not recorded. *)
Record World := mkWorld {
  db : DB;
  step : nat;
  log : list string
}.

Definition M (A : Type) : Type := World → A * World.

Definition ret {A} (a : A) : M A := λ w, (a, w).

Definition bind {A B} (m : M A) (k : A → M B) : M B :=
  λ w, k (m w).1 (m w).2.

Notation "'let!' x ':=' c1 'in' c2" := (bind c1 (λ x, c2))
  (at level 10, x name, c1 at level 100, c2 at level 200).

Definition tick (w : World) : World := mkWorld (db w) (S (step w)) (log w).

Definition log_Printf (line : string) : M unit :=
  λ w, (tt, mkWorld (db w) (step w) (log w ++ [line])).

(** [if err != nil { log.Printf(line, err) }], [ok] being [err == nil]. *)
Definition log_unless (ok : bool) (line : string) : M unit :=
  if ok then ret tt else log_Printf line.

Section Handlers.

Variable env : Env.

Definition uuid_New : M string := λ w, (uuid_at env (step w), tick w).

Definition time_Now : M Z := λ w, (now_at env (step w), tick w).

(** [db.QueryRow(...).Scan(...)]: [None] is a non-nil error, either a
    failure of the call or [sql.ErrNoRows]. *)
Definition db_QueryRow {A} (q : DB → option A) : M (option A) :=
  λ w, (if fault_at env (step w) then None else q (db w), tick w).

(** [db.Query(...)], the rows read to the end; [None] is a non-nil
    error. *)
Definition db_Query {A} (q : DB → list A) : M (option (list A)) :=
  λ w, (if fault_at env (step w) then None else Some (q (db w)), tick w).

(** [db.Exec(...)]; the result is [err == nil].  The statement is given
    the clock of the store. *)
Definition db_Exec (stmt : Z → DB → option DB) : M bool :=
  λ w, if fault_at env (step w) then (false, tick w)
       else match stmt (now_at env (step w)) (db w) with
            | Some d' => (true, mkWorld d' (S (step w)) (log w))
            | None => (false, tick w)
            end.

(** [uuid.New().String()[:8]]; a UUID string has 36 characters. *)
Definition generateActivationCode : M string :=
  let! u := uuid_New in ret (String.substring 0 8 u).

Fixpoint calculateLockDates_loop (n : nat) (termDuration : Z)
    (currentDate : time.Time) (lockDates : list time.Time) : list time.Time :=
  match n with
  | O => lockDates
  | S n' =>
      let lockDate := time.AddDate 0 0 termDuration currentDate in
      calculateLockDates_loop n' termDuration lockDate (lockDates ++ [lockDate])
  end.

Definition calculateLockDates (startDate : time.Time) (termDuration emiTerm : Z)
    : list time.Time :=
  calculateLockDates_loop (Z.to_nat emiTerm) termDuration startDate [].

(** The loop [for i := 1; i <= req.EMITerm; i++] of [registerDevice],
    with [n] iterations left; [inl] is an early return. *)
Fixpoint registerDevice_loop (n : nat) (i : Z) (deviceID : string)
    (lockDates : list time.Time) (termsWithDates : list TermWithLockDateAndCode.t)
    : M (Response + list TermWithLockDateAndCode.t) :=
  match n with
  | O => ret (inr termsWithDates)
  | S n' =>
      let! code := generateActivationCode in
      let! id := uuid_New in
      let! now := time_Now in
      let! ok := db_Exec (λ _, sql.insert_activation_code
                            (ActivationCode.mk id deviceID code i false None now)) in
      if negb ok
      then
        let! _ := log_Printf "Error inserting activation code" in
        ret (inl (Error "Failed to generate activation codes"
                        StatusInternalServerError))
      else
        match lockDates !! Z.to_nat (i - 1) with
        | None => ret (inl Panic)
        | Some lockDate =>
            let! id := uuid_New in
            let! now := time_Now in
            let! ok := db_Exec (λ _, sql.insert_lock_date
                                  (LockDate.mk id deviceID lockDate false now)) in
            if negb ok
            then
              let! _ := log_Printf "Error inserting lock date" in
              ret (inl (Error "Failed to generate lock dates"
                              StatusInternalServerError))
            else
              registerDevice_loop n' (i + 1) deviceID lockDates
                (termsWithDates ++
                 [TermWithLockDateAndCode.mk i (time.Format lockDate) code])
        end
  end.

Definition registerDevice (req : RegisterDeviceRequest.t) : M Response :=
  if negb (bool_decide (RegisterDeviceRequest.TermDuration req = 7))
     && negb (bool_decide (RegisterDeviceRequest.TermDuration req = 15))
     && negb (bool_decide (RegisterDeviceRequest.TermDuration req = 30))
  then ret (Error "Term duration must be 7, 15, or 30 days" StatusBadRequest)
  else
    match time.Parse (RegisterDeviceRequest.EMIStartDate req) with
    | None => ret (Error "Invalid date format. Use YYYY-MM-DD" StatusBadRequest)
    | Some emiStartDate =>
        let! existing := db_QueryRow (sql.device_by_serial
                                   (RegisterDeviceRequest.SerialNumber req)) in
        match existing with
        | Some _ =>
            ret (Error "Device with this serial number already exists" StatusConflict)
        | None =>
            let! deviceID := uuid_New in
            let! now := time_Now in
            let! ok := db_Exec (λ _, sql.insert_device
                     (Device.mk deviceID
                        (RegisterDeviceRequest.SerialNumber req)
                        (RegisterDeviceRequest.CustomerName req)
                        (RegisterDeviceRequest.PhoneNumber req)
                        (RegisterDeviceRequest.EMITerm req)
                        emiStartDate
                        (RegisterDeviceRequest.TermDuration req)
                        false false now)) in
            if negb ok
            then
              let! _ := log_Printf "Error inserting device" in
              ret (Error "Failed to register device" StatusInternalServerError)
            else
              let lockDates :=
                calculateLockDates emiStartDate
                  (RegisterDeviceRequest.TermDuration req)
                  (RegisterDeviceRequest.EMITerm req) in
              let! r := registerDevice_loop
                     (Z.to_nat (RegisterDeviceRequest.EMITerm req)) 1
                     deviceID lockDates [] in
              match r with
              | inl early => ret early
              | inr termsWithDates =>
                  let! id := uuid_New in
                  let! created := time_Now in
                  let! updated := time_Now in
                  let! ok := db_Exec (λ _, sql.insert_remote_lock
                          (RemoteLock.mk id deviceID false created updated)) in
                  let! _ := log_unless ok "Error inserting remote lock" in
                  ret (RegisterResponse true "Device registered successfully"
                         deviceID termsWithDates)
              end
        end
    end.

Definition setRemoteLock (req : RemoteLockRequest.t) : M Response :=
  let! found := db_QueryRow (sql.device_by_serial (RemoteLockRequest.SerialNumber req)) in
  match found with
  | None => ret (Error "Device not found" StatusNotFound)
  | Some dev =>
      let deviceID := Device.ID dev in
      let! now := time_Now in
      let! ok := db_Exec (λ server_now d,
              Some (sql.set_remote_lock (RemoteLockRequest.IsLocked req)
                      now server_now deviceID d)) in
      if negb ok
      then
        let! _ := log_Printf "Error updating remote lock" in
        ret (Error "Failed to update remote lock" StatusInternalServerError)
      else
        let! ok := db_Exec (λ _ d,
               Some (sql.set_device_locked (RemoteLockRequest.IsLocked req)
                       deviceID d)) in
        let! _ := log_unless ok "Error updating device lock" in
        ret (RemoteLockResponse true
               (if RemoteLockRequest.IsLocked req
                then "Remote lock set to true" else "Remote lock set to false")
               (RemoteLockRequest.IsLocked req))
  end.

Definition checkRemoteLock (serialNumber : string) : M Response :=
  if bool_decide (serialNumber = "")
  then ret (Error "serial_number parameter is required" StatusBadRequest)
  else
    let! found := db_QueryRow (sql.device_by_serial serialNumber) in
    match found with
    | None => ret (Error "Device not found" StatusNotFound)
    | Some dev =>
        let! lock := db_QueryRow (sql.remote_lock_of (Device.ID dev)) in
        match lock with
        | None => ret (Error "Remote lock not found" StatusNotFound)
        | Some rl => ret (CheckLockResponse (RemoteLock.IsLocked rl))
        end
    end.

Definition unlockDevice (req : UnlockRequest.t) : M Response :=
  let! found := db_QueryRow (sql.device_by_serial (UnlockRequest.SerialNumber req)) in
  match found with
  | None => ret (Error "Device not found" StatusNotFound)
  | Some dev =>
      let deviceID := Device.ID dev in
      let! ok := db_Exec (λ _ d, Some (sql.reset_device deviceID d)) in
      if negb ok
      then
        let! _ := log_Printf "Error unlocking device" in
        ret (Error "Failed to unlock device" StatusInternalServerError)
      else
        let! now := time_Now in
        let! ok := db_Exec (λ server_now d,
               Some (sql.set_remote_lock false now server_now deviceID d)) in
        let! _ := log_unless ok "Error updating remote lock" in
        ret (UnlockResponse true "Device unlocked successfully")
  end.

Definition healthCheck : M Response := ret (HealthResponse "ok").

End Handlers.

(** ** [main.go]: the handlers that differ from package [handler] *)
Module Main.
Section Handlers.

Variable env : Env.

(** [SELECT term_number FROM activation_codes WHERE device_id = $1 ORDER
  BY term_number]. *)
Definition term_numbers_of (device_id : string) (d : DB) : list Z :=
merge_sort Z.le
  (ActivationCode.TermNumber
     <$> filter (λ r, ActivationCode.DeviceID r = device_id) (activation_codes d)).

(** The loop over [termRows]: the next term takes the lock date at
  [termIndex], as long as there is one. *)
Fixpoint match_terms (termRows : list Z) (lockDates : list time.Time)
  (termIndex : nat) (termsWithDates : list TermWithLockDate.t)
  : list TermWithLockDate.t :=
match termRows with
| [] => termsWithDates
| termNumber :: termRows' =>
    match lockDates !! termIndex with
    | Some lockDate =>
        match_terms termRows' lockDates (S termIndex)
          (termsWithDates ++
           [TermWithLockDate.mk termNumber (time.Format lockDate)])
    | None => match_terms termRows' lockDates termIndex termsWithDates
    end
end.

(** "Get terms with their corresponding lock dates": the block shared
  by [activateDevice] and [checkActivation]. *)
Definition termsWithDates (deviceID : string) : M (list TermWithLockDate.t) :=
let! termRows := db_Query env (term_numbers_of deviceID) in
match termRows with
| None => ret []
| Some termRows =>
    let! lockRows := db_Query env (sql.lock_dates_of deviceID) in
    match lockRows with
    | None => ret []
    | Some lockDates => ret (match_terms termRows lockDates 0 [])
    end
end.

Definition activateDevice (req : ActivateRequest.t) : M Response :=
let! found := db_QueryRow env (sql.unused_code (ActivateRequest.ActivationCode req)) in
match found with
| None => ret (Error "Invalid or already used activation code" StatusBadRequest)
| Some ac =>
    let activationCodeID := ActivationCode.ID ac in
    let deviceID := ActivationCode.DeviceID ac in
    let! now := time_Now env in
    let! ok := db_Exec env (λ _ d, Some (sql.mark_code_used now activationCodeID d)) in
    if negb ok
    then
      let! _ := log_Printf "Error updating activation code" in
      ret (Error "Failed to activate device" StatusInternalServerError)
    else
      let! ok := db_Exec env (λ _ d, Some (sql.set_device_active deviceID d)) in
      let! _ := log_unless ok "Error activating device" in
      let! terms := termsWithDates deviceID in
      ret (ActivationResponse true "Device activated successfully" terms)
end.

Definition checkActivation (serialNumber : string) : M Response :=
if bool_decide (serialNumber = "")
then ret (Error "serial_number parameter is required" StatusBadRequest)
else
  let! found := db_QueryRow env (sql.device_by_serial serialNumber) in
  match found with
  | None => ret (Error "Device not found" StatusNotFound)
  | Some dev =>
      if negb (Device.IsActive dev)
      then ret (Error "Device is not activated" StatusForbidden)
      else
        let! terms := termsWithDates (Device.ID dev) in
        ret (ActivationResponse true "Device is active" terms)
  end.

End Handlers.
End Main.

(** ** Package [handler]: the handlers that differ from [main.go] *)
Module Handler.
Section Handlers.

Variable env : Env.

(** [codesByTerm[termNumber] = code] for each row, in order. *)
Definition codesByTerm (codeRows : list (Z * string)) : gmap Z string :=
foldl (λ m r, <[r.1 := r.2]> m) ∅ codeRows.

(** [for termNum := range codesByTerm]: the keys, in the order the map
  yields them. *)
Definition range_keys (m : gmap Z string) : list Z := (map_to_list m).*1.

Definition swap_if_greater (i j : nat) (a : list Z) : list Z :=
match a !! i, a !! j with
| Some x, Some y => if bool_decide (x > y) then <[j := x]> (<[i := y]> a) else a
| _, _ => a
end.

(** [for j := ...; j < len(termNumbers); j++], [n] iterations left. *)
Fixpoint sort_inner (n : nat) (i j : nat) (a : list Z) : list Z :=
match n with
| O => a
| S n' => sort_inner n' i (S j) (swap_if_greater i j a)
end.

(** [for i := ...; i < len(termNumbers)-1; i++], [n] iterations left. *)
Fixpoint sort_outer (n : nat) (i : nat) (a : list Z) : list Z :=
match n with
| O => a
| S n' => sort_outer n' (S i) (sort_inner (length a - (i + 1)) i (i + 1) a)
end.

(** "Sort term numbers". *)
Definition sort_termNumbers (termNumbers : list Z) : list Z :=
sort_outer (length termNumbers - 1) 0 termNumbers.

(** The loop over [lockRows]: the next lock date takes the term number
  at [termIndex], as long as there is one. *)
Fixpoint match_lock_dates (lockRows : list time.Time) (termNumbers : list Z)
  (codes : gmap Z string) (termIndex : nat)
  (termsWithDates : list TermWithLockDateAndCode.t)
  : list TermWithLockDateAndCode.t :=
match lockRows with
| [] => termsWithDates
| lockDate :: lockRows' =>
    match termNumbers !! termIndex with
    | Some termNumber =>
        match_lock_dates lockRows' termNumbers codes (S termIndex)
          (termsWithDates ++
           [TermWithLockDateAndCode.mk termNumber (time.Format lockDate)
              (default ""%string (codes !! termNumber))])
    | None => match_lock_dates lockRows' termNumbers codes termIndex termsWithDates
    end
end.

(** "Get terms with their corresponding lock dates and activation
  codes": the block shared by [activateDevice] and [checkActivation]. *)
Definition termsWithDates (deviceID : string) : M (list TermWithLockDateAndCode.t) :=
let! codeRows := db_Query env (sql.codes_of deviceID) in
match codeRows with
| None => ret []
| Some codeRows =>
    let! lockRows := db_Query env (sql.lock_dates_of deviceID) in
    match lockRows with
    | None => ret []
    | Some lockRows =>
        let codes := codesByTerm codeRows in
        let termNumbers := sort_termNumbers (range_keys codes) in
        ret (match_lock_dates lockRows termNumbers codes 0 [])
    end
end.

Definition activateDevice (req : ActivateRequest.t) : M Response :=
let! found := db_QueryRow env (sql.unused_code (ActivateRequest.ActivationCode req)) in
match found with
| None => ret (Error "Invalid or already used activation code" StatusBadRequest)
| Some ac =>
    let activationCodeID := ActivationCode.ID ac in
    let deviceID := ActivationCode.DeviceID ac in
    let! now := time_Now env in
    let! ok := db_Exec env (λ _ d, Some (sql.mark_code_used now activationCodeID d)) in
    if negb ok
    then
      let! _ := log_Printf "Error updating activation code" in
      ret (Error "Failed to activate device" StatusInternalServerError)
    else
      let! ok := db_Exec env (λ _ d, Some (sql.set_device_active deviceID d)) in
      let! _ := log_unless ok "Error activating device" in
      let! terms := termsWithDates deviceID in
      ret (ActivationResponseWithCode true "Device activated successfully" terms)
end.

(** "Automatically activate the device when TV calls this endpoint".
  The line [Device %s activated via /api/check] that follows the
  update reports no error, and is not recorded in [log]. *)
Definition checkActivation (serialNumber : string) : M Response :=
if bool_decide (serialNumber = "")
then ret (Error "serial_number parameter is required" StatusBadRequest)
else
  let! found := db_QueryRow env (sql.device_by_serial serialNumber) in
  match found with
  | None => ret (Error "Device not found" StatusNotFound)
  | Some dev =>
      let deviceID := Device.ID dev in
      let! activated :=
        (if negb (Device.IsActive dev)
         then db_Exec env (λ _ d, Some (sql.set_device_active deviceID d))
         else ret true) in
      if negb activated
      then
        let! _ := log_Printf "Error activating device" in
        ret (Error "Failed to activate device" StatusInternalServerError)
      else
        let! terms := termsWithDates deviceID in
        ret (ActivationResponseWithCode true "Device activated successfully" terms)
  end.

End Handlers.
End Handler.

(** ** Routing *)

Inductive Program := StandaloneServer | ServerlessHandler.

Inductive Request :=
  | POST_register (req : RegisterDeviceRequest.t)
  | POST_activate (req : ActivateRequest.t)
  | GET_check (serial_number : string)
  | POST_remote_lock (req : RemoteLockRequest.t)
  | GET_check_lock (serial_number : string)
  | POST_unlock (req : UnlockRequest.t)
  | GET_health.

Definition serve (env : Env) (p : Program) (r : Request) : M Response :=
  match r with
  | POST_register req => registerDevice env req
  | POST_activate req =>
      match p with
      | StandaloneServer => Main.activateDevice env req
      | ServerlessHandler => Handler.activateDevice env req
      end
  | GET_check serial =>
      match p with
      | StandaloneServer => Main.checkActivation env serial
      | ServerlessHandler => Handler.checkActivation env serial
      end
  | POST_remote_lock req => setRemoteLock env req
  | GET_check_lock serial => checkRemoteLock env serial
  | POST_unlock req => unlockDevice env req
  | GET_health => healthCheck
  end.

(** A session: the requests are served one after the other. *)
Fixpoint run (env : Env) (p : Program) (rs : list Request) : M (list Response) :=
  match rs with
  | [] => ret []
  | r :: rs' =>
      let! resp := serve env p r in
      let! resps := run env p rs' in
      ret (resp :: resps)
  end.

(** ** A concrete environment, for examples

    The [n]-th UUID is [n] written with eight decimal digits, followed by
    a fixed tail; the clock shows [n]; no store call fails. *)
Definition demo_uuid (n : nat) : string :=
  time.appendInt (Z.of_nat n) 8 +:+ "-0000-4000-8000-000000000000"%string.

Definition demo_env : Env := mkEnv demo_uuid Z.of_nat (λ _, false).

(** As [demo_env], but the store call at interaction [k] fails. *)
Definition faulty_env (k : nat) : Env :=
  mkEnv demo_uuid Z.of_nat (λ n, bool_decide (n = k)).

Definition demo_register : RegisterDeviceRequest.t :=
  RegisterDeviceRequest.mk "TV1" "A. Customer" "0123456789" 3 "2024-01-01" 15.

Definition empty_world : World := mkWorld empty_db 0 [].

(** The world after the registration of [demo_register]. *)
Definition demo_world : World := (registerDevice demo_env demo_register empty_world).2.

(** ** Vocabulary of the statements *)

(** No store call fails for a reason of its own. *)
Definition no_faults (env : Env) : Prop := ∀ n, fault_at env n = false.

(** Every UUID-valued column of the store. *)
Definition uuids_in (d : DB) : list string :=
  (Device.ID <$> devices d)
  ++ (ActivationCode.ID <$> activation_codes d)
  ++ (ActivationCode.DeviceID <$> activation_codes d)
  ++ (LockDate.ID <$> lock_dates d)
  ++ (LockDate.DeviceID <$> lock_dates d)
  ++ (RemoteLock.ID <$> remote_locks d)
  ++ (RemoteLock.DeviceID <$> remote_locks d).

Definition codes_in (d : DB) : list string :=
  ActivationCode.Code <$> activation_codes d.

(** The UUIDs the environment hands out at interactions [lo], ..., [hi - 1]. *)
Definition draws (env : Env) (lo hi : nat) : list string :=
  uuid_at env <$> seq lo (hi - lo).

(** The UUIDs of interactions [lo .. hi - 1] differ from each other in
    their first eight characters, none of them is in [ids], and none of
    their eight-character prefixes is in [codes]. *)
Definition Fresh (env : Env) (lo hi : nat) (ids codes : list string) : Prop :=
  NoDup (String.substring 0 8 <$> draws env lo hi)
  ∧ Forall (λ u, (u ∉ ids) ∧ (String.substring 0 8 u ∉ codes)) (draws env lo hi).

(** The rows and the response terms that the loop of [registerDevice]
    makes in [n] iterations that start at interaction [base] with term
    number [i], when the lock date of term [t] is [f t]. *)
Definition new_codes (env : Env) (deviceID : string) (base : nat) (i : Z) (n : nat)
    : list ActivationCode.t :=
  (λ k : nat,
     ActivationCode.mk (uuid_at env (base + 7 * k + 1)) deviceID
       (String.substring 0 8 (uuid_at env (base + 7 * k)))
       (i + Z.of_nat k) false None (now_at env (base + 7 * k + 2))) <$> seq 0 n.

Definition new_locks (env : Env) (deviceID : string) (f : Z → time.Time)
    (base : nat) (i : Z) (n : nat) : list LockDate.t :=
  (λ k : nat,
     LockDate.mk (uuid_at env (base + 7 * k + 4)) deviceID (f (i + Z.of_nat k))
       false (now_at env (base + 7 * k + 5))) <$> seq 0 n.

Definition new_terms (env : Env) (f : Z → time.Time) (base : nat) (i : Z) (n : nat)
    : list TermWithLockDateAndCode.t :=
  (λ k : nat,
     TermWithLockDateAndCode.mk (i + Z.of_nat k) (time.Format (f (i + Z.of_nat k)))
       (String.substring 0 8 (uuid_at env (base + 7 * k)))) <$> seq 0 n.

(** The device row that [registerDevice] inserts. *)
Definition new_device (env : Env) (req : RegisterDeviceRequest.t) (s : time.Time)
    (base : nat) : Device.t :=
  Device.mk (uuid_at env (base + 1))
    (RegisterDeviceRequest.SerialNumber req) (RegisterDeviceRequest.CustomerName req)
    (RegisterDeviceRequest.PhoneNumber req) (RegisterDeviceRequest.EMITerm req)
    s (RegisterDeviceRequest.TermDuration req) false false (now_at env (base + 2)).

(** The lock date of term [t]. *)
Definition lock_date_of (s d t : Z) : time.Time := s + t * d.

(** The store after a registration that started at interaction [base]. *)
Definition registered (env : Env) (req : RegisterDeviceRequest.t) (s : time.Time)
    (base : nat) (d : DB) : DB :=
  let n := Z.to_nat (RegisterDeviceRequest.EMITerm req) in
  let deviceID := uuid_at env (base + 1) in
  let f := lock_date_of s (RegisterDeviceRequest.TermDuration req) in
  mkDB (devices d ++ [new_device env req s base])
       (activation_codes d ++ new_codes env deviceID (base + 4) 1 n)
       (lock_dates d ++ new_locks env deviceID f (base + 4) 1 n)
       (remote_locks d ++
        [RemoteLock.mk (uuid_at env (base + 4 + 7 * n)) deviceID false
           (now_at env (base + 4 + 7 * n + 1)) (now_at env (base + 4 + 7 * n + 2))]).


#[global] Instance Fresh_dec env lo hi ids codes : Decision (Fresh env lo hi ids codes).
Proof. unfold Fresh. apply _. Defined.

Definition demo_register_no_terms : RegisterDeviceRequest.t :=
  RegisterDeviceRequest.mk "TV0" "A. Customer" "0123456789" (-2) "2024-01-01" 7.

Definition demo_register_bad_duration : RegisterDeviceRequest.t :=
  RegisterDeviceRequest.mk "TV2" "A. Customer" "0123456789" 3 "2024-01-01" 10.

Definition demo_register_bad_date : RegisterDeviceRequest.t :=
  RegisterDeviceRequest.mk "TV2" "A. Customer" "0123456789" 3 "2024-02-30" 7.


(** A Hoare triple on the store and the log: interactions only count
    steps, which the assertions do not mention. *)
Definition hoare {A} (P : DB → list string → Prop) (m : M A)
    (Q : A → DB → list string → Prop) : Prop :=
  ∀ w, P (db w) (log w) → Q (m w).1 (db (m w).2) (log (m w).2).

(** Every remote lock belongs to a device of the store. *)
Definition remote_lock_fk (d : DB) : Prop :=
  ∀ rl, rl ∈ remote_locks d → RemoteLock.DeviceID rl ∈ Device.ID <$> devices d.

(** The lock flag of a device and the flag of its remote lock agree. *)
Definition locks_in_sync (d : DB) : Prop :=
  ∀ dev rl, dev ∈ devices d → rl ∈ remote_locks d →
    RemoteLock.DeviceID rl = Device.ID dev →
    Device.IsLocked dev = RemoteLock.IsLocked rl.

(** The invariant of the lock flags. *)
Definition lock_invariant (d : DB) : Prop := remote_lock_fk d ∧ locks_in_sync d.


(** The error lines after which a handler still answers with success. *)
Definition tolerated (r : Request) : list string :=
  match r with
  | POST_register _ => ["Error inserting remote lock"]
  | POST_activate _ => ["Error activating device"]
  | POST_remote_lock _ => ["Error updating device lock"]
  | POST_unlock _ => ["Error updating remote lock"]
  | GET_check _ | GET_check_lock _ | GET_health => []
  end%string.

(** What a request may add to the log [L], given its response. *)
Definition log_post (L : list string) (r : Request) (resp : Response)
    (l : list string) : Prop :=
  ∃ extra, l = L ++ extra
           ∧ (reports_success resp = true → ∀ line, line ∈ extra → line ∈ tolerated r).


(** The error lines that report the failed write of a lock flag. *)
Definition lock_write_errors : list string :=
  ["Error updating device lock"; "Error updating remote lock"]%string.

(** No line of [extra] reports the failed write of a lock flag. *)
Definition no_lock_write_error (extra : list string) : Prop :=
  Forall (λ line, line ∉ lock_write_errors) extra.

(** The log has grown from [L], and [Φ] holds of the store unless one of
    the new lines reports the failed write of a lock flag. *)
Definition unless_reported (L : list string) (Φ : DB → Prop) (d : DB)
    (l : list string) : Prop :=
  ∃ extra, l = L ++ extra ∧ (no_lock_write_error extra → Φ d).

(** The constraints of [schema.sql]: primary keys, [UNIQUE] columns,
    foreign keys and the [CHECK] on [term_duration]. *)
Definition wf_db (d : DB) : Prop :=
  NoDup (Device.ID <$> devices d)
  ∧ NoDup (Device.SerialNumber <$> devices d)
  ∧ Forall (λ r, Device.TermDuration r ∈ [7; 15; 30]) (devices d)
  ∧ NoDup (ActivationCode.ID <$> activation_codes d)
  ∧ NoDup (ActivationCode.Code <$> activation_codes d)
  ∧ NoDup ((λ r, (ActivationCode.DeviceID r, ActivationCode.TermNumber r))
             <$> activation_codes d)
  ∧ Forall (λ r, ActivationCode.DeviceID r ∈ Device.ID <$> devices d) (activation_codes d)
  ∧ NoDup (LockDate.ID <$> lock_dates d)
  ∧ Forall (λ r, LockDate.DeviceID r ∈ Device.ID <$> devices d) (lock_dates d)
  ∧ NoDup (RemoteLock.ID <$> remote_locks d)
  ∧ NoDup (RemoteLock.DeviceID <$> remote_locks d)
  ∧ Forall (λ r, RemoteLock.DeviceID r ∈ Device.ID <$> devices d) (remote_locks d).

#[global] Instance wf_db_dec d : Decision (wf_db d).
Proof. unfold wf_db. apply _. Defined.

(** The store after a successful activation with the code of row [ac]. *)
Definition activated (now : Z) (ac : ActivationCode.t) (d : DB) : DB :=
  sql.set_device_active (ActivationCode.DeviceID ac)
    (sql.mark_code_used now (ActivationCode.ID ac) d).

(** One pass of the inner loop of the sort, on the element at [i] and
    the elements after it that are still to be compared: the least of
    them all, and the others in their new order. *)
Fixpoint sweep (x : Z) (todo : list Z) : Z * list Z :=
  match todo with
  | [] => (x, [])
  | y :: todo' =>
      if bool_decide (x > y)
      then ((sweep y todo').1, x :: (sweep y todo').2)
      else ((sweep x todo').1, y :: (sweep x todo').2)
  end.

(** The sort as a function on lists: selection by repeated sweeps. *)
Fixpoint sweep_sort (n : nat) (l : list Z) : list Z :=
  match n, l with
  | S n', x :: l' => (sweep x l').1 :: sweep_sort n' (sweep x l').2
  | _, _ => l
  end.

(** The terms, when the [n]-th row of codes is paired with the [n]-th
    lock date. *)
Definition paired_terms (codeRows : list (Z * string)) (lockDates : list time.Time)
    : list TermWithLockDateAndCode.t :=
  zip_with (λ tc ld, TermWithLockDateAndCode.mk tc.1 (time.Format ld) tc.2)
    codeRows lockDates.

(** The row of the first activation code of [demo_world]. *)
Definition demo_code : ActivationCode.t :=
  ActivationCode.mk "00000005-0000-4000-8000-000000000000"
    "00000001-0000-4000-8000-000000000000" "00000004" 1 false None 6.


(** The activation code [code] is in the store, and used. *)
Definition code_used (code : string) (d : DB) : Prop :=
  ∃ r, r ∈ activation_codes d ∧ ActivationCode.Code r = code
       ∧ ActivationCode.IsUsed r = true.

(** The same pairing without the codes, as [main.go] answers. *)
Definition paired_dates (termRows : list Z) (lockDates : list time.Time)
    : list TermWithLockDate.t :=
  zip_with (λ t ld, TermWithLockDate.mk t (time.Format ld)) termRows lockDates.

(** ** Vocabulary of the further properties *)

(** What every answer of a handler satisfies, the store and the log
    having been [d0] and [L] before the request: a handler does not
    panic; an answer with status 500 comes with one line in the log; any
    other error answer has a status from 400 to 499 and leaves the store
    and the log as they were. *)
Definition serve_post (d0 : DB) (L : list string) (resp : Response) (d : DB)
    (l : list string) : Prop :=
  match resp with
  | Panic => False
  | Error msg code =>
      if decide (code = StatusInternalServerError) then ∃ line, l = L ++ [line]
      else 400 ≤ code < 500 ∧ d = d0 ∧ l = L
  | _ => True
  end.

(** The statements that the handlers execute, with the values they give
    to the columns of a new row: a device is inserted inactive and
    unlocked, an activation code unused, a lock date and a remote lock
    unlocked. *)
Inductive statement : DB → DB → Prop :=
  | stmt_insert_device id serial name phone term start duration now d d' :
      sql.insert_device
        (Device.mk id serial name phone term start duration false false now) d = Some d' →
      statement d d'
  | stmt_insert_activation_code id deviceID code i now d d' :
      sql.insert_activation_code (ActivationCode.mk id deviceID code i false None now) d
      = Some d' →
      statement d d'
  | stmt_insert_lock_date id deviceID lockDate now d d' :
      sql.insert_lock_date (LockDate.mk id deviceID lockDate false now) d = Some d' →
      statement d d'
  | stmt_insert_remote_lock id deviceID created updated d d' :
      sql.insert_remote_lock (RemoteLock.mk id deviceID false created updated) d = Some d' →
      statement d d'
  | stmt_mark_code_used now id d : statement d (sql.mark_code_used now id d)
  | stmt_set_device_active id d : statement d (sql.set_device_active id d)
  | stmt_set_device_locked locked id d : statement d (sql.set_device_locked locked id d)
  | stmt_reset_device id d : statement d (sql.reset_device id d)
  | stmt_set_remote_lock locked updated server_now id d :
      statement d (sql.set_remote_lock locked updated server_now id d).

(** The columns that no statement writes after the insertion of the
    row. *)
Definition device_key (r : Device.t) :=
  (Device.ID r, Device.SerialNumber r, Device.CustomerName r, Device.PhoneNumber r,
   Device.EMITerm r, Device.EMIStartDate r, Device.TermDuration r, Device.CreatedAt r).

Definition code_key (r : ActivationCode.t) :=
  (ActivationCode.ID r, ActivationCode.DeviceID r, ActivationCode.Code r,
   ActivationCode.TermNumber r, ActivationCode.CreatedAt r).

Definition remote_lock_key (r : RemoteLock.t) :=
  (RemoteLock.ID r, RemoteLock.DeviceID r, RemoteLock.CreatedAt r).

(** Every row of [d] is in [d'], at its place and with its key columns;
    the rows of [lock_dates] are as they were. *)
Definition keeps_rows (d d' : DB) : Prop :=
  device_key <$> devices d `prefix_of` device_key <$> devices d'
  ∧ code_key <$> activation_codes d `prefix_of` code_key <$> activation_codes d'
  ∧ lock_dates d `prefix_of` lock_dates d'
  ∧ remote_lock_key <$> remote_locks d `prefix_of` remote_lock_key <$> remote_locks d'.

(** The flags that no statement sets back: the [is_locked] of a lock date
    is [false], and [used_at] is set on the used codes and on no other. *)
Definition flags_as_inserted (d : DB) : Prop :=
  Forall (λ r, LockDate.IsLocked r = false) (lock_dates d)
  ∧ Forall (λ r, ActivationCode.IsUsed r = true ↔ is_Some (ActivationCode.UsedAt r))
      (activation_codes d).

(** [d'] has the rows of [d], each at its place and of the same device,
    and the rows of every device other than [id] are as they were. *)
Definition touches_only (id : string) (d d' : DB) : Prop :=
  Forall2 (λ r r', Device.ID r' = Device.ID r ∧ (Device.ID r ≠ id → r' = r))
    (devices d) (devices d')
  ∧ Forall2 (λ r r', ActivationCode.DeviceID r' = ActivationCode.DeviceID r
                     ∧ (ActivationCode.DeviceID r ≠ id → r' = r))
      (activation_codes d) (activation_codes d')
  ∧ lock_dates d' = lock_dates d
  ∧ Forall2 (λ r r', RemoteLock.DeviceID r' = RemoteLock.DeviceID r
                     ∧ (RemoteLock.DeviceID r ≠ id → r' = r))
      (remote_locks d) (remote_locks d').

(** The term of a response made of the row of its code and the row of
    its lock date. *)
Definition term_of_rows (c : ActivationCode.t) (l : LockDate.t) : TermWithLockDateAndCode.t :=
  TermWithLockDateAndCode.mk (ActivationCode.TermNumber c)
    (time.Format (LockDate.LockDate l)) (ActivationCode.Code c).

(** The write [stmt], executed in the world [w], fails: the call to the
    store fails, or the store refuses the statement. *)
Definition write_fails (env : Env) (stmt : Z → DB → option DB) (w : World) : Prop :=
  (db_Exec env stmt w).1 = false.

(** The world [w] after [log.Printf] has written [line]. *)
Definition with_log_line (line : string) (w : World) : World :=
  mkWorld (db w) (step w) (log w ++ [line]).
(** * Properties *)

(** ** The calendar: [date] inverts [Date], and adding days is addition *)

Lemma absDate_decompose t :
  t = time.daysSinceEpoch (time.absDate t).1 + (time.absDate t).2 ∧
  0 ≤ (time.absDate t).2 < (if time.isLeap (time.absDate t).1 then 366 else 365).
Proof.
  unfold time.absDate, time.daysSinceEpoch, time.isLeap. cbv zeta. cbn [fst snd].
  remember (t / 146097) as a eqn:Ha.
  remember (t - 146097 * a) as d1 eqn:Hd1.
  assert (B1 : 0 ≤ d1 < 146097) by (subst; Z.to_euclidean_division_equations; lia).
  remember (d1 / 36524) as n100 eqn:Hn100.
  assert (Bn100 : 0 ≤ n100 ≤ 4) by (subst n100; Z.to_euclidean_division_equations; lia).
  remember (n100 - n100 / 4) as b eqn:Hb.
  assert (Bb : 0 ≤ b ≤ 3 ∧ (n100 ≤ 3 → b = n100) ∧ (n100 = 4 → b = 3))
    by (subst b; Z.to_euclidean_division_equations; lia).
  remember (d1 - 36524 * b) as d2 eqn:Hd2.
  assert (B2 : 0 ≤ d2 ≤ 36524 ∧ (b < 3 → d2 < 36524))
    by (subst d2 n100; Z.to_euclidean_division_equations; lia).
  remember (d2 / 1461) as c eqn:Hc.
  assert (Bc : 0 ≤ c ≤ 24) by (subst c; Z.to_euclidean_division_equations; lia).
  remember (d2 - 1461 * c) as d3 eqn:Hd3.
  assert (B3 : 0 ≤ d3 < 1461 ∧ (c = 24 → b < 3 → d3 < 1460))
    by (subst d3 c; Z.to_euclidean_division_equations; lia).
  remember (d3 / 365) as n1 eqn:Hn1.
  assert (Bn1 : 0 ≤ n1 ≤ 4) by (subst n1; Z.to_euclidean_division_equations; lia).
  remember (n1 - n1 / 4) as e eqn:He.
  assert (Be : 0 ≤ e ≤ 3 ∧ (n1 ≤ 3 → e = n1) ∧ (n1 = 4 → e = 3))
    by (subst e; Z.to_euclidean_division_equations; lia).
  assert (B4 : 0 ≤ d3 - 365 * e ≤ 365 ∧ (d3 - 365 * e = 365 → e = 3 ∧ d3 = 1460)
               ∧ (e < 3 → d3 - 365 * e < 365))
    by (subst n1; Z.to_euclidean_division_equations; lia).
  remember (400 * a + 100 * b + 4 * c + e + 1) as y eqn:Hy.
  assert (Hy1 : y - 1 = 400 * a + 100 * b + 4 * c + e) by lia.
  assert (Q4 : (y - 1) / 4 = 100 * a + 25 * b + c)
    by (clear - Hy1 Bb Bc Be; Z.to_euclidean_division_equations; lia).
  assert (Q100 : (y - 1) / 100 = 4 * a + b)
    by (clear - Hy1 Bb Bc Be; Z.to_euclidean_division_equations; lia).
  assert (Q400 : (y - 1) / 400 = a)
    by (clear - Hy1 Bb Bc Be; Z.to_euclidean_division_equations; lia).
  assert (M4 : y mod 4 = 0 ↔ e = 3)
    by (clear - Hy1 Bb Bc Be; Z.to_euclidean_division_equations; lia).
  assert (M100 : y mod 100 = 0 ↔ (c = 24 ∧ e = 3))
    by (clear - Hy1 Bb Bc Be; Z.to_euclidean_division_equations; lia).
  assert (M400 : y mod 400 = 0 ↔ (b = 3 ∧ c = 24 ∧ e = 3))
    by (clear - Hy1 Bb Bc Be; Z.to_euclidean_division_equations; lia).
  rewrite Q4, Q100, Q400.
  split; [clear - Hd1 Hd2 Hd3 Hy1; lia|].
  clear - B3 B4 M4 M100 M400 Bb Bc Be.
  destruct (y mod 4 =? 0) eqn:E4; destruct (y mod 100 =? 0) eqn:E100;
    destruct (y mod 400 =? 0) eqn:E400; cbn [andb orb negb];
    rewrite ?Z.eqb_eq, ?Z.eqb_neq in *; lia.
Qed.

Lemma Date_in_range y m d :
  1 ≤ m ≤ 12 →
  time.Date y m d
  = time.daysSinceEpoch y + time.daysBefore (m - 1)
    + (if time.isLeap y && (3 <=? m) then 1 else 0) + (d - 1).
Proof.
  intros H. unfold time.Date. cbv zeta.
  assert (E1 : (m - 1) / 12 = 0) by (Z.to_euclidean_division_equations; lia).
  assert (E2 : (m - 1) mod 12 = m - 1) by (Z.to_euclidean_division_equations; lia).
  rewrite E1, E2, Z.add_0_r. replace (m - 1 + 1) with m by lia.
  destruct (time.isLeap y && (3 <=? m)); lia.
Qed.

Ltac eval_daysBefore :=
  repeat match goal with
  | |- context [time.daysBefore ?a] =>
      let v := eval vm_compute in (time.daysBefore a) in
      change (time.daysBefore a) with v
  | H : context [time.daysBefore ?a] |- _ =>
      let v := eval vm_compute in (time.daysBefore a) in
      change (time.daysBefore a) with v in H
  end.

(** The month estimate of [date], on a day of a year without its leap day. *)
Lemma month_of_yday day :
  0 ≤ day < 365 →
  let month := day / 31 in
  let end_ := time.daysBefore (month + 1) in
  let '(m, d) := if end_ <=? day then (month + 1 + 1, day - end_ + 1)
                 else (month + 1, day - time.daysBefore month + 1) in
  1 ≤ m ≤ 12 ∧ 1 ≤ d ∧ time.daysBefore (m - 1) + (d - 1) = day
  ∧ (day < 59 → m < 3) ∧ (59 ≤ day → 3 ≤ m).
Proof.
  intros H. cbv zeta.
  assert (Hm : 0 ≤ day / 31 ≤ 11) by (Z.to_euclidean_division_equations; lia).
  assert (Hq : 31 * (day / 31) ≤ day < 31 * (day / 31) + 31)
    by (Z.to_euclidean_division_equations; lia).
  remember (day / 31) as month eqn:Em. clear Em.
  assert (month = 0 ∨ month = 1 ∨ month = 2 ∨ month = 3 ∨ month = 4 ∨ month = 5 ∨
          month = 6 ∨ month = 7 ∨ month = 8 ∨ month = 9 ∨ month = 10 ∨ month = 11)
    as C by lia.
  repeat (destruct C as [C|C]); subst month;
    (destruct (_ <=? day) eqn:E; [apply Z.leb_le in E | apply Z.leb_gt in E]);
    eval_daysBefore; lia.
Qed.

Lemma Date_date t :
  time.Date (time.date t).1.1 (time.date t).1.2 (time.date t).2 = t
  ∧ 1 ≤ (time.date t).1.2 ≤ 12 ∧ 1 ≤ (time.date t).2.
Proof.
  unfold time.date. pose proof (absDate_decompose t) as [E B].
  destruct (time.absDate t) as [y yd]. cbn [fst snd] in E, B. subst t.
  destruct (time.isLeap y) eqn:L; cbn [andb].
  - destruct (yd =? 31 + 29 - 1) eqn:E59.
    + apply Z.eqb_eq in E59. subst yd. cbn [fst snd].
      rewrite Date_in_range by lia. rewrite L.
      eval_daysBefore. change (3 <=? 2) with false. cbn [andb]. lia.
    + apply Z.eqb_neq in E59.
      destruct (31 + 29 - 1 <? yd) eqn:E60;
        [apply Z.ltb_lt in E60 | apply Z.ltb_ge in E60].
      * pose proof (month_of_yday (yd - 1) ltac:(lia)) as M. cbv zeta in M.
        revert M; destruct (time.daysBefore _ <=? _); intros (M1 & M2 & M3 & M4 & M5);
          cbn [fst snd]; rewrite Date_in_range, L by lia; cbn [andb];
          (destruct (3 <=? _) eqn:E3; [apply Z.leb_le in E3 | apply Z.leb_gt in E3]);
          lia.
      * pose proof (month_of_yday yd ltac:(lia)) as M. cbv zeta in M.
        revert M; destruct (time.daysBefore _ <=? _); intros (M1 & M2 & M3 & M4 & M5);
          cbn [fst snd]; rewrite Date_in_range, L by lia; cbn [andb];
          (destruct (3 <=? _) eqn:E3; [apply Z.leb_le in E3 | apply Z.leb_gt in E3]);
          lia.
  - pose proof (month_of_yday yd ltac:(lia)) as M. cbv zeta in M.
    revert M; destruct (time.daysBefore _ <=? _); intros (M1 & M2 & M3 & M4 & M5);
      cbn [fst snd]; rewrite Date_in_range, L by lia; cbn [andb]; lia.
Qed.

(** [t.AddDate(0, 0, n)] is [n] days after [t]. *)
Lemma AddDate_days t n : time.AddDate 0 0 n t = t + n.
Proof.
  unfold time.AddDate. pose proof (Date_date t) as P.
  destruct (time.date t) as [[y m] d]. cbn [fst snd] in P. destruct P as (P & Hm & Hd).
  rewrite !Z.add_0_r. rewrite Date_in_range in * by lia. lia.
Qed.

(** ** Registration *)

Lemma draws_cons env lo hi :
  (lo < hi)%nat → draws env lo hi = uuid_at env lo :: draws env (S lo) hi.
Proof.
  intros H. unfold draws. replace (hi - lo)%nat with (S (hi - S lo)) by lia. done.
Qed.

Lemma Fresh_step env lo hi ids codes :
  (lo < hi)%nat → Fresh env lo hi ids codes →
  (uuid_at env lo ∉ ids) ∧ (String.substring 0 8 (uuid_at env lo) ∉ codes)
  ∧ Fresh env (S lo) hi (uuid_at env lo :: ids)
      (String.substring 0 8 (uuid_at env lo) :: codes).
Proof.
  intros Hlt [Hnd Hall]. rewrite draws_cons in Hnd, Hall by done.
  rewrite fmap_cons in Hnd. apply NoDup_cons in Hnd as [Hnotin Hnd].
  apply Forall_cons in Hall as [[H1 H2] Hall].
  split_and!; try done. split; [done|].
  rewrite Forall_forall in Hall |- *. intros u Hu. destruct (Hall u Hu) as [G1 G2].
  assert (String.substring 0 8 u ≠ String.substring 0 8 (uuid_at env lo)) as Hne.
  { intros E. apply Hnotin. rewrite <- E. by apply list_elem_of_fmap_2. }
  split; rewrite not_elem_of_cons; split; try done. by intros ->.
Qed.

Lemma Fresh_skip env lo hi ids codes :
  Fresh env lo hi ids codes → Fresh env (S lo) hi ids codes.
Proof.
  intros [Hnd Hall]. destruct (decide (lo < hi)%nat) as [Hlt|Hge].
  - rewrite draws_cons in Hnd, Hall by done. rewrite fmap_cons in Hnd.
    apply NoDup_cons in Hnd as [_ Hnd]. apply Forall_cons in Hall as [_ Hall]. done.
  - unfold Fresh, draws. replace (hi - S lo)%nat with 0%nat by lia. cbn.
    split; constructor.
Qed.

Lemma Fresh_skip_n env lo hi ids codes k :
  Fresh env lo hi ids codes → Fresh env (k + lo) hi ids codes.
Proof. intros H. induction k as [|k IH]; [done|]. by apply Fresh_skip. Qed.

Lemma Fresh_mono env lo hi ids codes ids' codes' :
  ids' ⊆ ids → codes' ⊆ codes → Fresh env lo hi ids codes → Fresh env lo hi ids' codes'.
Proof.
  intros Hi Hc [Hnd Hall]. split; [done|].
  eapply Forall_impl; [exact Hall|]. intros u [H1 H2].
  split; [intros Hin; apply H1, Hi, Hin | intros Hin; apply H2, Hc, Hin].
Qed.

Lemma db_Exec_ok env stmt w d' :
  fault_at env (step w) = false →
  stmt (now_at env (step w)) (db w) = Some d' →
  db_Exec env stmt w = (true, mkWorld d' (S (step w)) (log w)).
Proof. intros Hf Hs. unfold db_Exec. by rewrite Hf, Hs. Qed.

Lemma insert_device_ok r d :
  Device.ID r ∉ Device.ID <$> devices d →
  Device.SerialNumber r ∉ Device.SerialNumber <$> devices d →
  Device.TermDuration r ∈ [7; 15; 30] →
  sql.insert_device r d
  = Some (mkDB (devices d ++ [r]) (activation_codes d) (lock_dates d) (remote_locks d)).
Proof. intros. unfold sql.insert_device. by repeat case_decide. Qed.

Lemma insert_activation_code_ok r d :
  ActivationCode.ID r ∉ ActivationCode.ID <$> activation_codes d →
  ActivationCode.Code r ∉ ActivationCode.Code <$> activation_codes d →
  Forall (λ x, ActivationCode.DeviceID x = ActivationCode.DeviceID r →
               ActivationCode.TermNumber x ≠ ActivationCode.TermNumber r)
         (activation_codes d) →
  ActivationCode.DeviceID r ∈ Device.ID <$> devices d →
  sql.insert_activation_code r d
  = Some (mkDB (devices d) (activation_codes d ++ [r]) (lock_dates d) (remote_locks d)).
Proof.
  intros H1 H2 H3 H4. unfold sql.insert_activation_code.
  repeat case_decide; try done.
  match goal with H : _ ∈ _ <$> _ |- _ =>
    apply list_elem_of_fmap_1 in H as (x & E & Hx) end.
  rewrite Forall_forall in H3. injection E as E1 E2. by destruct (H3 x Hx).
Qed.

Lemma insert_lock_date_ok r d :
  LockDate.ID r ∉ LockDate.ID <$> lock_dates d →
  LockDate.DeviceID r ∈ Device.ID <$> devices d →
  sql.insert_lock_date r d
  = Some (mkDB (devices d) (activation_codes d) (lock_dates d ++ [r]) (remote_locks d)).
Proof. intros. unfold sql.insert_lock_date. by repeat case_decide. Qed.

Lemma insert_remote_lock_ok r d :
  RemoteLock.ID r ∉ RemoteLock.ID <$> remote_locks d →
  RemoteLock.DeviceID r ∉ RemoteLock.DeviceID <$> remote_locks d →
  RemoteLock.DeviceID r ∈ Device.ID <$> devices d →
  sql.insert_remote_lock r d
  = Some (mkDB (devices d) (activation_codes d) (lock_dates d) (remote_locks d ++ [r])).
Proof. intros. unfold sql.insert_remote_lock. by repeat case_decide. Qed.


Section run_equations.
Context (env : Env).
Context {A B : Type}.
Implicit Types (k : A → M B) (w : World).

Lemma bind_ret (a : A) k w : bind (ret a) k w = k a w.
Proof. done. Qed.

Lemma bind_assoc {C} (m : M C) (g : C → M A) k w :
  bind (bind m g) k w = bind m (λ c, bind (g c) k) w.
Proof. done. Qed.

Lemma bind_uuid_New (k : string → M B) w :
  bind (uuid_New env) k w = k (uuid_at env (step w)) (tick w).
Proof. done. Qed.

Lemma bind_time_Now (k : Z → M B) w :
  bind (time_Now env) k w = k (now_at env (step w)) (tick w).
Proof. done. Qed.

Lemma bind_log_Printf line (k : unit → M B) w :
  bind (log_Printf line) k w = k tt (mkWorld (db w) (step w) (log w ++ [line])).
Proof. done. Qed.

Lemma bind_db_Exec_ok stmt (k : bool → M B) w d' :
  fault_at env (step w) = false →
  stmt (now_at env (step w)) (db w) = Some d' →
  bind (db_Exec env stmt) k w = k true (mkWorld d' (S (step w)) (log w)).
Proof. intros Hf Hs. unfold bind, db_Exec. by rewrite Hf, Hs. Qed.

Lemma bind_db_Exec_fault stmt (k : bool → M B) w :
  fault_at env (step w) = true →
  bind (db_Exec env stmt) k w = k false (tick w).
Proof. intros Hf. unfold bind, db_Exec. by rewrite Hf. Qed.

Lemma bind_db_Exec_refused stmt (k : bool → M B) w :
  stmt (now_at env (step w)) (db w) = None →
  bind (db_Exec env stmt) k w = k false (tick w).
Proof. intros Hs. unfold bind, db_Exec. rewrite Hs. by destruct (fault_at _ _). Qed.

Lemma bind_db_QueryRow {C} (q : DB → option C) (k : option C → M B) w :
  bind (db_QueryRow env q) k w
  = k (if fault_at env (step w) then None else q (db w)) (tick w).
Proof. done. Qed.

Lemma bind_db_Query {C} (q : DB → list C) (k : option (list C) → M B) w :
  bind (db_Query env q) k w
  = k (if fault_at env (step w) then None else Some (q (db w))) (tick w).
Proof. done. Qed.
End run_equations.

Lemma elem_of_uuids_in u d :
  u ∈ uuids_in d ↔
    u ∈ Device.ID <$> devices d
    ∨ u ∈ ActivationCode.ID <$> activation_codes d
    ∨ u ∈ ActivationCode.DeviceID <$> activation_codes d
    ∨ u ∈ LockDate.ID <$> lock_dates d
    ∨ u ∈ LockDate.DeviceID <$> lock_dates d
    ∨ u ∈ RemoteLock.ID <$> remote_locks d
    ∨ u ∈ RemoteLock.DeviceID <$> remote_locks d.
Proof. unfold uuids_in. rewrite !elem_of_app. tauto. Qed.

(** Split [H : u ∉ a :: b :: ... :: uuids_in d] into its parts. *)
Ltac fresh_facts H :=
  repeat (let H' := fresh "Hne" in apply not_elem_of_cons in H as [H' H]);
  try (rewrite elem_of_uuids_in in H;
       apply Decidable.not_or in H as [? H]; apply Decidable.not_or in H as [? H];
       apply Decidable.not_or in H as [? H]; apply Decidable.not_or in H as [? H];
       apply Decidable.not_or in H as [? H]; apply Decidable.not_or in H as [? H]).

Ltac arith_eq := solve [lia | f_equal; arith_eq | reflexivity].

Lemma new_terms_S env f base i n :
  new_terms env f base i (S n)
  = TermWithLockDateAndCode.mk i (time.Format (f i))
      (String.substring 0 8 (uuid_at env base))
    :: new_terms env f (S (S (S (S (S (S (S base))))))) (i + 1) n.
Proof.
  unfold new_terms. cbn [seq fmap list_fmap]. f_equal; [arith_eq|].
  rewrite <- fmap_S_seq, <- list_fmap_compose. apply list_fmap_ext.
  intros _ k _. cbn. arith_eq.
Qed.

Lemma new_codes_S env deviceID base i n :
  new_codes env deviceID base i (S n)
  = ActivationCode.mk (uuid_at env (S base)) deviceID
      (String.substring 0 8 (uuid_at env base)) i false None (now_at env (S (S base)))
    :: new_codes env deviceID (S (S (S (S (S (S (S base))))))) (i + 1) n.
Proof.
  unfold new_codes. cbn [seq fmap list_fmap]. f_equal; [arith_eq|].
  rewrite <- fmap_S_seq, <- list_fmap_compose. apply list_fmap_ext.
  intros _ k _. cbn. arith_eq.
Qed.

Lemma new_locks_S env deviceID f base i n :
  new_locks env deviceID f base i (S n)
  = LockDate.mk (uuid_at env (S (S (S (S base))))) deviceID (f i) false
      (now_at env (S (S (S (S (S base))))))
    :: new_locks env deviceID f (S (S (S (S (S (S (S base))))))) (i + 1) n.
Proof.
  unfold new_locks. cbn [seq fmap list_fmap]. f_equal; [arith_eq|].
  rewrite <- fmap_S_seq, <- list_fmap_compose. apply list_fmap_ext.
  intros _ k _. cbn. arith_eq.
Qed.

Lemma registerDevice_loop_ok env hi deviceID lockDates (f : Z → time.Time) n :
  ∀ i acc w,
  no_faults env → 1 ≤ i →
  (∀ k : nat, (k < n)%nat → lockDates !! Z.to_nat (i - 1 + Z.of_nat k) = Some (f (i + Z.of_nat k))) →
  (step w + 7 * n ≤ hi)%nat →
  Fresh env (step w) hi (deviceID :: uuids_in (db w)) (codes_in (db w)) →
  deviceID ∈ Device.ID <$> devices (db w) →
  Forall (λ r, ActivationCode.DeviceID r = deviceID → ActivationCode.TermNumber r < i)
         (activation_codes (db w)) →
  registerDevice_loop env n i deviceID lockDates acc w
  = (inr (acc ++ new_terms env f (step w) i n),
     mkWorld (mkDB (devices (db w))
                (activation_codes (db w) ++ new_codes env deviceID (step w) i n)
                (lock_dates (db w) ++ new_locks env deviceID f (step w) i n)
                (remote_locks (db w)))
       (step w + 7 * n) (log w)).
Proof.
  induction n as [|n IH]; intros i acc w Hnf Hi Hld Hhi Hfresh Hdev Hterms.
  - cbn. unfold ret. rewrite !app_nil_r, Nat.add_0_r. by destruct w as [[] ? ?].
  - cbn [registerDevice_loop]. unfold generateActivationCode.
    rewrite bind_assoc, bind_uuid_New, bind_ret, bind_uuid_New, bind_time_Now.
    cbn [tick step db log].
    apply Fresh_step in Hfresh as (F0 & C0 & Hfresh); [|lia].
    apply Fresh_step in Hfresh as (F1 & C1 & Hfresh); [|lia].
    do 2 apply Fresh_skip in Hfresh.
    apply Fresh_step in Hfresh as (F4 & C4 & Hfresh); [|lia].
    do 2 apply Fresh_skip in Hfresh.
    erewrite bind_db_Exec_ok; [|apply Hnf|]; cycle 1.
    { cbn [step db]. apply insert_activation_code_ok; cbn; try done.
      - fresh_facts F1. done.
      - eapply Forall_impl; [exact Hterms|]. cbn. intros r Hr E. specialize (Hr E). lia. }
    cbn [negb]. specialize (Hld 0%nat ltac:(lia)) as Hld0.
    cbn [Z.of_nat] in Hld0. rewrite !Z.add_0_r in Hld0. rewrite Hld0.
    rewrite bind_uuid_New, bind_time_Now. cbn [tick step db log].
    erewrite bind_db_Exec_ok; [|apply Hnf|]; cycle 1.
    { cbn [step db]. apply insert_lock_date_ok; cbn; try done.
      fresh_facts F4. done. }
    cbn [negb].
    rewrite (IH (i + 1)); cbn [tick step db log devices activation_codes lock_dates remote_locks];
      try done; try lia.
    + rewrite (new_terms_S env f (step w)), (new_codes_S env deviceID (step w)),
        (new_locks_S env deviceID f (step w)), <- !app_assoc.
      cbn [app]. arith_eq.
    + intros k Hk. specialize (Hld (S k) ltac:(lia)).
      replace (i + 1 - 1 + Z.of_nat k) with (i - 1 + Z.of_nat (S k)) by lia.
      rewrite Hld. f_equal. f_equal. lia.
    + eapply Fresh_mono; [| |exact Hfresh].
      * intros x. rewrite !elem_of_cons, !elem_of_uuids_in.
        cbn [devices activation_codes lock_dates remote_locks].
        rewrite !fmap_app, !elem_of_app. cbn [fmap list_fmap].
        rewrite !list_elem_of_singleton. cbn. tauto.
      * intros x. unfold codes_in. cbn [activation_codes].
        rewrite fmap_app, elem_of_app, !elem_of_cons. cbn [fmap list_fmap].
        rewrite list_elem_of_singleton. cbn. tauto.
    + apply Forall_app. split.
      * eapply Forall_impl; [exact Hterms|]. cbn. intros r Hr E. specialize (Hr E). lia.
      * repeat constructor. cbn. lia.
Qed.

Lemma device_by_serial_None serial d :
  sql.device_by_serial serial d = None → serial ∉ Device.SerialNumber <$> devices d.
Proof.
  unfold sql.device_by_serial. intros H%head_None.
  intros (r & -> & Hr)%list_elem_of_fmap_1.
  by apply (filter_nil_not_elem_of _ _ r H).
Qed.

Lemma calculateLockDates_loop_spec n d cur acc :
  calculateLockDates_loop n d cur acc
  = acc ++ ((λ k : nat, cur + Z.of_nat (S k) * d) <$> seq 0 n).
Proof.
  revert cur acc. induction n as [|n IH]; intros cur acc.
  - cbn. by rewrite app_nil_r.
  - cbn [calculateLockDates_loop]. rewrite IH, AddDate_days.
    rewrite <- app_assoc. f_equal. cbn [seq fmap list_fmap app]. f_equal; [lia|].
    rewrite <- fmap_S_seq, <- list_fmap_compose. apply list_fmap_ext.
    intros _ k _. cbn. lia.
Qed.

Lemma calculateLockDates_spec s d N :
  calculateLockDates s d N = (λ k : nat, s + Z.of_nat (S k) * d) <$> seq 0 (Z.to_nat N).
Proof. unfold calculateLockDates. by rewrite calculateLockDates_loop_spec. Qed.

Lemma calculateLockDates_lookup s d N (k : nat) :
  (k < Z.to_nat N)%nat →
  calculateLockDates s d N !! k = Some (s + Z.of_nat (S k) * d).
Proof.
  intros H. rewrite calculateLockDates_spec, list_lookup_fmap, lookup_seq_lt by done.
  done.
Qed.

Lemma registerDevice_ok env req w s :
  let n := Z.to_nat (RegisterDeviceRequest.EMITerm req) in
  no_faults env →
  RegisterDeviceRequest.TermDuration req ∈ [7; 15; 30] →
  time.Parse (RegisterDeviceRequest.EMIStartDate req) = Some s →
  sql.device_by_serial (RegisterDeviceRequest.SerialNumber req) (db w) = None →
  Fresh env (step w) (step w + 7 * n + 8) (uuids_in (db w)) (codes_in (db w)) →
  registerDevice env req w
  = (RegisterResponse true "Device registered successfully" (uuid_at env (step w + 1))
       (new_terms env (lock_date_of s (RegisterDeviceRequest.TermDuration req))
          (step w + 4) 1 n),
     mkWorld (registered env req s (step w) (db w)) (step w + 7 * n + 8) (log w)).
Proof.
  intros n Hnf Hdur Hparse Hnone Hfresh. unfold registerDevice.
  assert (negb (bool_decide (RegisterDeviceRequest.TermDuration req = 7))
          && negb (bool_decide (RegisterDeviceRequest.TermDuration req = 15))
          && negb (bool_decide (RegisterDeviceRequest.TermDuration req = 30)) = false) as ->.
  { rewrite !elem_of_cons in Hdur. destruct Hdur as [->| [->| [->| []%elem_of_nil]]]; done. }
  rewrite Hparse, bind_db_QueryRow, Hnf, Hnone, bind_uuid_New, bind_time_Now.
  cbn [tick step db log].
  apply Fresh_skip in Hfresh.
  apply Fresh_step in Hfresh as (F1 & _ & Hfresh); [|lia].
  do 2 apply Fresh_skip in Hfresh.
  erewrite bind_db_Exec_ok; [|apply Hnf|]; cycle 1.
  { cbn [step db]. apply insert_device_ok; cbn; try done.
    - fresh_facts F1. done.
    - by apply device_by_serial_None. }
  cbn [negb].
  unfold bind at 1.
  erewrite (registerDevice_loop_ok env (step w + 7 * n + 8) _ _
              (lock_date_of s (RegisterDeviceRequest.TermDuration req)));
    cbn [tick step db log devices activation_codes lock_dates remote_locks fst snd];
    try done; try (subst n; lia).
  - rewrite bind_uuid_New, !bind_time_Now. cbn [tick step db log].
    apply (Fresh_skip_n _ _ _ _ _ (7 * n)) in Hfresh.
    apply Fresh_step in Hfresh as (F2 & _ & _); [|lia].
    replace (7 * n + S (S (S (S (step w)))))%nat
      with (S (S (S (S (step w)))) + 7 * n)%nat in F2 by lia.
    erewrite bind_db_Exec_ok; [|apply Hnf|]; cycle 1.
    { cbn [step db]. apply insert_remote_lock_ok;
        cbn [RemoteLock.ID RemoteLock.DeviceID remote_locks devices tick step db log].
      - fresh_facts F2. done.
      - fresh_facts F1. done.
      - rewrite fmap_app. apply elem_of_app. right. cbn. apply list_elem_of_singleton.
        done. }
    unfold log_unless. rewrite bind_ret. unfold ret, registered, new_device. cbn [app].
    subst n. cbn [tick step db log devices activation_codes lock_dates remote_locks].
    rewrite ?Nat.add_succ_r, ?Nat.add_0_r, ?Nat.add_succ_l. reflexivity.
  - intros k Hk. rewrite calculateLockDates_lookup by lia. unfold lock_date_of.
    arith_eq.
  - eapply Fresh_mono; [| |exact Hfresh];
      [|intros x Hx; apply elem_of_cons; right; exact Hx].
    intros x. rewrite !elem_of_cons, !elem_of_uuids_in.
    cbn [devices activation_codes lock_dates remote_locks].
    rewrite !fmap_app, !elem_of_app. cbn [fmap list_fmap].
    rewrite !list_elem_of_singleton. cbn. tauto.
  - rewrite fmap_app. apply elem_of_app. right. cbn. apply list_elem_of_singleton. done.
  - fresh_facts F1. rewrite Forall_forall. intros r Hr E. exfalso.
    match goal with H : _ ∉ ActivationCode.DeviceID <$> _ |- _ => apply H end.
    rewrite <- E. by apply list_elem_of_fmap_2.
Qed.

Lemma filter_none {A} (P : A → Prop) `{!∀ x, Decision (P x)} (l : list A) :
  Forall (λ x, ¬ P x) l → filter P l = [].
Proof.
  induction 1 as [|x l Hx _ IH]; [done|]. by rewrite filter_cons_False.
Qed.

Lemma filter_all {A} (P : A → Prop) `{!∀ x, Decision (P x)} (l : list A) :
  Forall P l → filter P l = l.
Proof.
  induction 1 as [|x l Hx _ IH]; [done|]. rewrite filter_cons_True by done. by f_equal.
Qed.

Lemma filter_fresh_key {A} (key : A → string) (u : string) (l : list A) :
  u ∉ key <$> l → filter (λ r, key r = u) l = [].
Proof.
  intros H. apply filter_none, Forall_forall. intros r Hr E. apply H. rewrite <- E.
  by apply list_elem_of_fmap_2.
Qed.

Lemma no_faults_demo : no_faults demo_env.
Proof. intros n. reflexivity. Qed.

(** The device identifier of a registration is new to the store. *)
Lemma registered_device_id_fresh env w hi :
  (step w + 1 < hi)%nat →
  Fresh env (step w) hi (uuids_in (db w)) (codes_in (db w)) →
  uuid_at env (step w + 1) ∉ uuids_in (db w).
Proof.
  intros Hlt H. apply Fresh_skip in H. apply Fresh_step in H as (H & _); [|lia].
  by rewrite Nat.add_1_r.
Qed.

Lemma new_codes_device env deviceID base i n :
  Forall (λ r, ActivationCode.DeviceID r = deviceID) (new_codes env deviceID base i n).
Proof. unfold new_codes. apply Forall_fmap, Forall_forall. by intros. Qed.

Lemma new_locks_device env deviceID f base i n :
  Forall (λ r, LockDate.DeviceID r = deviceID) (new_locks env deviceID f base i n).
Proof. unfold new_locks. apply Forall_fmap, Forall_forall. by intros. Qed.

Lemma new_codes_terms env deviceID base n :
  ActivationCode.TermNumber <$> new_codes env deviceID base 1 n = seqZ 1 (Z.of_nat n).
Proof.
  unfold new_codes, seqZ. rewrite Nat2Z.id, <- list_fmap_compose.
  apply list_fmap_ext. intros _ k _. cbn. lia.
Qed.

Lemma new_locks_dates env deviceID f base n :
  LockDate.LockDate <$> new_locks env deviceID f base 1 n = f <$> seqZ 1 (Z.of_nat n).
Proof.
  unfold new_locks, seqZ. rewrite Nat2Z.id, <- !list_fmap_compose.
  apply list_fmap_ext. intros _ k _. cbn. f_equal. lia.
Qed.

Lemma new_terms_lookup env f base (k : nat) n :
  (k < n)%nat →
  new_terms env f base 1 n !! k
  = Some (TermWithLockDateAndCode.mk (Z.of_nat (S k)) (time.Format (f (Z.of_nat (S k))))
            (String.substring 0 8 (uuid_at env (base + 7 * k)))).
Proof.
  intros H. unfold new_terms. rewrite list_lookup_fmap, lookup_seq_lt by done. cbn.
  do 2 f_equal; [lia | do 2 f_equal; lia].
Qed.

(** C3.  A registration with an allowed term duration, a start date that
    parses, a serial number that is not in the store and [emi_term = N]
    with [N ≥ 1] succeeds when no store call fails and the UUIDs drawn
    are fresh.  Afterwards the rows of the new device are: N activation
    codes, with the term numbers 1..N in this order; N lock dates, those
    of the terms 1..N; one device row, neither active nor locked; one
    remote lock, not locked. *)
Theorem registration_creates_rows env req w s :
  no_faults env →
  RegisterDeviceRequest.TermDuration req ∈ [7; 15; 30] →
  time.Parse (RegisterDeviceRequest.EMIStartDate req) = Some s →
  sql.device_by_serial (RegisterDeviceRequest.SerialNumber req) (db w) = None →
  1 ≤ RegisterDeviceRequest.EMITerm req →
  Fresh env (step w) (step w + 7 * Z.to_nat (RegisterDeviceRequest.EMITerm req) + 8)
    (uuids_in (db w)) (codes_in (db w)) →
  ∃ deviceID terms w',
    registerDevice env req w
    = (RegisterResponse true "Device registered successfully" deviceID terms, w')
    ∧ ActivationCode.TermNumber
        <$> filter (λ r, ActivationCode.DeviceID r = deviceID) (activation_codes (db w'))
      = seqZ 1 (RegisterDeviceRequest.EMITerm req)
    ∧ LockDate.LockDate
        <$> filter (λ r, LockDate.DeviceID r = deviceID) (lock_dates (db w'))
      = lock_date_of s (RegisterDeviceRequest.TermDuration req)
          <$> seqZ 1 (RegisterDeviceRequest.EMITerm req)
    ∧ (∃ dev, filter (λ r, Device.ID r = deviceID) (devices (db w')) = [dev]
              ∧ Device.IsActive dev = false ∧ Device.IsLocked dev = false)
    ∧ (∃ rl, filter (λ r, RemoteLock.DeviceID r = deviceID) (remote_locks (db w')) = [rl]
             ∧ RemoteLock.IsLocked rl = false).
Proof.
  intros Hnf Hdur Hparse Hnone HN Hfresh.
  assert (Hid : uuid_at env (step w + 1) ∉ uuids_in (db w)).
  { eapply registered_device_id_fresh; [|exact Hfresh]. lia. }
  rewrite elem_of_uuids_in in Hid.
  eexists _, _, _. split; [by apply registerDevice_ok|].
  unfold registered.
  cbn [db devices activation_codes lock_dates remote_locks].
  rewrite !filter_app.
  rewrite (filter_fresh_key ActivationCode.DeviceID), (filter_fresh_key LockDate.DeviceID),
    (filter_fresh_key Device.ID), (filter_fresh_key RemoteLock.DeviceID) by tauto.
  cbn [app].
  rewrite (filter_all _ _ (new_codes_device _ _ _ _ _)),
    (filter_all _ _ (new_locks_device _ _ _ _ _ _)).
  rewrite new_codes_terms, new_locks_dates, Z2Nat.id by lia.
  split_and!; [done | done | |].
  - eexists. rewrite filter_cons_True, filter_nil by done. done.
  - eexists. rewrite filter_cons_True, filter_nil by done. done.
Qed.

Lemma registration_creates_rows_witness :
  ∃ deviceID terms w',
    registerDevice demo_env demo_register empty_world
    = (RegisterResponse true "Device registered successfully" deviceID terms, w')
    ∧ ActivationCode.TermNumber
        <$> filter (λ r, ActivationCode.DeviceID r = deviceID) (activation_codes (db w'))
      = [1; 2; 3]
    ∧ length (filter (λ r, LockDate.DeviceID r = deviceID) (lock_dates (db w'))) = 3%nat.
Proof.
  destruct (registration_creates_rows demo_env demo_register empty_world 738885)
    as (deviceID & terms & w' & E & Hc & Hl & _).
  - exact no_faults_demo.
  - apply (bool_decide_unpack _). vm_compute. exact I.
  - vm_compute. reflexivity.
  - reflexivity.
  - vm_compute. discriminate.
  - apply (bool_decide_unpack _). vm_compute. exact I.
  - exists deviceID, terms, w'. split_and!; [done | done |].
    apply (f_equal length) in Hl. rewrite !length_fmap in Hl. exact Hl.
Defined.

(** C2.  In such a registration with start date [s] and term duration
    [d], the lock date of every term [k] of 1..N is [s] plus [k * d]
    days: in the list that [calculateLockDates] returns, in the rows that
    are stored and in the terms of the response.  Start 2024-01-01,
    duration 15 and three terms give the lock dates 2024-01-16,
    2024-01-31 and 2024-02-15. *)
Theorem lock_dates_are_cumulative :
  (∀ env req w s k,
     no_faults env →
     RegisterDeviceRequest.TermDuration req ∈ [7; 15; 30] →
     time.Parse (RegisterDeviceRequest.EMIStartDate req) = Some s →
     sql.device_by_serial (RegisterDeviceRequest.SerialNumber req) (db w) = None →
     Fresh env (step w) (step w + 7 * Z.to_nat (RegisterDeviceRequest.EMITerm req) + 8)
       (uuids_in (db w)) (codes_in (db w)) →
     1 ≤ k ≤ RegisterDeviceRequest.EMITerm req →
     let date_k := s + k * RegisterDeviceRequest.TermDuration req in
     ∃ deviceID terms w' code,
       registerDevice env req w
       = (RegisterResponse true "Device registered successfully" deviceID terms, w')
       ∧ calculateLockDates s (RegisterDeviceRequest.TermDuration req)
           (RegisterDeviceRequest.EMITerm req) !! Z.to_nat (k - 1) = Some date_k
       ∧ (LockDate.LockDate
            <$> filter (λ r, LockDate.DeviceID r = deviceID) (lock_dates (db w')))
           !! Z.to_nat (k - 1) = Some date_k
       ∧ terms !! Z.to_nat (k - 1)
         = Some (TermWithLockDateAndCode.mk k (time.Format date_k) code))
  ∧ (λ s, time.Format <$> calculateLockDates s 15 3) <$> time.Parse "2024-01-01"
    = Some ["2024-01-16"; "2024-01-31"; "2024-02-15"]%string.
Proof.
  split; [|vm_compute; reflexivity].
  intros env req w s k Hnf Hdur Hparse Hnone Hfresh Hk date_k.
  assert (Hid : uuid_at env (step w + 1) ∉ uuids_in (db w)).
  { eapply registered_device_id_fresh; [|exact Hfresh]. lia. }
  rewrite elem_of_uuids_in in Hid.
  eexists _, _, _, _. split; [by apply registerDevice_ok|].
  unfold registered. cbn [db lock_dates].
  rewrite filter_app, (filter_fresh_key LockDate.DeviceID) by tauto. cbn [app].
  rewrite (filter_all _ _ (new_locks_device _ _ _ _ _ _)), new_locks_dates.
  rewrite calculateLockDates_lookup, new_terms_lookup by lia.
  rewrite list_lookup_fmap, Z2Nat.id, lookup_seqZ_lt by lia. cbn [fmap option_fmap option_map].
  unfold lock_date_of, date_k.
  replace (Z.of_nat (S (Z.to_nat (k - 1)))) with k by lia.
  replace (1 + Z.of_nat (Z.to_nat (k - 1))) with k by lia.
  done.
Qed.

Lemma lock_dates_are_cumulative_witness :
  ∃ deviceID terms w' code,
    registerDevice demo_env demo_register empty_world
    = (RegisterResponse true "Device registered successfully" deviceID terms, w')
    ∧ terms !! 1%nat = Some (TermWithLockDateAndCode.mk 2 "2024-01-31" code).
Proof.
  destruct (proj1 lock_dates_are_cumulative demo_env demo_register empty_world 738885 2)
    as (deviceID & terms & w' & code & E & _ & _ & Ht).
  - exact no_faults_demo.
  - apply (bool_decide_unpack _). vm_compute. exact I.
  - vm_compute. reflexivity.
  - reflexivity.
  - apply (bool_decide_unpack _). vm_compute. exact I.
  - vm_compute. split; discriminate.
  - exists deviceID, terms, w', code. split; [exact E | exact Ht].
Defined.

(** C10.  The installment count is not validated: a registration with
    [emi_term ≤ 0] (allowed term duration, start date that parses, new
    serial number) is answered with success and an empty list of terms;
    it adds the device row and its remote lock, and no activation code
    and no lock date. *)
Theorem registration_accepts_nonpositive_term env req w s :
  no_faults env →
  RegisterDeviceRequest.TermDuration req ∈ [7; 15; 30] →
  time.Parse (RegisterDeviceRequest.EMIStartDate req) = Some s →
  sql.device_by_serial (RegisterDeviceRequest.SerialNumber req) (db w) = None →
  RegisterDeviceRequest.EMITerm req ≤ 0 →
  Fresh env (step w) (step w + 8) (uuids_in (db w)) (codes_in (db w)) →
  ∃ deviceID dev rl w',
    registerDevice env req w
    = (RegisterResponse true "Device registered successfully" deviceID [], w')
    ∧ devices (db w') = devices (db w) ++ [dev]
    ∧ Device.ID dev = deviceID
    ∧ Device.SerialNumber dev = RegisterDeviceRequest.SerialNumber req
    ∧ remote_locks (db w') = remote_locks (db w) ++ [rl]
    ∧ RemoteLock.DeviceID rl = deviceID
    ∧ activation_codes (db w') = activation_codes (db w)
    ∧ lock_dates (db w') = lock_dates (db w).
Proof.
  intros Hnf Hdur Hparse Hnone HN Hfresh.
  assert (Hn : Z.to_nat (RegisterDeviceRequest.EMITerm req) = 0%nat) by lia.
  pose proof (registerDevice_ok env req w s Hnf Hdur Hparse Hnone) as E.
  cbv zeta in E. rewrite Hn in E. cbn [Nat.mul] in E. rewrite Nat.add_0_r in E.
  specialize (E Hfresh).
  eexists _, _, _, _. split; [exact E|].
  unfold registered. rewrite Hn.
  cbn [db devices activation_codes lock_dates remote_locks new_codes new_locks seq fmap
       list_fmap].
  rewrite !app_nil_r. done.
Qed.

Lemma registration_accepts_nonpositive_term_witness :
  ∃ deviceID w',
    registerDevice demo_env demo_register_no_terms empty_world
    = (RegisterResponse true "Device registered successfully" deviceID [], w')
    ∧ length (devices (db w')) = 1%nat ∧ length (remote_locks (db w')) = 1%nat
    ∧ activation_codes (db w') = [] ∧ lock_dates (db w') = [].
Proof.
  destruct (registration_accepts_nonpositive_term demo_env demo_register_no_terms
              empty_world 738885)
    as (deviceID & dev & rl & w' & E & Hd & _ & _ & Hr & _ & Hc & Hl).
  - exact no_faults_demo.
  - apply (bool_decide_unpack _). vm_compute. exact I.
  - vm_compute. reflexivity.
  - reflexivity.
  - vm_compute. discriminate.
  - apply (bool_decide_unpack _). vm_compute. exact I.
  - exists deviceID, w'. rewrite Hd, Hr, Hc, Hl. done.
Defined.

(** C5.  Registration is refused with 400 when the term duration is not
    7, 15 or 30, with 400 when the start date does not parse as
    YYYY-MM-DD, and with 409 when the serial number is in the store
    already (and the store answers the lookup); in each case the store
    is as before: no row of any table is made. *)
Theorem registration_rejections env req w :
  (RegisterDeviceRequest.TermDuration req ∉ [7; 15; 30] →
   registerDevice env req w
   = (Error "Term duration must be 7, 15, or 30 days" StatusBadRequest, w))
  ∧ (RegisterDeviceRequest.TermDuration req ∈ [7; 15; 30] →
     time.Parse (RegisterDeviceRequest.EMIStartDate req) = None →
     registerDevice env req w
     = (Error "Invalid date format. Use YYYY-MM-DD" StatusBadRequest, w))
  ∧ (RegisterDeviceRequest.TermDuration req ∈ [7; 15; 30] →
     is_Some (time.Parse (RegisterDeviceRequest.EMIStartDate req)) →
     fault_at env (step w) = false →
     is_Some (sql.device_by_serial (RegisterDeviceRequest.SerialNumber req) (db w)) →
     (registerDevice env req w).1
     = Error "Device with this serial number already exists" StatusConflict
     ∧ db (registerDevice env req w).2 = db w
     ∧ log (registerDevice env req w).2 = log w).
Proof.
  unfold registerDevice.
  destruct (negb (bool_decide (RegisterDeviceRequest.TermDuration req = 7))
            && negb (bool_decide (RegisterDeviceRequest.TermDuration req = 15))
            && negb (bool_decide (RegisterDeviceRequest.TermDuration req = 30))) eqn:Hd.
  - apply andb_prop in Hd as [[H7 H15]%andb_prop H30].
    apply negb_true_iff, bool_decide_eq_false in H7, H15, H30.
    split_and!; [done | |]; intros Hin; exfalso; revert Hin;
      rewrite !elem_of_cons, elem_of_nil; tauto.
  - assert (RegisterDeviceRequest.TermDuration req ∈ [7; 15; 30]) as Hin.
    { rewrite !elem_of_cons.
      apply andb_false_iff in Hd as [[H|H]%andb_false_iff|H];
        apply negb_false_iff, bool_decide_eq_true in H; tauto. }
    split_and!; [done | by intros _ -> |].
    intros _ [s ->] Hf [dev Hdev]. rewrite bind_db_QueryRow, Hf, Hdev. done.
Qed.

Lemma registration_rejections_witness :
  registerDevice demo_env demo_register_bad_duration demo_world
  = (Error "Term duration must be 7, 15, or 30 days" 400, demo_world)
  ∧ registerDevice demo_env demo_register_bad_date demo_world
    = (Error "Invalid date format. Use YYYY-MM-DD" 400, demo_world)
  ∧ (registerDevice demo_env demo_register demo_world).1
    = Error "Device with this serial number already exists" 409
  ∧ db (registerDevice demo_env demo_register demo_world).2 = db demo_world.
Proof.
  split_and!.
  - apply (proj1 (registration_rejections demo_env demo_register_bad_duration demo_world)).
    apply (bool_decide_unpack _). vm_compute. exact I.
  - apply (proj1 (proj2 (registration_rejections demo_env demo_register_bad_date
                           demo_world))).
    + apply (bool_decide_unpack _). vm_compute. exact I.
    + vm_compute. reflexivity.
  - apply (proj2 (proj2 (registration_rejections demo_env demo_register demo_world))).
    + apply (bool_decide_unpack _). vm_compute. exact I.
    + vm_compute. eauto.
    + reflexivity.
    + vm_compute. eauto.
  - apply (proj2 (proj2 (registration_rejections demo_env demo_register demo_world))).
    + apply (bool_decide_unpack _). vm_compute. exact I.
    + vm_compute. eauto.
    + reflexivity.
    + vm_compute. eauto.
Defined.

(** ** Symbolic execution of the handlers *)

Section hoare_rules.
Context (env : Env).
Implicit Types (P : DB → list string → Prop).

Lemma hoare_ret {A} (a : A) P (Q : A → DB → list string → Prop) :
  (∀ d l, P d l → Q a d l) → hoare P (ret a) Q.
Proof. intros H w Hw. by apply H. Qed.

Lemma hoare_ret_sp {A} (a : A) P : hoare P (ret a) (λ x d l, P d l ∧ x = a).
Proof. intros w Hw. done. Qed.

Lemma hoare_bind {A B} (m : M A) (k : A → M B) P R Q :
  hoare P m R → (∀ a, hoare (R a) (k a) Q) → hoare P (bind m k) Q.
Proof. intros Hm Hk w Hw. unfold bind. apply Hk, Hm, Hw. Qed.

Lemma hoare_post {A} (m : M A) P (Q Q' : A → DB → list string → Prop) :
  hoare P m Q → (∀ a d l, Q a d l → Q' a d l) → hoare P m Q'.
Proof. intros Hm HQ w Hw. apply HQ, Hm, Hw. Qed.

Lemma hoare_pre {A} (m : M A) P P' (Q : A → DB → list string → Prop) :
  (∀ d l, P d l → P' d l) → hoare P' m Q → hoare P m Q.
Proof. intros HP Hm w Hw. apply Hm, HP, Hw. Qed.

Lemma hoare_uuid_New P : hoare P (uuid_New env) (λ _, P).
Proof. intros w Hw. exact Hw. Qed.

Lemma hoare_time_Now P : hoare P (time_Now env) (λ _, P).
Proof. intros w Hw. exact Hw. Qed.

Lemma hoare_generateActivationCode P : hoare P (generateActivationCode env) (λ _, P).
Proof. intros w Hw. exact Hw. Qed.

Lemma hoare_db_QueryRow {A} (q : DB → option A) P :
  hoare P (db_QueryRow env q) (λ r d l, P d l ∧ (r = None ∨ r = q d)).
Proof.
  intros w Hw. cbn. split; [done|]. destruct (fault_at env (step w)); auto.
Qed.

Lemma hoare_db_QueryRow_ok {A} (q : DB → option A) P :
  no_faults env → hoare P (db_QueryRow env q) (λ r d l, P d l ∧ r = q d).
Proof. intros Hnf w Hw. cbn. by rewrite Hnf. Qed.

Lemma hoare_db_Query {A} (q : DB → list A) P :
  hoare P (db_Query env q) (λ r d l, P d l ∧ (r = None ∨ r = Some (q d))).
Proof.
  intros w Hw. cbn. split; [done|]. destruct (fault_at env (step w)); auto.
Qed.

Lemma hoare_db_Exec stmt P :
  hoare P (db_Exec env stmt)
    (λ ok d' l, if ok then ∃ d now, P d l ∧ stmt now d = Some d' else P d' l).
Proof.
  intros w Hw. unfold db_Exec. destruct (fault_at env (step w)); [done|].
  destruct (stmt _ _) eqn:E; cbn; eauto.
Qed.

(** An [UPDATE] on a store that does not fail is carried out. *)
Lemma hoare_db_Exec_update (g : Z → DB → DB) P :
  no_faults env →
  hoare P (db_Exec env (λ now d, Some (g now d)))
    (λ ok d' l, ok = true ∧ ∃ d now, P d l ∧ d' = g now d).
Proof. intros Hnf w Hw. unfold db_Exec. rewrite Hnf. cbn. eauto. Qed.

Lemma hoare_log_Printf line P :
  hoare P (log_Printf line) (λ _ d l, ∃ l0, P d l0 ∧ l = l0 ++ [line]).
Proof. intros w Hw. cbn. eauto. Qed.

Lemma hoare_log_unless ok line P :
  hoare P (log_unless ok line)
    (λ _ d l, if ok then P d l else ∃ l0, P d l0 ∧ l = l0 ++ [line]).
Proof. intros w Hw. destruct ok; cbn; eauto. Qed.
End hoare_rules.

Lemma insert_device_inv r d d' :
  sql.insert_device r d = Some d' →
  (Device.ID r ∉ Device.ID <$> devices d)
  ∧ d' = mkDB (devices d ++ [r]) (activation_codes d) (lock_dates d) (remote_locks d).
Proof.
  unfold sql.insert_device. repeat case_decide; try done. by intros [= <-].
Qed.

Lemma insert_activation_code_inv r d d' :
  sql.insert_activation_code r d = Some d' →
  d' = mkDB (devices d) (activation_codes d ++ [r]) (lock_dates d) (remote_locks d).
Proof.
  unfold sql.insert_activation_code. repeat case_decide; try done. by intros [= <-].
Qed.

Lemma insert_lock_date_inv r d d' :
  sql.insert_lock_date r d = Some d' →
  d' = mkDB (devices d) (activation_codes d) (lock_dates d ++ [r]) (remote_locks d).
Proof.
  unfold sql.insert_lock_date. repeat case_decide; try done. by intros [= <-].
Qed.

Lemma insert_remote_lock_inv r d d' :
  sql.insert_remote_lock r d = Some d' →
  RemoteLock.DeviceID r ∈ Device.ID <$> devices d
  ∧ d' = mkDB (devices d) (activation_codes d) (lock_dates d) (remote_locks d ++ [r]).
Proof.
  unfold sql.insert_remote_lock. repeat case_decide; try done. by intros [= <-].
Qed.

(** One step of symbolic execution: the first action of a [bind] is run
    with its rule, and its result is named. *)
Tactic Notation "hstep" constr(env) "as" ident(x) :=
  eapply hoare_bind;
  [ first [ apply (hoare_uuid_New env) | apply (hoare_time_Now env)
          | apply (hoare_generateActivationCode env)
          | apply (hoare_db_QueryRow_ok env); assumption
          | apply (hoare_db_QueryRow env) | apply (hoare_db_Query env)
          | apply (hoare_db_Exec_update env); assumption
          | apply (hoare_db_Exec env) | apply hoare_log_Printf
          | apply hoare_log_unless ]
  | intros x ].

(** Open the assertion [H] that symbolic execution has accumulated. *)
Ltac hopen :=
  cbn beta in *;
  repeat match goal with
  | H : ∃ _, _ |- _ => destruct H as [? H]
  | H : _ ∧ _ |- _ => destruct H as [? ?]
  | H : sql.insert_device _ _ = Some _ |- _ => apply insert_device_inv in H as [? ->]
  | H : sql.insert_activation_code _ _ = Some _ |- _ =>
      apply insert_activation_code_inv in H as ->
  | H : sql.insert_lock_date _ _ = Some _ |- _ => apply insert_lock_date_inv in H as ->
  | H : sql.insert_remote_lock _ _ = Some _ |- _ =>
      apply insert_remote_lock_inv in H as [? ->]
  | H : Some _ = Some _ |- _ => injection H as H
  end.

Ltac hret := apply hoare_ret; intros ? ? ?; hopen.

(** The loop of [registerDevice] leaves the devices and the remote locks
    as they are, however it ends. *)
Lemma registerDevice_loop_keeps env deviceID lockDates devs rls n :
  ∀ i acc,
  hoare (λ d _, devices d = devs ∧ remote_locks d = rls)
    (registerDevice_loop env n i deviceID lockDates acc)
    (λ _ d _, devices d = devs ∧ remote_locks d = rls).
Proof.
  induction n as [|n IH]; intros i acc; cbn [registerDevice_loop].
  - by apply hoare_ret.
  - hstep env as code. hstep env as id. hstep env as now. hstep env as ok.
    destruct ok; cbn [negb].
    + destruct (lockDates !! _).
      * hstep env as id'. hstep env as now'. hstep env as ok'.
        destruct ok'; cbn [negb].
        -- eapply hoare_pre; [|apply IH]. intros d l H. hopen. subst. done.
        -- hstep env as u. hret. subst. done.
      * hret. subst. done.
    + hstep env as u. hret. done.
Qed.

Lemma lock_invariant_ext d d' :
  devices d' = devices d → remote_locks d' = remote_locks d →
  lock_invariant d → lock_invariant d'.
Proof.
  unfold lock_invariant, remote_lock_fk, locks_in_sync. intros -> ->. done.
Qed.

Lemma lock_invariant_insert_device r d cs ls :
  Device.ID r ∉ Device.ID <$> devices d →
  lock_invariant d →
  lock_invariant (mkDB (devices d ++ [r]) cs ls (remote_locks d)).
Proof.
  intros Hid [Hfk Hsync]. split.
  - intros rl Hrl. cbn in *. rewrite fmap_app. apply elem_of_app. left. by apply Hfk.
  - intros dev rl Hdev Hrl E. cbn in *. apply elem_of_app in Hdev as [Hdev|Hdev].
    + by apply Hsync.
    + apply list_elem_of_singleton in Hdev as ->. exfalso. apply Hid.
      rewrite <- E. by apply Hfk.
Qed.

Lemma lock_invariant_insert_remote_lock r d cs ls :
  RemoteLock.DeviceID r ∈ Device.ID <$> devices d →
  (∀ dev, dev ∈ devices d → Device.ID dev = RemoteLock.DeviceID r →
          Device.IsLocked dev = RemoteLock.IsLocked r) →
  lock_invariant d →
  lock_invariant (mkDB (devices d) cs ls (remote_locks d ++ [r])).
Proof.
  intros Hin Hr [Hfk Hsync]. split.
  - intros rl Hrl. cbn in *. apply elem_of_app in Hrl as [Hrl|Hrl]; [by apply Hfk|].
    by apply list_elem_of_singleton in Hrl as ->.
  - intros dev rl Hdev Hrl E. cbn in *. apply elem_of_app in Hrl as [Hrl|Hrl].
    + by apply Hsync.
    + apply list_elem_of_singleton in Hrl as ->. by apply Hr.
Qed.

Lemma device_ids_fmap (g : Device.t → Device.t) (l : list Device.t) :
  (∀ r, Device.ID (g r) = Device.ID r) → Device.ID <$> (g <$> l) = Device.ID <$> l.
Proof. intros H. rewrite <- list_fmap_compose. apply list_fmap_ext. intros _ r _. apply H. Qed.

Lemma lock_invariant_set_device_active id d :
  lock_invariant d → lock_invariant (sql.set_device_active id d).
Proof.
  intros [Hfk Hsync]. split.
  - intros rl Hrl. cbn in *. rewrite device_ids_fmap; [by apply Hfk|].
    intros r. by case_decide.
  - intros dev rl Hdev Hrl E. cbn in *.
    apply list_elem_of_fmap_1 in Hdev as (dev0 & -> & Hdev0).
    rewrite <- (Hsync dev0 rl Hdev0 Hrl); [by case_decide|].
    rewrite E. by case_decide.
Qed.

Lemma lock_invariant_mark_code_used now id d :
  lock_invariant d → lock_invariant (sql.mark_code_used now id d).
Proof. by apply lock_invariant_ext. Qed.

Lemma remote_lock_ids_fmap (g : RemoteLock.t → RemoteLock.t) (l : list RemoteLock.t) rl :
  (∀ r, RemoteLock.DeviceID (g r) = RemoteLock.DeviceID r) →
  rl ∈ g <$> l → ∃ rl0, rl = g rl0 ∧ rl0 ∈ l ∧ RemoteLock.DeviceID rl = RemoteLock.DeviceID rl0.
Proof.
  intros H (rl0 & -> & Hrl0)%list_elem_of_fmap_1. exists rl0. by rewrite H.
Qed.

Lemma lock_invariant_set_lock b now now' id d :
  lock_invariant d →
  lock_invariant (sql.set_device_locked b id (sql.set_remote_lock b now now' id d)).
Proof.
  intros [Hfk Hsync]. split.
  - intros rl Hrl. cbn in *. rewrite device_ids_fmap by (intros r; by case_decide).
    apply remote_lock_ids_fmap in Hrl as (rl0 & _ & Hrl0 & ->);
      [by apply Hfk | intros r; by case_decide].
  - intros dev rl Hdev Hrl E. cbn in *.
    apply list_elem_of_fmap_1 in Hdev as (dev0 & -> & Hdev0).
    apply list_elem_of_fmap_1 in Hrl as (rl0 & -> & Hrl0).
    specialize (Hsync dev0 rl0 Hdev0 Hrl0).
    repeat case_decide; cbn in *; try done; try congruence; by apply Hsync.
Qed.

Lemma lock_invariant_unlock now now' id d :
  lock_invariant d →
  lock_invariant (sql.set_remote_lock false now now' id (sql.reset_device id d)).
Proof.
  intros [Hfk Hsync]. split.
  - intros rl Hrl. cbn in *. rewrite device_ids_fmap by (intros r; by case_decide).
    apply remote_lock_ids_fmap in Hrl as (rl0 & _ & Hrl0 & ->);
      [by apply Hfk | intros r; by case_decide].
  - intros dev rl Hdev Hrl E. cbn in *.
    apply list_elem_of_fmap_1 in Hdev as (dev0 & -> & Hdev0).
    apply list_elem_of_fmap_1 in Hrl as (rl0 & -> & Hrl0).
    specialize (Hsync dev0 rl0 Hdev0 Hrl0).
    repeat case_decide; cbn in *; try done; try congruence; by apply Hsync.
Qed.

Section lock_invariant_handlers.
Context (env : Env) (Hnf : no_faults env).

Lemma hoare_Main_termsWithDates id P :
  hoare P (Main.termsWithDates env id) (λ _, P).
Proof.
  unfold Main.termsWithDates. hstep env as rows. destruct rows.
  - hstep env as rows'. destruct rows'; hret; done.
  - hret. done.
Qed.

Lemma hoare_Handler_termsWithDates id P :
  hoare P (Handler.termsWithDates env id) (λ _, P).
Proof.
  unfold Handler.termsWithDates. hstep env as rows. destruct rows.
  - hstep env as rows'. destruct rows'; hret; done.
  - hret. done.
Qed.

Lemma registerDevice_loop_keeps_pred (Φ : list Device.t → list RemoteLock.t → Prop)
    deviceID lockDates n i acc :
  hoare (λ d _, Φ (devices d) (remote_locks d))
    (registerDevice_loop env n i deviceID lockDates acc)
    (λ _ d _, Φ (devices d) (remote_locks d)).
Proof.
  intros w Hw.
  destruct (registerDevice_loop_keeps env deviceID lockDates (devices (db w))
              (remote_locks (db w)) n i acc w (conj eq_refl eq_refl)) as [-> ->].
  exact Hw.
Qed.

Lemma lock_invariant_registerDevice req :
  hoare (λ d _, lock_invariant d) (registerDevice env req) (λ _ d _, lock_invariant d).
Proof.
  unfold registerDevice. destruct (_ && _); [by apply hoare_ret|].
  destruct (time.Parse _) as [s|]; [|by apply hoare_ret].
  hstep env as existing. destruct existing; [hret; done|].
  hstep env as deviceID. hstep env as now. hstep env as ok. destruct ok; cbn [negb].
  - eapply hoare_bind.
    { eapply hoare_pre;
        [|apply (registerDevice_loop_keeps_pred
                   (λ devs rls, lock_invariant (mkDB devs [] [] rls)
                      ∧ deviceID ∈ Device.ID <$> devs
                      ∧ ∀ dev, dev ∈ devs → Device.ID dev = deviceID →
                               Device.IsLocked dev = false))].
      intros d l H. hopen. cbn [devices remote_locks]. split_and!.
      - by apply lock_invariant_insert_device.
      - rewrite fmap_app. apply elem_of_app. right. cbn. by apply list_elem_of_singleton.
      - intros dev [Hdev|Hdev]%elem_of_app E.
        + exfalso. match goal with H : _ ∉ _ |- _ => apply H end.
          cbn. rewrite <- E. by apply list_elem_of_fmap_2.
        + by apply list_elem_of_singleton in Hdev as ->. }
    intros r. destruct r as [early|terms]; [hret; by eapply lock_invariant_ext|].
    hstep env as id. hstep env as created. hstep env as updated. hstep env as ok.
    hstep env as u. hret. destruct ok; hopen; [|by eapply lock_invariant_ext].
    apply lock_invariant_insert_remote_lock; [done| |by eapply lock_invariant_ext].
    cbn. intros dev Hdev E. eauto.
  - hstep env as u. hret. done.
Qed.

Lemma lock_invariant_setRemoteLock req :
  hoare (λ d _, lock_invariant d) (setRemoteLock env req) (λ _ d _, lock_invariant d).
Proof.
  unfold setRemoteLock. hstep env as found. destruct found as [dev|]; [|hret; done].
  hstep env as now. hstep env as ok. destruct ok; cbn [negb].
  - hstep env as ok'. hstep env as u. hret. destruct ok'; hopen; [|done]. subst.
    by apply lock_invariant_set_lock.
  - hstep env as u. hret. done.
Qed.

Lemma lock_invariant_unlockDevice req :
  hoare (λ d _, lock_invariant d) (unlockDevice env req) (λ _ d _, lock_invariant d).
Proof.
  unfold unlockDevice. hstep env as found. destruct found as [dev|]; [|hret; done].
  hstep env as ok. destruct ok; cbn [negb].
  - hstep env as now. hstep env as ok'. hstep env as u. hret.
    destruct ok'; hopen; [|done]. subst. by apply lock_invariant_unlock.
  - hstep env as u. hret. done.
Qed.

Lemma lock_invariant_checkRemoteLock serial :
  hoare (λ d _, lock_invariant d) (checkRemoteLock env serial)
    (λ _ d _, lock_invariant d).
Proof.
  unfold checkRemoteLock. case_bool_decide; [by apply hoare_ret|].
  hstep env as found. destruct found as [dev|]; [|hret; done].
  hstep env as lock. destruct lock; hret; done.
Qed.

Lemma lock_invariant_activateDevice p req :
  hoare (λ d _, lock_invariant d)
    (match p with
     | StandaloneServer => Main.activateDevice env req
     | ServerlessHandler => Handler.activateDevice env req
     end) (λ _ d _, lock_invariant d).
Proof.
  destruct p; [unfold Main.activateDevice | unfold Handler.activateDevice];
    (hstep env as found; destruct found as [ac|]; [|hret; done]);
    hstep env as now; hstep env as ok; (destruct ok; cbn [negb];
      [|hstep env as u; hret; done]);
    hstep env as ok'; hstep env as u;
    (eapply hoare_bind;
       [first [apply hoare_Main_termsWithDates | apply hoare_Handler_termsWithDates]|]);
    intros terms; hret; destruct ok'; hopen; try done; subst;
    by apply lock_invariant_set_device_active, lock_invariant_mark_code_used.
Qed.

Lemma lock_invariant_checkActivation p serial :
  hoare (λ d _, lock_invariant d)
    (match p with
     | StandaloneServer => Main.checkActivation env serial
     | ServerlessHandler => Handler.checkActivation env serial
     end) (λ _ d _, lock_invariant d).
Proof.
  destruct p; [unfold Main.checkActivation | unfold Handler.checkActivation];
    (case_bool_decide; [by apply hoare_ret|]);
    (hstep env as found; destruct found as [dev|]; [|hret; done]).
  - destruct (negb _); [hret; done|].
    eapply hoare_bind; [apply hoare_Main_termsWithDates|]. intros terms. hret. done.
  - destruct (negb (Device.IsActive dev)).
    + hstep env as ok. destruct ok; cbn [negb].
      * eapply hoare_bind; [apply hoare_Handler_termsWithDates|]. intros terms. hret.
        subst. by apply lock_invariant_set_device_active.
      * hstep env as u. hret. done.
    + eapply hoare_bind; [apply hoare_ret_sp|]. intros ok. cbn beta.
      destruct ok; cbn [negb].
      * eapply hoare_bind; [apply hoare_Handler_termsWithDates|]. intros terms. hret.
        done.
      * hstep env as u. hret. done.
Qed.

Lemma lock_invariant_serve p r :
  hoare (λ d _, lock_invariant d) (serve env p r) (λ _ d _, lock_invariant d).
Proof.
  destruct r; cbn [serve].
  - apply lock_invariant_registerDevice.
  - apply lock_invariant_activateDevice.
  - apply lock_invariant_checkActivation.
  - apply lock_invariant_setRemoteLock.
  - apply lock_invariant_checkRemoteLock.
  - apply lock_invariant_unlockDevice.
  - by apply hoare_ret.
Qed.

Lemma lock_invariant_run p rs :
  hoare (λ d _, lock_invariant d) (run env p rs) (λ _ d _, lock_invariant d).
Proof.
  induction rs as [|r rs IH]; cbn [run]; [by apply hoare_ret|].
  eapply hoare_bind; [apply lock_invariant_serve|]. intros resp.
  eapply hoare_bind; [apply IH|]. intros resps. by apply hoare_ret.
Qed.
End lock_invariant_handlers.

(** ** Remote lock and unlock *)

Lemma head_filter_fmap {A} (P : A → Prop) `{!∀ x, Decision (P x)} (g : A → A) (l : list A) :
  (∀ x, P (g x) ↔ P x) → head (filter P (g <$> l)) = g <$> head (filter P l).
Proof.
  intros Hg. induction l as [|x l IH]; [done|]. rewrite fmap_cons, !filter_cons.
  destruct (decide (P x)) as [Hx|Hx].
  - rewrite decide_True by by apply Hg. done.
  - rewrite decide_False by by rewrite Hg. done.
Qed.

Section lock_roundtrip.
Context (env : Env) (Hnf : no_faults env).



End lock_roundtrip.



Lemma device_by_serial_set_device_active serial id d :
  sql.device_by_serial serial (sql.set_device_active id d)
  = (λ r, if decide (Device.ID r = id) then Device.set_IsActive true r else r)
      <$> sql.device_by_serial serial d.
Proof.
  unfold sql.device_by_serial, sql.set_device_active. cbn [devices].
  apply (head_filter_fmap (λ r, Device.SerialNumber r = serial)). intros r. by case_decide.
Qed.







(** ** Store errors *)

Section error_log.
Context (env : Env).

Lemma hoare_db_Exec_log stmt L :
  hoare (λ _ l, l = L) (db_Exec env stmt) (λ _ _ l, l = L).
Proof. intros w Hw. unfold db_Exec. destruct (fault_at _ _); [done|]. by destruct (stmt _ _). Qed.

Lemma registerDevice_loop_log deviceID lockDates L n :
  ∀ i acc,
  hoare (λ _ l, l = L) (registerDevice_loop env n i deviceID lockDates acc)
    (λ r _ l, match r with
              | inl resp => reports_success resp = false ∧ ∃ extra, l = L ++ extra
              | inr _ => l = L
              end).
Proof.
  induction n as [|n IH]; intros i acc; cbn [registerDevice_loop].
  - by apply hoare_ret.
  - hstep env as code. hstep env as id. hstep env as now. hstep env as ok.
    destruct ok; cbn [negb].
    + destruct (lockDates !! _).
      * hstep env as id'. hstep env as now'. hstep env as ok'.
        destruct ok'; cbn [negb].
        -- eapply hoare_pre; [|apply IH]. intros d l H. hopen. done.
        -- hstep env as u. hret. subst. eauto.
      * hret. subst. split; [done|]. exists []. by rewrite app_nil_r.
    + hstep env as u. hret. subst. eauto.
Qed.

Lemma log_post_same L r resp : log_post L r resp L.
Proof. exists []. rewrite app_nil_r. split; [done|]. by intros _ line ?%elem_of_nil. Qed.

Lemma log_post_failure L r resp l : reports_success resp = false → log_post L r resp (L ++ l).
Proof. intros H. exists l. split; [done|]. rewrite H. done. Qed.

Lemma log_post_tolerated L r resp line :
  line ∈ tolerated r → log_post L r resp (L ++ [line]).
Proof.
  intros H. exists [line]. split; [done|]. by intros _ x ->%list_elem_of_singleton.
Qed.

Lemma error_log_serve p r L :
  hoare (λ _ l, l = L) (serve env p r) (λ resp _ l, log_post L r resp l).
Proof.
  destruct r as [req|req|serial|req|serial|req|]; cbn [serve].
  - unfold registerDevice. destruct (_ && _); [hret; subst; apply log_post_same|].
    destruct (time.Parse _) as [s|]; [|hret; subst; apply log_post_same].
    hstep env as existing. destruct existing; [hret; subst; apply log_post_same|].
    hstep env as deviceID. hstep env as now. hstep env as ok. destruct ok; cbn [negb].
    + eapply hoare_bind.
      { eapply hoare_pre; [|apply (registerDevice_loop_log _ _ L)].
        intros d l H. hopen. done. }
      intros r. destruct r as [early|terms].
      * hret. subst. by apply log_post_failure.
      * hstep env as id. hstep env as created. hstep env as updated.
        hstep env as ok. hstep env as u. hret.
        destruct ok; hopen; subst; [apply log_post_same|].
        apply log_post_tolerated. cbn. by apply list_elem_of_singleton.
    + hstep env as u. hret. subst. by apply log_post_failure.
  - destruct p; [unfold Main.activateDevice | unfold Handler.activateDevice];
      (hstep env as found; destruct found as [ac|]; [|hret; subst; apply log_post_same]);
      hstep env as now; hstep env as ok; (destruct ok; cbn [negb];
        [|hstep env as u; hret; subst; by apply log_post_failure]);
      hstep env as ok'; hstep env as u;
      (eapply hoare_bind;
         [first [apply hoare_Main_termsWithDates | apply hoare_Handler_termsWithDates]|]);
      intros terms; hret; destruct ok'; hopen; subst; try apply log_post_same;
      apply log_post_tolerated; cbn; by apply list_elem_of_singleton.
  - destruct p; [unfold Main.checkActivation | unfold Handler.checkActivation];
      (case_bool_decide; [hret; subst; apply log_post_same|]);
      (hstep env as found; destruct found as [dev|]; [|hret; subst; apply log_post_same]).
    + destruct (negb _); [hret; subst; apply log_post_same|].
      eapply hoare_bind; [apply hoare_Main_termsWithDates|]. intros terms. hret.
      subst. apply log_post_same.
    + eapply hoare_pre with (P' := λ _ l, l = L); [intros d l Hl; by hopen|].
      eapply hoare_bind.
      { instantiate (1 := λ _ _ l, l = L).
        destruct (negb _); [apply hoare_db_Exec_log | by apply hoare_ret]. }
      intros ok. destruct ok; cbn [negb].
      * eapply hoare_bind; [apply hoare_Handler_termsWithDates|]. intros terms. hret.
        subst. apply log_post_same.
      * hstep env as u. hret. subst. by apply log_post_failure.
  - unfold setRemoteLock.
    hstep env as found. destruct found as [dev|]; [|hret; subst; apply log_post_same].
    hstep env as now. hstep env as ok. destruct ok; cbn [negb].
    + hstep env as ok'. hstep env as u. hret.
      destruct ok'; hopen; subst; [apply log_post_same|].
      apply log_post_tolerated. cbn. by apply list_elem_of_singleton.
    + hstep env as u. hret. subst. by apply log_post_failure.
  - unfold checkRemoteLock. case_bool_decide; [hret; subst; apply log_post_same|].
    hstep env as found. destruct found as [dev|]; [|hret; subst; apply log_post_same].
    hstep env as lock. destruct lock; hret; subst; apply log_post_same.
  - unfold unlockDevice.
    hstep env as found. destruct found as [dev|]; [|hret; subst; apply log_post_same].
    hstep env as ok. destruct ok; cbn [negb].
    + hstep env as now. hstep env as ok'. hstep env as u. hret.
      destruct ok'; hopen; subst; [apply log_post_same|].
      apply log_post_tolerated. cbn. by apply list_elem_of_singleton.
    + hstep env as u. hret. subst. by apply log_post_failure.
  - hret. subst. apply log_post_same.
Qed.
End error_log.

(** C6, as stated, fails: when the insert of the remote lock fails,
    registration logs the error and still answers with success, and the
    device is left without a remote lock. *)
Lemma store_error_reported_as_success :
  let out := serve (faulty_env 28) ServerlessHandler (POST_register demo_register)
               empty_world in
  fault_at (faulty_env 28) 28 = true
  ∧ log out.2 = ["Error inserting remote lock"]%string
  ∧ remote_locks (db out.2) = []
  ∧ reports_success out.1 = true.
Proof. vm_compute. done. Qed.

(** *** The lock flags when store calls may fail *)

Lemma unless_reported_start L (Φ : DB → Prop) d : Φ d → unless_reported L Φ d L.
Proof. intros H. exists []. by rewrite app_nil_r. Qed.

Lemma unless_reported_mono L (Φ Ψ : DB → Prop) d d' l :
  (Φ d → Ψ d') → unless_reported L Φ d l → unless_reported L Ψ d' l.
Proof. intros H (extra & -> & HΦ). exists extra. split; [done|]. intros Hc. apply H, HΦ, Hc. Qed.

Lemma unless_reported_log L Φ d l line :
  unless_reported L Φ d l → unless_reported L Φ d (l ++ [line]).
Proof.
  intros (extra & -> & HΦ). exists (extra ++ [line]). rewrite app_assoc. split; [done|].
  intros [Hc _]%Forall_app. by apply HΦ.
Qed.

Lemma unless_reported_error L Φ (Ψ : DB → Prop) d d' l line :
  line ∈ lock_write_errors →
  unless_reported L Φ d l → unless_reported L Ψ d' (l ++ [line]).
Proof.
  intros Hline (extra & -> & _). exists (extra ++ [line]). rewrite app_assoc.
  split; [done|]. intros [_ Hc]%Forall_app. by apply Forall_cons in Hc as [[] _].
Qed.

Section lock_invariant_with_faults.
Context (env : Env) (L : list string).

Lemma registerDevice_loop_grows deviceID lockDates l n i acc :
  hoare (λ _ l', l' = l) (registerDevice_loop env n i deviceID lockDates acc)
    (λ _ _ l', ∃ extra, l' = l ++ extra).
Proof.
  eapply hoare_post; [apply registerDevice_loop_log|].
  intros [resp|terms] d l'; cbn beta iota.
  - by intros [_ H].
  - intros ->. exists []. by rewrite app_nil_r.
Qed.

Lemma registerDevice_loop_unless_reported
    (Φ : list Device.t → list RemoteLock.t → Prop) deviceID lockDates n i acc :
  hoare (unless_reported L (λ d, Φ (devices d) (remote_locks d)))
    (registerDevice_loop env n i deviceID lockDates acc)
    (λ _, unless_reported L (λ d, Φ (devices d) (remote_locks d))).
Proof.
  intros w (extra & Hl & HΦ).
  destruct (registerDevice_loop_keeps env deviceID lockDates (devices (db w))
              (remote_locks (db w)) n i acc w (conj eq_refl eq_refl)) as [Hd Hr].
  destruct (registerDevice_loop_grows deviceID lockDates (log w) n i acc w eq_refl)
    as [extra' Hl'].
  exists (extra ++ extra'). rewrite Hl', Hl, app_assoc. split; [done|].
  intros [Hc _]%Forall_app. rewrite Hd, Hr. by apply HΦ.
Qed.

Ltac same := eapply unless_reported_mono; [|eassumption]; done.
Ltac logged := apply unless_reported_log; same.

Lemma unless_reported_registerDevice req :
  hoare (unless_reported L lock_invariant) (registerDevice env req)
    (λ _, unless_reported L lock_invariant).
Proof.
  unfold registerDevice. destruct (_ && _); [by apply hoare_ret|].
  destruct (time.Parse _) as [s|]; [|by apply hoare_ret].
  hstep env as existing. destruct existing; [hret; done|].
  hstep env as deviceID. hstep env as now. hstep env as ok. destruct ok; cbn [negb].
  - eapply hoare_bind.
    { eapply hoare_pre;
        [|apply (registerDevice_loop_unless_reported
                   (λ devs rls, lock_invariant (mkDB devs [] [] rls)
                      ∧ deviceID ∈ Device.ID <$> devs
                      ∧ ∀ dev, dev ∈ devs → Device.ID dev = deviceID →
                               Device.IsLocked dev = false))].
      intros d l H. hopen. eapply unless_reported_mono; [|eassumption].
      intros Hinv. cbn [devices remote_locks]. split_and!.
      - by apply lock_invariant_insert_device.
      - rewrite fmap_app. apply elem_of_app. right. cbn. by apply list_elem_of_singleton.
      - intros dev [Hdev|Hdev]%elem_of_app E.
        + exfalso. match goal with H : _ ∉ _ |- _ => apply H end.
          cbn. rewrite <- E. by apply list_elem_of_fmap_2.
        + by apply list_elem_of_singleton in Hdev as ->. }
    intros r. destruct r as [early|terms].
    { hret. eapply unless_reported_mono; [|eassumption].
      intros [Hinv _]. by eapply lock_invariant_ext. }
    hstep env as id. hstep env as created. hstep env as updated. hstep env as ok.
    hstep env as u. hret. destruct ok; hopen.
    + eapply unless_reported_mono; [|eassumption]. intros (Hinv & Hin & Hdev).
      apply lock_invariant_insert_remote_lock; [done| |by eapply lock_invariant_ext].
      cbn. intros dev Hd E. eauto.
    + subst. apply unless_reported_log. eapply unless_reported_mono; [|eassumption].
      intros [Hinv _]. by eapply lock_invariant_ext.
  - hstep env as u. hret. subst. logged.
Qed.

Lemma unless_reported_setRemoteLock req :
  hoare (unless_reported L lock_invariant) (setRemoteLock env req)
    (λ _, unless_reported L lock_invariant).
Proof.
  unfold setRemoteLock. hstep env as found. destruct found as [dev|]; [|hret; done].
  hstep env as now. hstep env as ok. destruct ok; cbn [negb].
  - hstep env as ok'. hstep env as u. hret. destruct ok'; hopen; subst.
    + eapply unless_reported_mono; [|eassumption]. apply lock_invariant_set_lock.
    + eapply unless_reported_error; [|eassumption].
      unfold lock_write_errors. rewrite !elem_of_cons. tauto.
  - hstep env as u. hret. subst. logged.
Qed.

Lemma unless_reported_unlockDevice req :
  hoare (unless_reported L lock_invariant) (unlockDevice env req)
    (λ _, unless_reported L lock_invariant).
Proof.
  unfold unlockDevice. hstep env as found. destruct found as [dev|]; [|hret; done].
  hstep env as ok. destruct ok; cbn [negb].
  - hstep env as now. hstep env as ok'. hstep env as u. hret.
    destruct ok'; hopen; subst.
    + eapply unless_reported_mono; [|eassumption]. apply lock_invariant_unlock.
    + eapply unless_reported_error; [|eassumption].
      unfold lock_write_errors. rewrite !elem_of_cons. tauto.
  - hstep env as u. hret. subst. logged.
Qed.

Lemma unless_reported_checkRemoteLock serial :
  hoare (unless_reported L lock_invariant) (checkRemoteLock env serial)
    (λ _, unless_reported L lock_invariant).
Proof.
  unfold checkRemoteLock. case_bool_decide; [by apply hoare_ret|].
  hstep env as found. destruct found as [dev|]; [|hret; done].
  hstep env as lock. destruct lock; hret; done.
Qed.

Lemma unless_reported_activateDevice p req :
  hoare (unless_reported L lock_invariant)
    (match p with
     | StandaloneServer => Main.activateDevice env req
     | ServerlessHandler => Handler.activateDevice env req
     end) (λ _, unless_reported L lock_invariant).
Proof.
  destruct p; [unfold Main.activateDevice | unfold Handler.activateDevice];
    (hstep env as found; destruct found as [ac|]; [|hret; done]);
    hstep env as now; hstep env as ok; (destruct ok; cbn [negb];
      [|hstep env as u; hret; subst; logged]);
    hstep env as ok'; hstep env as u;
    (eapply hoare_bind;
       [first [apply hoare_Main_termsWithDates | apply hoare_Handler_termsWithDates]|]);
    intros terms; hret; destruct ok'; hopen; subst;
    try apply unless_reported_log;
    (eapply unless_reported_mono; [|eassumption]); intros Hinv;
    repeat first [ apply lock_invariant_set_device_active
                 | apply lock_invariant_mark_code_used | done ].
Qed.

Lemma unless_reported_checkActivation p serial :
  hoare (unless_reported L lock_invariant)
    (match p with
     | StandaloneServer => Main.checkActivation env serial
     | ServerlessHandler => Handler.checkActivation env serial
     end) (λ _, unless_reported L lock_invariant).
Proof.
  destruct p; [unfold Main.checkActivation | unfold Handler.checkActivation];
    (case_bool_decide; [by apply hoare_ret|]);
    (hstep env as found; destruct found as [dev|]; [|hret; done]).
  - destruct (negb _); [hret; done|].
    eapply hoare_bind; [apply hoare_Main_termsWithDates|]. intros terms. hret. done.
  - destruct (negb (Device.IsActive dev)).
    + hstep env as ok. destruct ok; cbn [negb].
      * eapply hoare_bind; [apply hoare_Handler_termsWithDates|]. intros terms. hret.
        subst. eapply unless_reported_mono; [|eassumption].
        apply lock_invariant_set_device_active.
      * hstep env as u. hret. subst. logged.
    + eapply hoare_bind; [apply hoare_ret_sp|]. intros ok. cbn beta.
      destruct ok; cbn [negb].
      * eapply hoare_bind; [apply hoare_Handler_termsWithDates|]. intros terms. hret.
        done.
      * hstep env as u. hret. subst. logged.
Qed.

Lemma unless_reported_serve p r :
  hoare (unless_reported L lock_invariant) (serve env p r)
    (λ _, unless_reported L lock_invariant).
Proof.
  destruct r; cbn [serve].
  - apply unless_reported_registerDevice.
  - apply unless_reported_activateDevice.
  - apply unless_reported_checkActivation.
  - apply unless_reported_setRemoteLock.
  - apply unless_reported_checkRemoteLock.
  - apply unless_reported_unlockDevice.
  - by apply hoare_ret.
Qed.

Lemma unless_reported_run p rs :
  hoare (unless_reported L lock_invariant) (run env p rs)
    (λ _, unless_reported L lock_invariant).
Proof.
  induction rs as [|r rs IH]; cbn [run]; [by apply hoare_ret|].
  eapply hoare_bind; [apply unless_reported_serve|]. intros resp.
  eapply hoare_bind; [apply IH|]. intros resps. by apply hoare_ret.
Qed.
End lock_invariant_with_faults.

Lemma lock_invariant_empty : lock_invariant empty_db.
Proof.
  split.
  - intros rl Hrl. by apply elem_of_nil in Hrl.
  - intros dev rl Hdev. by apply elem_of_nil in Hdev.
Qed.

(** C8, as amended.  After any sequence of requests to either program,
    from a store in which the lock flags agree (the empty store before
    the first registration is one), the [is_locked] flag of every device
    equals the flag of its remote lock, provided that no write of a lock
    flag has failed: when no store call fails, and also when store calls
    fail, unless the log reports the failed write of a lock flag in
    set-remote-lock or unlock. *)
Theorem lock_flags_stay_in_sync env p rs w :
  lock_invariant (db w) →
  (no_faults env → locks_in_sync (db (run env p rs w).2))
  ∧ ∃ extra,
      log (run env p rs w).2 = log w ++ extra
      ∧ (no_lock_write_error extra → locks_in_sync (db (run env p rs w).2)).
Proof.
  intros Hw. split.
  - intros Hnf. by apply (lock_invariant_run env Hnf p rs w).
  - destruct (unless_reported_run env (log w) p rs w (unless_reported_start _ _ _ Hw))
      as (extra & Hl & Hinv).
    exists extra. split; [exact Hl|]. intros Hc. by apply Hinv.
Qed.

Lemma lock_flags_stay_in_sync_witness :
  let rs := [POST_register demo_register;
             POST_remote_lock (RemoteLockRequest.mk "TV1" true);
             GET_check "TV1";
             POST_unlock (UnlockRequest.mk "TV1");
             POST_remote_lock (RemoteLockRequest.mk "TV1" true)] in
  locks_in_sync (db (run demo_env ServerlessHandler rs empty_world).2)
  ∧ locks_in_sync (db (run (faulty_env 29) StandaloneServer rs empty_world).2).
Proof.
  intros rs. split.
  - apply lock_flags_stay_in_sync; [exact lock_invariant_empty | exact no_faults_demo].
  - destruct (lock_flags_stay_in_sync (faulty_env 29) StandaloneServer rs empty_world
                lock_invariant_empty) as [_ (extra & Hl & Hsync)].
    apply Hsync. vm_compute in Hl. subst extra. constructor.
Defined.

(** C8, as stated, fails: registration followed by a set-remote-lock
    whose second write, the update of the device, fails.  Both requests
    are answered with success, the remote lock is locked and the device
    is not: the two flags differ. *)
Lemma lock_flags_differ_after_failed_write :
  let out := run (faulty_env 32) StandaloneServer
               [POST_register demo_register;
                POST_remote_lock (RemoteLockRequest.mk "TV1" true)] empty_world in
  reports_success <$> out.1 = [true; true]
  ∧ log out.2 = ["Error updating device lock"]%string
  ∧ Device.IsLocked <$> devices (db out.2) = [false]
  ∧ RemoteLock.IsLocked <$> remote_locks (db out.2) = [true]
  ∧ ¬ locks_in_sync (db out.2).
Proof.
  intros out. split_and!; [vm_compute; done..|]. intros Hsync.
  unfold locks_in_sync in Hsync.
  destruct (devices (db out.2)) as [|dev devs] eqn:Ed; [vm_compute in Ed; discriminate|].
  destruct (remote_locks (db out.2)) as [|rl rls] eqn:El; [vm_compute in El; discriminate|].
  vm_compute in Ed, El. injection Ed as <- <-. injection El as <- <-.
  specialize (Hsync _ _ (list_elem_of_here _ _) (list_elem_of_here _ _) eq_refl).
  discriminate.
Qed.

(** ** Activation by code *)

Lemma unique_key {A B} (key : A → B) (l : list A) x y :
  NoDup (key <$> l) → x ∈ l → y ∈ l → key x = key y → x = y.
Proof.
  intros Hnd. induction l as [|z l IH]; [by intros ?%elem_of_nil|].
  rewrite fmap_cons in Hnd. apply NoDup_cons in Hnd as [Hz Hnd].
  intros [->|Hx]%elem_of_cons [->|Hy]%elem_of_cons E; try done.
  - exfalso. apply Hz. rewrite E. by apply list_elem_of_fmap_2.
  - exfalso. apply Hz. rewrite <- E. by apply list_elem_of_fmap_2.
  - by apply IH.
Qed.

Lemma head_filter_unique {A} (P : A → Prop) `{!∀ x, Decision (P x)} (l : list A) x :
  x ∈ l → P x → (∀ y, y ∈ l → P y → y = x) → head (filter P l) = Some x.
Proof.
  intros Hx HP Hu. induction l as [|z l IH]; [by apply elem_of_nil in Hx|].
  rewrite filter_cons. destruct (decide (P z)) as [Hz|Hz].
  - cbn. f_equal. apply Hu; [left|done].
  - apply IH.
    + apply elem_of_cons in Hx as [->|Hx]; done.
    + intros y Hy. apply Hu. by right.
Qed.

(** The [SELECT] of [activateDevice] finds the row of an unused code. *)
Lemma unused_code_found d ac :
  wf_db d → ac ∈ activation_codes d → ActivationCode.IsUsed ac = false →
  sql.unused_code (ActivationCode.Code ac) d = Some ac.
Proof.
  intros Hwf Hac Hun. unfold sql.unused_code.
  apply head_filter_unique; [done|done|]. intros y Hy [E _].
  eapply (unique_key ActivationCode.Code); [apply Hwf|done|done|done].
Qed.

(** Once the row is marked, the [SELECT] finds nothing. *)
Lemma unused_code_gone d ac now id :
  wf_db d → ac ∈ activation_codes d →
  sql.unused_code (ActivationCode.Code ac)
    (sql.set_device_active id (sql.mark_code_used now (ActivationCode.ID ac) d)) = None.
Proof.
  intros Hwf Hac. unfold sql.unused_code. apply head_None.
  apply filter_none, Forall_forall. cbn [activation_codes sql.set_device_active
    sql.mark_code_used].
  intros r (r0 & -> & Hr0)%list_elem_of_fmap_1 [E Hun].
  case_decide as Hid; [done|]. apply Hid. f_equal.
  eapply (unique_key ActivationCode.Code); [apply Hwf|done|done|done].
Qed.

Section activation.
Context (env : Env) (Hnf : no_faults env).

Lemma Main_termsWithDates_ok id w :
  Main.termsWithDates env id w
  = (Main.match_terms (Main.term_numbers_of id (db w)) (sql.lock_dates_of id (db w)) 0 [],
     tick (tick w)).
Proof.
  unfold Main.termsWithDates. by rewrite bind_db_Query, Hnf, bind_db_Query, Hnf.
Qed.

Lemma Handler_termsWithDates_ok id w :
  Handler.termsWithDates env id w
  = (Handler.match_lock_dates (sql.lock_dates_of id (db w))
       (Handler.sort_termNumbers
          (Handler.range_keys (Handler.codesByTerm (sql.codes_of id (db w)))))
       (Handler.codesByTerm (sql.codes_of id (db w))) 0 [],
     tick (tick w)).
Proof.
  unfold Handler.termsWithDates. by rewrite bind_db_Query, Hnf, bind_db_Query, Hnf.
Qed.

Lemma activateDevice_ok p req w ac :
  sql.unused_code (ActivateRequest.ActivationCode req) (db w) = Some ac →
  ∃ resp,
    serve env p (POST_activate req) w
    = (resp,
       mkWorld (activated (now_at env (S (step w))) ac (db w))
         (S (S (S (S (S (S (step w))))))) (log w))
    ∧ reports_success resp = true.
Proof.
  intros Hac. cbn [serve].
  destruct p; [unfold Main.activateDevice | unfold Handler.activateDevice];
    rewrite bind_db_QueryRow, Hnf, Hac, bind_time_Now; cbn [tick step db log];
    (erewrite bind_db_Exec_ok; [|apply Hnf|reflexivity]); cbn [negb step db log];
    (erewrite bind_db_Exec_ok; [|apply Hnf|reflexivity]); cbn [step db log];
    unfold log_unless; rewrite bind_ret; unfold bind;
    [rewrite Main_termsWithDates_ok | rewrite Handler_termsWithDates_ok];
    cbn [fst snd tick step db log]; eexists; split; reflexivity.
Qed.
End activation.


(** *** The constraints of the schema hold in every reachable store *)

Lemma wf_db_empty : wf_db empty_db.
Proof. unfold wf_db. cbn. split_and!; constructor. Qed.

Lemma Forall_fk_grow {A} (key : A → string) (l : list A) (ids : list string) extra :
  Forall (λ r, key r ∈ ids) l → Forall (λ r, key r ∈ ids ++ extra) l.
Proof. intros H. eapply Forall_impl; [exact H|]. intros r Hr. apply elem_of_app. by left. Qed.

Lemma NoDup_snoc_fmap {A B} (key : A → B) (l : list A) (r : A) :
  NoDup (key <$> l) → key r ∉ key <$> l → NoDup (key <$> (l ++ [r])).
Proof.
  intros Hnd Hr. rewrite fmap_app. apply NoDup_app. split; [done|]. split.
  - intros x Hx [->|[]%elem_of_nil]%elem_of_cons. done.
  - cbn. apply NoDup_singleton.
Qed.

Lemma wf_db_insert_device r d d' :
  sql.insert_device r d = Some d' → wf_db d → wf_db d'.
Proof.
  unfold sql.insert_device. repeat case_decide; try done. intros [= <-].
  intros (W1 & W2 & W3 & W4 & W5 & W6 & W7 & W8 & W9 & W10 & W11 & W12).
  unfold wf_db. cbn [devices activation_codes lock_dates remote_locks].
  split_and!; try done.
  - by apply NoDup_snoc_fmap.
  - by apply NoDup_snoc_fmap.
  - apply Forall_app. split; [done|]. by apply Forall_singleton.
  - rewrite fmap_app. by apply Forall_fk_grow.
  - rewrite fmap_app. by apply Forall_fk_grow.
  - rewrite fmap_app. by apply Forall_fk_grow.
Qed.

Lemma wf_db_insert_activation_code r d d' :
  sql.insert_activation_code r d = Some d' → wf_db d → wf_db d'.
Proof.
  unfold sql.insert_activation_code. repeat case_decide; try done. intros [= <-].
  intros (W1 & W2 & W3 & W4 & W5 & W6 & W7 & W8 & W9 & W10 & W11 & W12).
  unfold wf_db. cbn [devices activation_codes lock_dates remote_locks].
  split_and!; try done.
  - by apply NoDup_snoc_fmap.
  - by apply NoDup_snoc_fmap.
  - by apply (NoDup_snoc_fmap
                (λ x, (ActivationCode.DeviceID x, ActivationCode.TermNumber x))).
  - apply Forall_app. split; [done|]. by apply Forall_singleton.
Qed.

Lemma wf_db_insert_lock_date r d d' :
  sql.insert_lock_date r d = Some d' → wf_db d → wf_db d'.
Proof.
  unfold sql.insert_lock_date. repeat case_decide; try done. intros [= <-].
  intros (W1 & W2 & W3 & W4 & W5 & W6 & W7 & W8 & W9 & W10 & W11 & W12).
  unfold wf_db. cbn [devices activation_codes lock_dates remote_locks].
  split_and!; try done.
  - by apply NoDup_snoc_fmap.
  - apply Forall_app. split; [done|]. by apply Forall_singleton.
Qed.

Lemma wf_db_insert_remote_lock r d d' :
  sql.insert_remote_lock r d = Some d' → wf_db d → wf_db d'.
Proof.
  unfold sql.insert_remote_lock. repeat case_decide; try done. intros [= <-].
  intros (W1 & W2 & W3 & W4 & W5 & W6 & W7 & W8 & W9 & W10 & W11 & W12).
  unfold wf_db. cbn [devices activation_codes lock_dates remote_locks].
  split_and!; try done.
  - by apply NoDup_snoc_fmap.
  - by apply NoDup_snoc_fmap.
  - apply Forall_app. split; [done|]. by apply Forall_singleton.
Qed.

Lemma fmap_key_preserved {A B} (key : A → B) (g : A → A) (l : list A) :
  (∀ r, key (g r) = key r) → key <$> (g <$> l) = key <$> l.
Proof. intros H. rewrite <- list_fmap_compose. apply list_fmap_ext. intros _ r _. apply H. Qed.

(** An [UPDATE] that leaves the keys of the rows alone keeps the
    constraints. *)
Lemma wf_db_update (gd : Device.t → Device.t) (gc : ActivationCode.t → ActivationCode.t)
    (gr : RemoteLock.t → RemoteLock.t) d :
  (∀ r, Device.ID (gd r) = Device.ID r) →
  (∀ r, Device.SerialNumber (gd r) = Device.SerialNumber r) →
  (∀ r, Device.TermDuration (gd r) = Device.TermDuration r) →
  (∀ r, ActivationCode.ID (gc r) = ActivationCode.ID r) →
  (∀ r, ActivationCode.Code (gc r) = ActivationCode.Code r) →
  (∀ r, ActivationCode.DeviceID (gc r) = ActivationCode.DeviceID r) →
  (∀ r, ActivationCode.TermNumber (gc r) = ActivationCode.TermNumber r) →
  (∀ r, RemoteLock.ID (gr r) = RemoteLock.ID r) →
  (∀ r, RemoteLock.DeviceID (gr r) = RemoteLock.DeviceID r) →
  wf_db d →
  wf_db (mkDB (gd <$> devices d) (gc <$> activation_codes d) (lock_dates d)
           (gr <$> remote_locks d)).
Proof.
  intros G1 G2 G3 G4 G5 G6 G7 G8 G9.
  intros (H1 & H2 & H3 & H4 & H5 & H6 & H7 & H8 & H9 & H10 & H11 & H12).
  unfold wf_db. cbn [devices activation_codes lock_dates remote_locks].
  rewrite !(fmap_key_preserved Device.ID gd), (fmap_key_preserved Device.SerialNumber gd),
    (fmap_key_preserved ActivationCode.ID gc), (fmap_key_preserved ActivationCode.Code gc),
    (fmap_key_preserved RemoteLock.ID gr), (fmap_key_preserved RemoteLock.DeviceID gr)
    by done.
  rewrite (fmap_key_preserved
             (λ r, (ActivationCode.DeviceID r, ActivationCode.TermNumber r)) gc)
    by (intros r; by rewrite G6, G7).
  split_and!; try done.
  - apply Forall_fmap. eapply Forall_impl; [exact H3|]. intros r Hr. cbn. by rewrite G3.
  - apply Forall_fmap. eapply Forall_impl; [exact H7|]. intros r Hr. cbn. by rewrite G6.
  - apply Forall_fmap. eapply Forall_impl; [exact H12|]. intros r Hr. cbn. by rewrite G9.
Qed.

Lemma db_eta d :
  d = mkDB (id <$> devices d) (id <$> activation_codes d) (lock_dates d)
        (id <$> remote_locks d).
Proof. destruct d. cbn. by rewrite !list_fmap_id. Qed.

Lemma wf_db_mark_code_used now i d : wf_db d → wf_db (sql.mark_code_used now i d).
Proof.
  intros H. unfold sql.mark_code_used.
  rewrite <- (list_fmap_id (devices d)), <- (list_fmap_id (remote_locks d)).
  apply wf_db_update; try done; intros r; by case_decide.
Qed.

Lemma wf_db_set_device_active i d : wf_db d → wf_db (sql.set_device_active i d).
Proof.
  intros H. unfold sql.set_device_active.
  rewrite <- (list_fmap_id (activation_codes d)), <- (list_fmap_id (remote_locks d)).
  apply wf_db_update; try done; intros r; by case_decide.
Qed.

Lemma wf_db_set_device_locked b i d : wf_db d → wf_db (sql.set_device_locked b i d).
Proof.
  intros H. unfold sql.set_device_locked.
  rewrite <- (list_fmap_id (activation_codes d)), <- (list_fmap_id (remote_locks d)).
  apply wf_db_update; try done; intros r; by case_decide.
Qed.

Lemma wf_db_reset_device i d : wf_db d → wf_db (sql.reset_device i d).
Proof.
  intros H. unfold sql.reset_device.
  rewrite <- (list_fmap_id (activation_codes d)), <- (list_fmap_id (remote_locks d)).
  apply wf_db_update; try done; intros r; by case_decide.
Qed.

Lemma wf_db_set_remote_lock b now now' i d :
  wf_db d → wf_db (sql.set_remote_lock b now now' i d).
Proof.
  intros H. unfold sql.set_remote_lock.
  rewrite <- (list_fmap_id (activation_codes d)), <- (list_fmap_id (devices d)).
  apply wf_db_update; try done; intros r; by case_decide.
Qed.

Section invariants.
Context (env : Env) (Inv : DB → Prop).

Lemma inv_ret {A} (a : A) : hoare (λ d _, Inv d) (ret a) (λ _ d _, Inv d).
Proof. by apply hoare_ret. Qed.

Lemma inv_uuid_New : hoare (λ d _, Inv d) (uuid_New env) (λ _ d _, Inv d).
Proof. intros w Hw. exact Hw. Qed.

Lemma inv_time_Now : hoare (λ d _, Inv d) (time_Now env) (λ _ d _, Inv d).
Proof. intros w Hw. exact Hw. Qed.

Lemma inv_generateActivationCode :
  hoare (λ d _, Inv d) (generateActivationCode env) (λ _ d _, Inv d).
Proof. intros w Hw. exact Hw. Qed.

Lemma inv_db_QueryRow {A} (q : DB → option A) :
  hoare (λ d _, Inv d) (db_QueryRow env q) (λ _ d _, Inv d).
Proof. intros w Hw. exact Hw. Qed.

Lemma inv_db_Query {A} (q : DB → list A) :
  hoare (λ d _, Inv d) (db_Query env q) (λ _ d _, Inv d).
Proof. intros w Hw. exact Hw. Qed.

Lemma inv_log_Printf line : hoare (λ d _, Inv d) (log_Printf line) (λ _ d _, Inv d).
Proof. intros w Hw. exact Hw. Qed.

Lemma inv_log_unless ok line :
  hoare (λ d _, Inv d) (log_unless ok line) (λ _ d _, Inv d).
Proof. intros w Hw. by destruct ok. Qed.

Lemma inv_db_Exec stmt :
  (∀ now d d', stmt now d = Some d' → Inv d → Inv d') →
  hoare (λ d _, Inv d) (db_Exec env stmt) (λ _ d _, Inv d).
Proof.
  intros Hs w Hw. unfold db_Exec. destruct (fault_at env (step w)); [done|].
  destruct (stmt _ _) eqn:E; cbn; eauto.
Qed.

Lemma inv_bind {A B} (m : M A) (k : A → M B) :
  hoare (λ d _, Inv d) m (λ _ d _, Inv d) →
  (∀ a, hoare (λ d _, Inv d) (k a) (λ _ d _, Inv d)) →
  hoare (λ d _, Inv d) (bind m k) (λ _ d _, Inv d).
Proof. intros Hm Hk. eapply hoare_bind; [exact Hm|]. exact Hk. Qed.
End invariants.

(** A handler keeps [Inv] when each of its statements does: the handler
    is walked through, statement by statement and branch by branch;
    [tac] is to show that a statement keeps [Inv]. *)
Ltac hinv env tac :=
  repeat first
    [ apply inv_ret
    | apply (inv_uuid_New env) | apply (inv_time_Now env)
    | apply (inv_generateActivationCode env)
    | apply (inv_db_QueryRow env) | apply (inv_db_Query env)
    | apply inv_log_Printf | apply inv_log_unless
    | apply (inv_db_Exec env); intros ? ? ?; tac
    | apply inv_bind; [|intros ?]
    | match goal with
      | |- hoare _ (match ?x with _ => _ end) _ => destruct x
      end ].

Section wf_handlers.
Context (env : Env).

Ltac wf_stmt :=
  first [ apply wf_db_insert_device | apply wf_db_insert_activation_code
        | apply wf_db_insert_lock_date | apply wf_db_insert_remote_lock
        | intros [= <-];
          first [ apply wf_db_mark_code_used | apply wf_db_set_device_active
                | apply wf_db_set_device_locked | apply wf_db_reset_device
                | apply wf_db_set_remote_lock ] ].

Lemma wf_db_registerDevice_loop deviceID lockDates n : ∀ i acc,
  hoare (λ d _, wf_db d) (registerDevice_loop env n i deviceID lockDates acc)
    (λ _ d _, wf_db d).
Proof.
  induction n as [|n IH]; intros i acc; cbn [registerDevice_loop];
    hinv env wf_stmt. apply IH.
Qed.

Lemma wf_db_serve p r : hoare (λ d _, wf_db d) (serve env p r) (λ _ d _, wf_db d).
Proof.
  destruct r, p; cbn [serve];
    unfold registerDevice, Main.activateDevice, Handler.activateDevice,
      Main.checkActivation, Handler.checkActivation, setRemoteLock, checkRemoteLock,
      unlockDevice, healthCheck, Main.termsWithDates, Handler.termsWithDates;
    hinv env wf_stmt.
  all: apply wf_db_registerDevice_loop.
Qed.

Lemma wf_db_run p rs : hoare (λ d _, wf_db d) (run env p rs) (λ _ d _, wf_db d).
Proof.
  induction rs as [|r rs IH]; cbn [run]; [by apply hoare_ret|].
  eapply hoare_bind; [apply wf_db_serve|]. intros resp.
  eapply hoare_bind; [apply IH|]. intros resps. by apply hoare_ret.
Qed.
End wf_handlers.

(** *** A used code stays used *)

Lemma code_used_ext code d d' :
  activation_codes d' = activation_codes d → code_used code d → code_used code d'.
Proof. unfold code_used. by intros ->. Qed.

Lemma code_used_insert code r d d' :
  sql.insert_activation_code r d = Some d' → code_used code d → code_used code d'.
Proof.
  intros ->%insert_activation_code_inv (r0 & Hr0 & Hc & Hu). exists r0.
  split; [|done]. cbn. apply elem_of_app. by left.
Qed.

Lemma code_used_mark code now i d :
  code_used code d → code_used code (sql.mark_code_used now i d).
Proof.
  intros (r0 & Hr0 & Hc & Hu).
  exists (if decide (ActivationCode.ID r0 = i) then ActivationCode.set_used now r0 else r0).
  split; [|by case_decide].
  cbn. apply list_elem_of_fmap. by exists r0.
Qed.

Lemma unused_code_None code d :
  wf_db d → code_used code d → sql.unused_code code d = None.
Proof.
  intros Hwf (r0 & Hr0 & Hc & Hu). unfold sql.unused_code. apply head_None.
  apply filter_none, Forall_forall. intros r Hr [E Hun].
  assert (r = r0) as ->; [|congruence].
  eapply (unique_key ActivationCode.Code); [apply Hwf|done|done|congruence].
Qed.

Section used_handlers.
Context (env : Env) (code : string).

Ltac used_stmt :=
  first
    [ intros Hs [Hw Hu]; split;
      [ first [ exact (wf_db_insert_device _ _ _ Hs Hw)
              | exact (wf_db_insert_activation_code _ _ _ Hs Hw)
              | exact (wf_db_insert_lock_date _ _ _ Hs Hw)
              | exact (wf_db_insert_remote_lock _ _ _ Hs Hw) ]
      | first [ exact (code_used_insert _ _ _ _ Hs Hu)
              | apply insert_device_inv in Hs as [_ ->]; by eapply code_used_ext
              | apply insert_lock_date_inv in Hs as ->; by eapply code_used_ext
              | apply insert_remote_lock_inv in Hs as [_ ->]; by eapply code_used_ext ] ]
    | intros [= <-] [Hw Hu]; split;
      [ first [ by apply wf_db_mark_code_used | by apply wf_db_set_device_active
              | by apply wf_db_set_device_locked | by apply wf_db_reset_device
              | by apply wf_db_set_remote_lock ]
      | first [ by apply code_used_mark | by eapply code_used_ext ] ] ].

Lemma code_used_registerDevice_loop deviceID lockDates n : ∀ i acc,
  hoare (λ d _, wf_db d ∧ code_used code d)
    (registerDevice_loop env n i deviceID lockDates acc)
    (λ _ d _, wf_db d ∧ code_used code d).
Proof.
  induction n as [|n IH]; intros i acc; cbn [registerDevice_loop];
    hinv env used_stmt. apply IH.
Qed.

Lemma code_used_serve p r :
  hoare (λ d _, wf_db d ∧ code_used code d) (serve env p r)
    (λ _ d _, wf_db d ∧ code_used code d).
Proof.
  destruct r, p; cbn [serve];
    unfold registerDevice, Main.activateDevice, Handler.activateDevice,
      Main.checkActivation, Handler.checkActivation, setRemoteLock, checkRemoteLock,
      unlockDevice, healthCheck, Main.termsWithDates, Handler.termsWithDates;
    hinv env used_stmt.
  all: apply code_used_registerDevice_loop.
Qed.

Lemma code_used_run p rs :
  hoare (λ d _, wf_db d ∧ code_used code d) (run env p rs)
    (λ _ d _, wf_db d ∧ code_used code d).
Proof.
  induction rs as [|r rs IH]; cbn [run]; [by apply hoare_ret|].
  eapply hoare_bind; [apply code_used_serve|]. intros resp.
  eapply hoare_bind; [apply IH|]. intros resps. by apply hoare_ret.
Qed.

(** A used code is refused, whatever the store answers. *)
Lemma used_code_refused p w :
  wf_db (db w) → code_used code (db w) →
  (serve env p (POST_activate (ActivateRequest.mk code)) w).1
  = Error "Invalid or already used activation code" StatusBadRequest.
Proof.
  intros Hwf Hused. cbn [serve].
  destruct p; [unfold Main.activateDevice | unfold Handler.activateDevice];
    rewrite bind_db_QueryRow; cbn [ActivateRequest.ActivationCode];
    rewrite unused_code_None by done; by destruct (fault_at _ _).
Qed.
End used_handlers.

(** C4.  Activation with a code that is in the store and unused succeeds
    when no store call fails: it marks the row of this code as used, and
    no other row, and the device that owns the code is active afterwards.
    A second activation with the same code is refused with 400 and
    leaves the store as it is, so the device is still active.  The mark
    is never taken back: after any further requests, to either program
    and whatever store calls fail, the code is refused again. *)
Theorem activation_code_is_used_once env p ac w :
  no_faults env →
  wf_db (db w) →
  ac ∈ activation_codes (db w) →
  ActivationCode.IsUsed ac = false →
  let req := ActivateRequest.mk (ActivationCode.Code ac) in
  ∃ resp1 w1 now w2,
    serve env p (POST_activate req) w = (resp1, w1)
    ∧ reports_success resp1 = true
    ∧ activation_codes (db w1)
      = (λ r, if decide (ActivationCode.ID r = ActivationCode.ID ac)
              then ActivationCode.set_used now r else r)
          <$> activation_codes (db w)
    ∧ (∀ r, r ∈ activation_codes (db w) →
            ActivationCode.ID r = ActivationCode.ID ac → r = ac)
    ∧ (∃ dev, dev ∈ devices (db w1) ∧ Device.ID dev = ActivationCode.DeviceID ac)
    ∧ (∀ dev, dev ∈ devices (db w1) → Device.ID dev = ActivationCode.DeviceID ac →
              Device.IsActive dev = true)
    ∧ serve env p (POST_activate req) w1
      = (Error "Invalid or already used activation code" StatusBadRequest, w2)
    ∧ db w2 = db w1
    ∧ (∀ env' p' rs,
         (serve env' p' (POST_activate req) (run env' p' rs w1).2).1
         = Error "Invalid or already used activation code" StatusBadRequest).
Proof.
  intros Hnf Hwf Hac Hun req.
  destruct (activateDevice_ok env Hnf p req w ac (unused_code_found _ _ Hwf Hac Hun))
    as (resp1 & E1 & Hok).
  eexists resp1, _, (now_at env (S (step w))), _.
  split; [exact E1|]. split; [exact Hok|]. cbn [db].
  split; [reflexivity|]. split.
  { intros r Hr E. eapply (unique_key ActivationCode.ID); [apply Hwf|done|done|done]. }
  split.
  { destruct Hwf as (_ & _ & _ & _ & _ & _ & Hfk & _).
    rewrite Forall_forall in Hfk.
    apply Hfk, list_elem_of_fmap_1 in Hac as (dev0 & E & Hdev0).
    eexists. split.
    - unfold activated, sql.set_device_active. cbn [devices sql.mark_code_used].
      apply list_elem_of_fmap_2. exact Hdev0.
    - rewrite decide_True by done. by rewrite E. }
  split.
  { unfold activated, sql.set_device_active. cbn [devices sql.mark_code_used].
    intros dev (dev0 & -> & Hdev0)%list_elem_of_fmap_1.
    case_decide as Hid; [done|]. intros E. by destruct Hid. }
  cbn [serve].
  assert (E2 : ∀ (k1 k2 : ActivateRequest.t → M Response) w',
             db w' = activated (now_at env (S (step w))) ac (db w) →
             k1 = Main.activateDevice env → k2 = Handler.activateDevice env →
             match p with StandaloneServer => k1 req | ServerlessHandler => k2 req end w'
             = (Error "Invalid or already used activation code" StatusBadRequest, tick w')).
  { intros k1 k2 w' Hw' -> ->.
    destruct p; [unfold Main.activateDevice | unfold Handler.activateDevice];
      rewrite bind_db_QueryRow, Hnf, Hw'; unfold activated;
      cbn [req ActivateRequest.ActivationCode]; by rewrite unused_code_gone. }
  split; [by apply E2|]. split; [reflexivity|].
  intros env' p' rs.
  assert (Hinv1 : wf_db (db w) ∧ code_used (ActivationCode.Code ac)
                                   (activated (now_at env (S (step w))) ac (db w))).
  { split; [done|]. exists (ActivationCode.set_used (now_at env (S (step w))) ac).
    split; [|done]. unfold activated. cbn [activation_codes sql.set_device_active
      sql.mark_code_used]. apply list_elem_of_fmap. exists ac. by rewrite decide_True. }
  destruct Hinv1 as [_ Hused1].
  assert (Hwf1 : wf_db (activated (now_at env (S (step w))) ac (db w)))
    by by apply wf_db_set_device_active, wf_db_mark_code_used.
  destruct (code_used_run env' (ActivationCode.Code ac) p' rs
              (mkWorld (activated (now_at env (S (step w))) ac (db w))
                 (S (S (S (S (S (S (step w))))))) (log w)) (conj Hwf1 Hused1))
    as [Hwf' Hused'].
  by apply used_code_refused.
Qed.

Lemma activation_code_is_used_once_witness :
  ∃ resp1 w1 w2,
    serve demo_env StandaloneServer (POST_activate (ActivateRequest.mk "00000004"))
      demo_world = (resp1, w1)
    ∧ reports_success resp1 = true
    ∧ (∀ dev, dev ∈ devices (db w1) →
              Device.ID dev = "00000001-0000-4000-8000-000000000000"%string →
              Device.IsActive dev = true)
    ∧ serve demo_env StandaloneServer (POST_activate (ActivateRequest.mk "00000004")) w1
      = (Error "Invalid or already used activation code" 400, w2)
    ∧ db w2 = db w1.
Proof.
  destruct (activation_code_is_used_once demo_env StandaloneServer demo_code demo_world)
    as (resp1 & w1 & now & w2 & E1 & Hok & _ & _ & _ & Hact & E2 & Hdb & _).
  - exact no_faults_demo.
  - apply (bool_decide_unpack _). vm_compute. exact I.
  - apply (list_elem_of_lookup_2 _ 0%nat). vm_compute. reflexivity.
  - reflexivity.
  - exists resp1, w1, w2. split_and!; [exact E1 | exact Hok | exact Hact | exact E2 | exact Hdb].
Defined.

(** ** The terms of a device *)

Lemma sweep_length x l : length (sweep x l).2 = length l.
Proof.
  revert x. induction l as [|y l IH]; intros x; [done|]. cbn [sweep].
  case_bool_decide; cbn; by rewrite IH.
Qed.

Lemma sweep_perm x l : (sweep x l).1 :: (sweep x l).2 ≡ₚ x :: l.
Proof.
  revert x. induction l as [|y l IH]; intros x; [done|]. cbn [sweep].
  case_bool_decide; cbn [fst snd].
  - etrans; [apply Permutation_swap|]. constructor. apply IH.
  - etrans; [apply Permutation_swap|]. etrans; [|apply Permutation_swap].
    constructor. apply IH.
Qed.

Lemma sweep_least x l : (sweep x l).1 ≤ x ∧ Forall (λ y, (sweep x l).1 ≤ y) (sweep x l).2.
Proof.
  revert x. induction l as [|y l IH]; intros x; [by split; [|constructor]|]. cbn [sweep].
  case_bool_decide; cbn [fst snd].
  - destruct (IH y) as [H1 H2]. split; [lia|]. constructor; [lia|done].
  - destruct (IH x) as [H1 H2]. split; [done|]. constructor; [lia|done].
Qed.

Lemma sweep_sort_perm n l : sweep_sort n l ≡ₚ l.
Proof.
  revert l. induction n as [|n IH]; intros [|x l]; try done. cbn [sweep_sort].
  rewrite IH. apply sweep_perm.
Qed.

Lemma sweep_sort_sorted n l : (length l ≤ S n)%nat → StronglySorted Z.le (sweep_sort n l).
Proof.
  revert l. induction n as [|n IH]; intros [|x l] Hn; cbn in Hn; cbn [sweep_sort].
  - constructor.
  - destruct l; [repeat constructor | cbn in Hn; lia].
  - constructor.
  - constructor.
    + apply IH. rewrite sweep_length. lia.
    + rewrite sweep_sort_perm. apply sweep_least.
Qed.

Lemma swap_if_greater_middle pre x mid y post :
  Handler.swap_if_greater (length pre) (length pre + S (length mid))
    (pre ++ x :: mid ++ y :: post)
  = if bool_decide (x > y) then pre ++ y :: mid ++ x :: post
    else pre ++ x :: mid ++ y :: post.
Proof.
  unfold Handler.swap_if_greater.
  rewrite list_lookup_middle by done.
  replace (pre ++ x :: mid ++ y :: post) with ((pre ++ x :: mid) ++ y :: post)
    by by rewrite <- app_assoc.
  rewrite (list_lookup_middle (pre ++ x :: mid)) by (rewrite length_app; cbn; lia).
  case_bool_decide; [|done].
  rewrite <- app_assoc. cbn [app].
  rewrite (insert_app_r_alt pre) by lia. rewrite Nat.sub_diag.
  change (<[0%nat:=y]> (x :: mid ++ y :: post)) with (y :: mid ++ y :: post).
  replace (pre ++ y :: mid ++ y :: post) with ((pre ++ y :: mid) ++ y :: post)
    by by rewrite <- app_assoc.
  rewrite (insert_app_r_alt (pre ++ y :: mid)) by (rewrite length_app; cbn; lia).
  replace (length pre + S (length mid) - length (pre ++ y :: mid))%nat with 0%nat
    by (rewrite length_app; cbn; lia).
  change (<[0%nat:=x]> (y :: post)) with (x :: post). by rewrite <- app_assoc.
Qed.

Lemma sort_inner_sweep pre todo : ∀ x mid,
  Handler.sort_inner (length todo) (length pre) (length pre + S (length mid))
    (pre ++ x :: mid ++ todo)
  = pre ++ (sweep x todo).1 :: mid ++ (sweep x todo).2.
Proof.
  induction todo as [|y todo IH]; intros x mid; [done|].
  cbn [length Handler.sort_inner sweep]. rewrite swap_if_greater_middle.
  case_bool_decide; cbn [fst snd].
  - specialize (IH y (mid ++ [x])). rewrite length_app in IH. cbn [length] in IH.
    replace (S (length pre + S (length mid))) with (length pre + S (length mid + 1))%nat
      by lia.
    rewrite <- !app_assoc in IH. cbn [app] in IH. exact IH.
  - specialize (IH x (mid ++ [y])). rewrite length_app in IH. cbn [length] in IH.
    replace (S (length pre + S (length mid))) with (length pre + S (length mid + 1))%nat
      by lia.
    rewrite <- !app_assoc in IH. cbn [app] in IH. exact IH.
Qed.

Lemma sort_outer_sweep_sort n : ∀ pre rest,
  (length rest = S n ∨ (n = 0%nat ∧ rest = [])) →
  Handler.sort_outer n (length pre) (pre ++ rest) = pre ++ sweep_sort n rest.
Proof.
  induction n as [|n IH]; intros pre rest Hn.
  - cbn. by destruct rest.
  - destruct Hn as [Hn|[? _]]; [|done]. destruct rest as [|x rest]; [done|].
    cbn [Handler.sort_outer sweep_sort]. cbn in Hn.
    replace (length (pre ++ x :: rest) - (length pre + 1))%nat with (length rest)
      by (rewrite length_app; cbn; lia).
    pose proof (sort_inner_sweep pre rest x []) as E. cbn [app length] in E.
    rewrite E.
    specialize (IH (pre ++ [(sweep x rest).1]) (sweep x rest).2).
    rewrite length_app in IH. cbn [length] in IH.
    replace (S (length pre)) with (length pre + 1)%nat by lia.
    rewrite <- !app_assoc in IH. cbn [app] in IH. apply IH.
    left. rewrite sweep_length. lia.
Qed.

(** "Sort term numbers" sorts, and keeps the numbers. *)
Lemma sort_termNumbers_spec l :
  Handler.sort_termNumbers l ≡ₚ l ∧ StronglySorted Z.le (Handler.sort_termNumbers l).
Proof.
  unfold Handler.sort_termNumbers.
  pose proof (sort_outer_sweep_sort (length l - 1) [] l) as E. cbn [app length] in E.
  rewrite E.
  - split; [apply sweep_sort_perm|].
    destruct l as [|x l]; [constructor|]. cbn [length].
    replace (S (length l) - 1)%nat with (length l) by lia.
    apply sweep_sort_sorted. cbn. lia.
  - destruct l; [by right | left; cbn; lia].
Qed.

Lemma codesByTerm_list_to_map rows :
  Handler.codesByTerm rows = list_to_map (reverse rows).
Proof.
  unfold Handler.codesByTerm. rewrite <- (reverse_involutive rows) at 1.
  generalize (reverse rows). intros l. induction l as [|[t c] l IH]; [done|].
  rewrite reverse_cons, foldl_app. cbn. by rewrite IH.
Qed.

Lemma range_keys_perm rows :
  NoDup rows.*1 → Handler.range_keys (Handler.codesByTerm rows) ≡ₚ rows.*1.
Proof.
  intros Hnd. unfold Handler.range_keys. rewrite codesByTerm_list_to_map.
  rewrite map_to_list_to_map.
  - by rewrite fmap_reverse, reverse_Permutation.
  - by rewrite fmap_reverse, reverse_Permutation.
Qed.

Lemma codesByTerm_lookup rows t c :
  NoDup rows.*1 → (t, c) ∈ rows → Handler.codesByTerm rows !! t = Some c.
Proof.
  intros Hnd Hin. rewrite codesByTerm_list_to_map. apply elem_of_list_to_map_1.
  - by rewrite fmap_reverse, reverse_Permutation.
  - by apply elem_of_reverse.
Qed.

Lemma match_lock_dates_zip lockRows termNumbers codes : ∀ termIndex acc,
  Handler.match_lock_dates lockRows termNumbers codes termIndex acc
  = acc ++ zip_with (λ t ld, TermWithLockDateAndCode.mk t (time.Format ld)
                               (default ""%string (codes !! t)))
             (drop termIndex termNumbers) lockRows.
Proof.
  induction lockRows as [|ld lockRows IH]; intros k acc; cbn [Handler.match_lock_dates].
  - by rewrite zip_with_nil_r, app_nil_r.
  - destruct (termNumbers !! k) as [t|] eqn:E.
    + rewrite IH, <- app_assoc. f_equal. by rewrite (drop_S _ _ _ E).
    + rewrite IH. f_equal. apply lookup_ge_None in E. by rewrite !drop_ge by lia.
Qed.

Lemma zip_with_lookup_codes rows lockRows (codes : gmap Z string) :
  (∀ t c, (t, c) ∈ rows → codes !! t = Some c) →
  zip_with (λ t ld, TermWithLockDateAndCode.mk t (time.Format ld)
                      (default ""%string (codes !! t))) rows.*1 lockRows
  = paired_terms rows lockRows.
Proof.
  unfold paired_terms. revert lockRows.
  induction rows as [|[t c] rows IH]; intros [|ld lockRows] H; try done.
  cbn. rewrite (H t c) by left. cbn. f_equal. apply IH. intros t' c' Hin. apply H. by right.
Qed.

#[global] Instance by_term_number_total : Total sql.by_term_number.
Proof. intros x y. unfold sql.by_term_number. lia. Qed.

#[global] Instance by_term_number_trans : Transitive sql.by_term_number.
Proof. intros x y z. unfold sql.by_term_number. lia. Qed.

(** The block that assembles the terms in package [handler]: sorted rows
    of codes with distinct term numbers are paired with the lock dates in
    order. *)
Lemma Handler_terms_paired rows lockRows :
  NoDup rows.*1 → StronglySorted sql.by_term_number rows →
  Handler.match_lock_dates lockRows
    (Handler.sort_termNumbers (Handler.range_keys (Handler.codesByTerm rows)))
    (Handler.codesByTerm rows) 0 []
  = paired_terms rows lockRows.
Proof.
  intros Hnd Hsorted. rewrite match_lock_dates_zip. cbn [app drop].
  assert (Handler.sort_termNumbers (Handler.range_keys (Handler.codesByTerm rows))
          = rows.*1) as ->.
  { destruct (sort_termNumbers_spec (Handler.range_keys (Handler.codesByTerm rows)))
      as [Hperm Hs].
    apply (StronglySorted_unique Z.le); [done| |by rewrite Hperm, range_keys_perm].
    apply (StronglySorted_fmap fst sql.by_term_number Z.le); [|done].
    intros x y. done. }
  apply zip_with_lookup_codes. intros t c. by apply codesByTerm_lookup.
Qed.

Lemma filter_fmap_preserved {A} (P : A → Prop) `{!∀ x, Decision (P x)} (g : A → A)
    (l : list A) :
  (∀ x, P (g x) ↔ P x) → filter P (g <$> l) = g <$> filter P l.
Proof.
  intros Hg. induction l as [|x l IH]; [done|]. rewrite fmap_cons, !filter_cons.
  destruct (decide (P x)) as [Hx|Hx].
  - rewrite decide_True by by apply Hg. rewrite fmap_cons. by f_equal.
  - rewrite decide_False by by rewrite Hg. done.
Qed.

Lemma codes_of_activated id now ac d :
  sql.codes_of id (activated now ac d) = sql.codes_of id d.
Proof.
  unfold sql.codes_of, activated. f_equal.
  cbn [activation_codes sql.set_device_active sql.mark_code_used].
  rewrite (filter_fmap_preserved (λ r, ActivationCode.DeviceID r = id))
    by (intros r; by case_decide).
  rewrite <- list_fmap_compose. apply list_fmap_ext. intros _ r _. cbn. by case_decide.
Qed.

Lemma term_numbers_NoDup id (l : list ActivationCode.t) :
  NoDup ((λ r, (ActivationCode.DeviceID r, ActivationCode.TermNumber r)) <$> l) →
  NoDup (ActivationCode.TermNumber <$> filter (λ r, ActivationCode.DeviceID r = id) l).
Proof.
  induction l as [|x l IH]; [intros _; constructor|].
  rewrite fmap_cons. intros [Hx Hnd]%NoDup_cons. rewrite filter_cons.
  case_decide as E; [|by apply IH]. rewrite fmap_cons. apply NoDup_cons. split; [|by apply IH].
  intros (y & Ey & [Hy1 Hy2]%list_elem_of_filter)%list_elem_of_fmap_1. apply Hx.
  apply list_elem_of_fmap. exists y. split; [|done]. by rewrite Ey, E, Hy1.
Qed.

Lemma codes_of_sorted id d :
  wf_db d →
  StronglySorted sql.by_term_number (sql.codes_of id d) ∧ NoDup (sql.codes_of id d).*1.
Proof.
  intros Hwf. unfold sql.codes_of. split; [apply StronglySorted_merge_sort; apply _|].
  rewrite merge_sort_Permutation, <- list_fmap_compose.
  apply (term_numbers_NoDup id), Hwf.
Qed.

Lemma paired_terms_full codeRows lockDates :
  length lockDates = length codeRows →
  (λ t, (TermWithLockDateAndCode.Term t, TermWithLockDateAndCode.ActivationCode t))
    <$> paired_terms codeRows lockDates = codeRows
  ∧ TermWithLockDateAndCode.LockDate <$> paired_terms codeRows lockDates
    = time.Format <$> lockDates.
Proof.
  unfold paired_terms. revert lockDates.
  induction codeRows as [|[t c] rows IH]; intros [|ld lds] Hlen; try done.
  cbn in Hlen. destruct (IH lds ltac:(lia)) as [E1 E2]. cbn. by rewrite E1, E2.
Qed.

Lemma match_terms_zip lockDates termRows : ∀ termIndex acc,
  Main.match_terms termRows lockDates termIndex acc
  = acc ++ paired_dates termRows (drop termIndex lockDates).
Proof.
  unfold paired_dates.
  induction termRows as [|t termRows IH]; intros k acc; cbn [Main.match_terms].
  - by rewrite app_nil_r.
  - destruct (lockDates !! k) as [ld|] eqn:E.
    + rewrite IH, <- app_assoc. f_equal. by rewrite (drop_S _ _ _ E).
    + rewrite IH. f_equal. apply lookup_ge_None in E. rewrite !drop_ge by lia.
      by rewrite !zip_with_nil_r.
Qed.

(** The two programs read the term numbers of a device in the same order. *)
Lemma term_numbers_of_codes id d : Main.term_numbers_of id d = (sql.codes_of id d).*1.
Proof.
  unfold Main.term_numbers_of, sql.codes_of.
  apply (StronglySorted_unique Z.le).
  - apply StronglySorted_merge_sort; apply _.
  - apply (StronglySorted_fmap fst sql.by_term_number Z.le); [by intros x y|].
    apply StronglySorted_merge_sort; apply _.
  - rewrite !merge_sort_Permutation. by rewrite <- list_fmap_compose.
Qed.

Lemma paired_dates_full termRows lockDates :
  length lockDates = length termRows →
  TermWithLockDate.Term <$> paired_dates termRows lockDates = termRows
  ∧ TermWithLockDate.LockDate <$> paired_dates termRows lockDates
    = time.Format <$> lockDates.
Proof.
  unfold paired_dates. revert lockDates.
  induction termRows as [|t rows IH]; intros [|ld lds] Hlen; try done.
  cbn in Hlen. destruct (IH lds ltac:(lia)) as [E1 E2]. cbn. by rewrite E1, E2.
Qed.

(** C9, as amended.  A successful activation with an unused code answers
    with the terms of the device in ascending order of term number, the
    n-th of them paired with the n-th lock date in ascending order of
    date: package [handler] answers with (term, lock date, activation
    code) tuples, [main.go] with the same (term, lock date) pairs and no
    code.  The rows that are paired are all the codes and all the lock
    dates of the device, each once; when the device has as many lock
    dates as codes, every one of them is in the answer. *)
Theorem activation_response_pairs_terms env ac w :
  no_faults env →
  wf_db (db w) →
  ac ∈ activation_codes (db w) →
  ActivationCode.IsUsed ac = false →
  let req := ActivateRequest.mk (ActivationCode.Code ac) in
  let codeRows := sql.codes_of (ActivationCode.DeviceID ac) (db w) in
  let lockDates := sql.lock_dates_of (ActivationCode.DeviceID ac) (db w) in
  let terms := paired_terms codeRows lockDates in
  (∃ w1, serve env ServerlessHandler (POST_activate req) w
         = (ActivationResponseWithCode true "Device activated successfully" terms, w1))
  ∧ (∃ w1, serve env StandaloneServer (POST_activate req) w
           = (ActivationResponse true "Device activated successfully"
                (paired_dates codeRows.*1 lockDates), w1))
  ∧ StronglySorted sql.by_term_number codeRows
  ∧ NoDup codeRows.*1
  ∧ codeRows ≡ₚ (λ r, (ActivationCode.TermNumber r, ActivationCode.Code r))
                  <$> filter (λ r, ActivationCode.DeviceID r = ActivationCode.DeviceID ac)
                        (activation_codes (db w))
  ∧ StronglySorted Z.le lockDates
  ∧ lockDates ≡ₚ LockDate.LockDate
                   <$> filter (λ r, LockDate.DeviceID r = ActivationCode.DeviceID ac)
                         (lock_dates (db w))
  ∧ (length lockDates = length codeRows →
     (λ t, (TermWithLockDateAndCode.Term t, TermWithLockDateAndCode.ActivationCode t))
       <$> terms = codeRows
     ∧ TermWithLockDateAndCode.LockDate <$> terms = time.Format <$> lockDates
     ∧ TermWithLockDate.Term <$> paired_dates codeRows.*1 lockDates = codeRows.*1
     ∧ TermWithLockDate.LockDate <$> paired_dates codeRows.*1 lockDates
       = time.Format <$> lockDates).
Proof.
  intros Hnf Hwf Hac Hun req codeRows lockDates terms.
  destruct (codes_of_sorted (ActivationCode.DeviceID ac) (db w) Hwf) as [Hs Hnd].
  split_and!.
  - cbn [serve]. unfold Handler.activateDevice.
    rewrite bind_db_QueryRow, Hnf. cbn [req ActivateRequest.ActivationCode].
    rewrite (unused_code_found _ _ Hwf Hac Hun), bind_time_Now. cbn [tick step db log].
    erewrite bind_db_Exec_ok; [|apply Hnf|reflexivity]. cbn [negb step db log].
    erewrite bind_db_Exec_ok; [|apply Hnf|reflexivity]. cbn [step db log].
    unfold log_unless. rewrite bind_ret. unfold bind.
    rewrite (Handler_termsWithDates_ok env Hnf). cbn [fst snd tick step db log].
    change (sql.set_device_active _ (sql.mark_code_used ?n _ (db w)))
      with (activated n ac (db w)).
    rewrite codes_of_activated, Handler_terms_paired by done.
    eexists. reflexivity.
  - cbn [serve]. unfold Main.activateDevice.
    rewrite bind_db_QueryRow, Hnf. cbn [req ActivateRequest.ActivationCode].
    rewrite (unused_code_found _ _ Hwf Hac Hun), bind_time_Now. cbn [tick step db log].
    erewrite bind_db_Exec_ok; [|apply Hnf|reflexivity]. cbn [negb step db log].
    erewrite bind_db_Exec_ok; [|apply Hnf|reflexivity]. cbn [step db log].
    unfold log_unless. rewrite bind_ret. unfold bind.
    rewrite (Main_termsWithDates_ok env Hnf). cbn [fst snd tick step db log].
    change (sql.set_device_active _ (sql.mark_code_used ?n _ (db w)))
      with (activated n ac (db w)).
    rewrite term_numbers_of_codes, codes_of_activated, match_terms_zip.
    eexists. reflexivity.
  - done.
  - done.
  - apply merge_sort_Permutation.
  - apply StronglySorted_merge_sort; apply _.
  - apply merge_sort_Permutation.
  - intros Hlen. destruct (paired_terms_full codeRows lockDates Hlen) as [E1 E2].
    destruct (paired_dates_full codeRows.*1 lockDates) as [E3 E4];
      [by rewrite length_fmap|]. done.
Qed.

Lemma activation_response_pairs_terms_witness :
  ∃ w1 w1',
    serve demo_env ServerlessHandler (POST_activate (ActivateRequest.mk "00000004"))
      demo_world
    = (ActivationResponseWithCode true "Device activated successfully"
         [TermWithLockDateAndCode.mk 1 "2024-01-16" "00000004";
          TermWithLockDateAndCode.mk 2 "2024-01-31" "00000011";
          TermWithLockDateAndCode.mk 3 "2024-02-15" "00000018"], w1)
    ∧ serve demo_env StandaloneServer (POST_activate (ActivateRequest.mk "00000004"))
        demo_world
      = (ActivationResponse true "Device activated successfully"
           [TermWithLockDate.mk 1 "2024-01-16"; TermWithLockDate.mk 2 "2024-01-31";
            TermWithLockDate.mk 3 "2024-02-15"], w1').
Proof.
  destruct (activation_response_pairs_terms demo_env demo_code demo_world)
    as [[w1 E] [[w1' E'] _]].
  - exact no_faults_demo.
  - apply (bool_decide_unpack _). vm_compute. exact I.
  - apply (list_elem_of_lookup_2 _ 0%nat). vm_compute. reflexivity.
  - reflexivity.
  - exists w1, w1'. split; [exact E | exact E'].
Defined.

(** C9, as stated, fails in [main.go]: the answer to a successful
    activation holds (term, lock date) pairs and no activation code. *)
Lemma standalone_activation_has_no_codes :
  (serve demo_env StandaloneServer (POST_activate (ActivateRequest.mk "00000004"))
     demo_world).1
  = ActivationResponse true "Device activated successfully"
      [TermWithLockDate.mk 1 "2024-01-16"; TermWithLockDate.mk 2 "2024-01-31";
       TermWithLockDate.mk 3 "2024-02-15"]
  ∧ ∀ message terms,
      (serve demo_env StandaloneServer (POST_activate (ActivateRequest.mk "00000004"))
         demo_world).1
      ≠ ActivationResponseWithCode true message terms.
Proof. split; [vm_compute; reflexivity|]. intros message terms. vm_compute. discriminate. Qed.

(** ** Check *)

Lemma codes_of_set_device_active id id' d :
  sql.codes_of id (sql.set_device_active id' d) = sql.codes_of id d.
Proof. done. Qed.

(** C1, as amended.  In package [handler], the check of a device that is
    not active activates it and answers with its terms; a second check
    answers with the same terms and leaves the store as it is.  The
    terms are the codes of the device in ascending order of term number,
    each paired with the lock date at the same place in ascending order
    of date: all of them, when the device has as many lock dates as
    codes.  In [main.go], the check of a device that is not active is
    refused with 403 and changes nothing. *)
Theorem check_activates_on_first_contact env serial dev w :
  no_faults env →
  wf_db (db w) →
  serial ≠ ""%string →
  sql.device_by_serial serial (db w) = Some dev →
  Device.IsActive dev = false →
  let codeRows := sql.codes_of (Device.ID dev) (db w) in
  let lockDates := sql.lock_dates_of (Device.ID dev) (db w) in
  let terms := paired_terms codeRows lockDates in
  ∃ w1 dev1 w2,
    serve env ServerlessHandler (GET_check serial) w
    = (ActivationResponseWithCode true "Device activated successfully" terms, w1)
    ∧ sql.device_by_serial serial (db w1) = Some dev1
    ∧ Device.ID dev1 = Device.ID dev
    ∧ Device.IsActive dev1 = true
    ∧ serve env ServerlessHandler (GET_check serial) w1
      = (ActivationResponseWithCode true "Device activated successfully" terms, w2)
    ∧ db w2 = db w1
    ∧ (length lockDates = length codeRows →
       (λ t, (TermWithLockDateAndCode.Term t, TermWithLockDateAndCode.ActivationCode t))
         <$> terms = codeRows
       ∧ TermWithLockDateAndCode.LockDate <$> terms = time.Format <$> lockDates)
    ∧ serve env StandaloneServer (GET_check serial) w
      = (Error "Device is not activated" StatusForbidden, tick w).
Proof.
  intros Hnf Hwf Hne Hdev Hinactive codeRows lockDates terms.
  destruct (codes_of_sorted (Device.ID dev) (db w) Hwf) as [Hs Hnd].
  assert (Hdev1 : sql.device_by_serial serial (sql.set_device_active (Device.ID dev) (db w))
                  = Some (Device.set_IsActive true dev)).
  { rewrite device_by_serial_set_device_active, Hdev. cbn. by rewrite decide_True. }
  eexists _, (Device.set_IsActive true dev), _. cbn [serve].
  split.
  { unfold Handler.checkActivation. rewrite bool_decide_eq_false_2 by done.
    rewrite bind_db_QueryRow, Hnf, Hdev, Hinactive. cbn [negb tick step db log].
    erewrite bind_db_Exec_ok; [|apply Hnf|reflexivity]. cbn [negb step db log].
    unfold bind. rewrite (Handler_termsWithDates_ok env Hnf). cbn [fst snd tick step db log].
    rewrite codes_of_set_device_active, Handler_terms_paired by done. reflexivity. }
  cbn [db tick]. split; [exact Hdev1|]. split; [done|]. split; [done|].
  split.
  { unfold Handler.checkActivation. rewrite bool_decide_eq_false_2 by done.
    rewrite bind_db_QueryRow, Hnf. cbn [tick step db log]. rewrite Hdev1.
    cbn [Device.IsActive Device.set_IsActive negb Device.ID].
    rewrite bind_ret. cbn [negb].
    unfold bind. rewrite (Handler_termsWithDates_ok env Hnf). cbn [fst snd tick step db log].
    rewrite codes_of_set_device_active, Handler_terms_paired by done. reflexivity. }
  split; [reflexivity|]. split; [apply paired_terms_full|].
  unfold Main.checkActivation. rewrite bool_decide_eq_false_2 by done.
  by rewrite bind_db_QueryRow, Hnf, Hdev, Hinactive.
Qed.

Lemma check_activates_on_first_contact_witness :
  ∃ w1 w2,
    serve demo_env ServerlessHandler (GET_check "TV1") demo_world
    = (ActivationResponseWithCode true "Device activated successfully"
         [TermWithLockDateAndCode.mk 1 "2024-01-16" "00000004";
          TermWithLockDateAndCode.mk 2 "2024-01-31" "00000011";
          TermWithLockDateAndCode.mk 3 "2024-02-15" "00000018"], w1)
    ∧ serve demo_env ServerlessHandler (GET_check "TV1") w1
      = (ActivationResponseWithCode true "Device activated successfully"
           [TermWithLockDateAndCode.mk 1 "2024-01-16" "00000004";
            TermWithLockDateAndCode.mk 2 "2024-01-31" "00000011";
            TermWithLockDateAndCode.mk 3 "2024-02-15" "00000018"], w2).
Proof.
  destruct (sql.device_by_serial "TV1" (db demo_world)) as [dev|] eqn:Hdev;
    [|vm_compute in Hdev; discriminate].
  destruct (check_activates_on_first_contact demo_env "TV1" dev demo_world)
    as (w1 & dev1 & w2 & E1 & _ & _ & _ & E2 & _).
  - exact no_faults_demo.
  - apply (bool_decide_unpack _). vm_compute. exact I.
  - discriminate.
  - exact Hdev.
  - vm_compute in Hdev. injection Hdev as <-. reflexivity.
  - exists w1, w2. vm_compute in Hdev. injection Hdev as <-. split; [exact E1 | exact E2].
Defined.

(** C1, as stated, fails in [main.go]: the check of the registered,
    inactive device of [demo_world] is refused with 403, and the store is
    as before. *)
Lemma standalone_check_rejects_inactive_device :
  (∃ dev, sql.device_by_serial "TV1" (db demo_world) = Some dev
          ∧ Device.IsActive dev = false)
  ∧ (serve demo_env StandaloneServer (GET_check "TV1") demo_world).1
    = Error "Device is not activated" StatusForbidden
  ∧ db (serve demo_env StandaloneServer (GET_check "TV1") demo_world).2 = db demo_world.
Proof. split_and!; [eexists; split|..]; vm_compute; reflexivity. Qed.

(** * Further properties of the code *)

(** ** [calculateLockDates] and [generateActivationCode] *)

(** X1.  On the arguments that [registerDevice] passes, a start date [s]
    that [time.Parse] has read, a duration [d] of 7, 15 or 30 days and a
    number of terms [N] (here of at most a million, so that no date
    leaves the range of [time.Time]), [calculateLockDates s d N] has one
    date per term, none when [N ≤ 0]; the date at index [k] is [s] plus
    [(k + 1) * d] days; the dates are strictly increasing. *)
Theorem calculateLockDates_steps value s d N :
  time.Parse value = Some s →
  d ∈ [7; 15; 30] →
  N ≤ 1000000 →
  length (calculateLockDates s d N) = Z.to_nat N
  ∧ (∀ k : nat, (k < Z.to_nat N)%nat →
       calculateLockDates s d N !! k = Some (s + (Z.of_nat k + 1) * d))
  ∧ (N ≤ 0 → calculateLockDates s d N = [])
  ∧ StronglySorted Z.lt (calculateLockDates s d N).
Proof.
  intros _ Hd _.
  assert (0 < d) as Hpos.
  { rewrite !elem_of_cons, elem_of_nil in Hd. lia. }
  rewrite calculateLockDates_spec. split_and!.
  - by rewrite length_fmap, length_seq.
  - intros k Hk. rewrite list_lookup_fmap, lookup_seq_lt by done. cbn. f_equal. lia.
  - intros HN. by replace (Z.to_nat N) with 0%nat by lia.
  - generalize (Z.to_nat N) as n. intros n.
    apply (StronglySorted_fmap _ lt Z.lt).
    + intros x y Hxy. nia.
    + generalize 0%nat as j. induction n as [|n IH]; intros j; cbn [seq]; constructor.
      * apply IH.
      * apply Forall_forall. intros x [Hx _]%elem_of_seq. lia.
Qed.

Lemma calculateLockDates_steps_witness :
  calculateLockDates 738885 15 3 !! 2%nat = Some 738930
  ∧ StronglySorted Z.lt (calculateLockDates 738885 15 3).
Proof.
  assert (time.Parse "2024-01-01" = Some 738885) as Hparse by (vm_compute; reflexivity).
  assert (15 ∈ [7; 15; 30]) as Hd by (apply (bool_decide_unpack _); vm_compute; exact I).
  assert (3 ≤ 1000000) as HN by lia.
  destruct (calculateLockDates_steps "2024-01-01" 738885 15 3 Hparse Hd HN)
    as (_ & Hk & _ & Hs).
  split; [apply (Hk 2%nat); vm_compute; lia | exact Hs].
Defined.

Lemma length_substring_0 n : ∀ s, (n ≤ String.length s)%nat →
  String.length (String.substring 0 n s) = n.
Proof.
  induction n as [|n IH]; intros [|c s] H; cbn in *; try done; try lia.
  f_equal. apply IH. lia.
Qed.

Lemma prefix_substring_0 n : ∀ s, String.prefix (String.substring 0 n s) s = true.
Proof.
  induction n as [|n IH]; intros [|c s]; cbn; try done.
  destruct (ascii_dec c c); [apply IH|done].
Qed.

(** X2.  When the UUID drawn has at least eight characters (a UUID string
    has 36), the activation code is eight characters long and is the
    beginning of that UUID; the draw is the only interaction. *)
Theorem generateActivationCode_prefix env w :
  (8 ≤ String.length (uuid_at env (step w)))%nat →
  String.length (generateActivationCode env w).1 = 8%nat
  ∧ String.prefix (generateActivationCode env w).1 (uuid_at env (step w)) = true
  ∧ (generateActivationCode env w).2 = tick w.
Proof.
  intros H. unfold generateActivationCode. rewrite bind_uuid_New. cbn.
  split_and!; [by apply length_substring_0 | apply prefix_substring_0 | done].
Qed.

Lemma generateActivationCode_prefix_witness :
  (generateActivationCode demo_env empty_world).1 = "00000000"%string
  ∧ String.length (generateActivationCode demo_env empty_world).1 = 8%nat.
Proof.
  destruct (generateActivationCode_prefix demo_env empty_world) as (H & _ & _).
  - vm_compute. lia.
  - split; [reflexivity | exact H].
Defined.

(** ** The exchange sort of package [handler] *)

(** X3.  "Sort term numbers": the two nested loops return the term
    numbers in ascending order, each as often as before. *)
Theorem sort_termNumbers_sorts termNumbers :
  Handler.sort_termNumbers termNumbers ≡ₚ termNumbers
  ∧ StronglySorted Z.le (Handler.sort_termNumbers termNumbers)
  ∧ length (Handler.sort_termNumbers termNumbers) = length termNumbers.
Proof.
  destruct (sort_termNumbers_spec termNumbers) as [Hperm Hs].
  split_and!; [done | done | by rewrite Hperm].
Qed.

(** ** Error answers *)

(** Walk through a handler: returns are closed by [tac], the first
    action of a [bind] is run with its rule, and the branches are
    split. *)
Ltac hwalk env tac :=
  repeat first
    [ apply hoare_ret; intros ? ? ?; hopen; tac
    | let x := fresh "x" in hstep env as x
    | match goal with
      | |- hoare _ (bind (bind ?m ?f) ?g) _ =>
          change (bind (bind m f) g) with (bind m (λ x, bind (f x) g))
      | |- hoare _ (bind (ret ?a) ?k) _ => change (bind (ret a) k) with (k a); cbn beta
      | |- hoare _ (bind (match ?x with _ => _ end) _) _ => destruct x
      | |- hoare _ (if negb ?b then _ else _) _ => destruct b; cbn [negb]
      | |- hoare _ (match ?x with _ => _ end) _ => destruct x
      end ].

(** Split the assertions that depend on the outcome of a statement. *)
Ltac hcases :=
  repeat (match goal with
          | H : if ?b then _ else _ |- _ => is_var b; destruct b
          end; hopen).

Section error_answers.
Context (env : Env) (d0 : DB) (L : list string).

Ltac answered :=
  hcases; subst; unfold serve_post;
  first [ exact I
        | rewrite decide_True by reflexivity; eauto
        | rewrite decide_False by discriminate;
          unfold StatusBadRequest, StatusForbidden, StatusNotFound, StatusConflict;
          split; [lia | done] ].

Lemma registerDevice_loop_post deviceID lockDates n : ∀ i acc,
  (∀ k : nat, (k < n)%nat → is_Some (lockDates !! Z.to_nat (i - 1 + Z.of_nat k))) →
  hoare (λ _ l, l = L) (registerDevice_loop env n i deviceID lockDates acc)
    (λ r d l, match r with
              | inl resp => ∃ msg line, resp = Error msg StatusInternalServerError
                                        ∧ l = L ++ [line]
              | inr _ => l = L
              end).
Proof.
  induction n as [|n IH]; intros i acc Hld; cbn [registerDevice_loop].
  - by apply hoare_ret.
  - hstep env as code. hstep env as id. hstep env as now. hstep env as ok.
    destruct ok; cbn [negb].
    + destruct (Hld 0%nat ltac:(lia)) as [ld Eld].
      rewrite Z.add_0_r in Eld. rewrite Eld.
      hstep env as id'. hstep env as now'. hstep env as ok'.
      destruct ok'; cbn [negb].
      * eapply hoare_pre; [|apply IH].
        -- intros d l H. by hopen.
        -- intros k Hk. destruct (Hld (S k) ltac:(lia)) as [x Ex]. exists x.
           rewrite <- Ex. f_equal. lia.
      * hstep env as u. hret. subst. eauto.
    + hstep env as u. hret. subst. eauto.
Qed.

Lemma serve_answers p r :
  hoare (λ d l, d = d0 ∧ l = L) (serve env p r) (serve_post d0 L).
Proof.
  destruct r as [req|req|serial|req|serial|req|]; cbn [serve].
  - unfold registerDevice. destruct (_ && _); [hret; answered|].
    destruct (time.Parse _) as [s|]; [|hret; answered].
    hstep env as existing. destruct existing; [hret; answered|].
    hstep env as deviceID. hstep env as now. hstep env as ok. destruct ok; cbn [negb].
    + eapply hoare_bind.
      { eapply hoare_pre; [|apply (registerDevice_loop_post deviceID)].
        - intros d l H. by hopen.
        - intros k Hk. rewrite calculateLockDates_spec, list_lookup_fmap.
          rewrite lookup_seq_lt; [by eexists|]. lia. }
      intros [early|terms].
      * hret. answered.
      * hwalk env answered.
    + hwalk env answered.
  - destruct p; [unfold Main.activateDevice | unfold Handler.activateDevice];
      unfold Main.termsWithDates, Handler.termsWithDates; hwalk env answered.
  - destruct p; [unfold Main.checkActivation | unfold Handler.checkActivation];
      unfold Main.termsWithDates, Handler.termsWithDates;
      (case_bool_decide; [hret; answered|]); hwalk env answered.
  - unfold setRemoteLock. hwalk env answered.
  - unfold checkRemoteLock. case_bool_decide; [hret; answered|]. hwalk env answered.
  - unfold unlockDevice. hwalk env answered.
  - hret. answered.
Qed.
End error_answers.

(** X4.  No handler panics, whatever the request, the store and the
    failures of the store calls: in particular the index [i-1] into
    [lockDates] in the loop of [registerDevice] is always in range. *)
Theorem handlers_never_panic env p r w : (serve env p r w).1 ≠ Panic.
Proof.
  pose proof (serve_answers env (db w) (log w) p r w (conj eq_refl eq_refl)) as H.
  intros E. rewrite E in H. exact H.
Qed.

(** X5.  An error answer with a status other than 500 has a status from
    400 to 499, and the request has changed neither the store nor the
    log: every such answer is given before the first write. *)
Theorem client_errors_change_nothing env p r w msg code :
  (serve env p r w).1 = Error msg code →
  code ≠ StatusInternalServerError →
  400 ≤ code < 500
  ∧ db (serve env p r w).2 = db w
  ∧ log (serve env p r w).2 = log w.
Proof.
  intros E Hcode.
  pose proof (serve_answers env (db w) (log w) p r w (conj eq_refl eq_refl)) as H.
  rewrite E in H. unfold serve_post in H. by rewrite decide_False in H.
Qed.

Lemma client_errors_change_nothing_witness :
  (serve demo_env ServerlessHandler (POST_unlock (UnlockRequest.mk "TV9")) demo_world).1
  = Error "Device not found" 404
  ∧ db (serve demo_env ServerlessHandler (POST_unlock (UnlockRequest.mk "TV9"))
          demo_world).2 = db demo_world.
Proof.
  split; [vm_compute; reflexivity|].
  apply (client_errors_change_nothing demo_env ServerlessHandler
           (POST_unlock (UnlockRequest.mk "TV9")) demo_world "Device not found" 404).
  - vm_compute. reflexivity.
  - discriminate.
Defined.

(** X6.  A request that is answered with status 500 has written one
    line to the log, and no more: the report of the write that failed. *)
Theorem server_errors_are_logged env p r w msg :
  (serve env p r w).1 = Error msg StatusInternalServerError →
  ∃ line, log (serve env p r w).2 = log w ++ [line].
Proof.
  intros E.
  pose proof (serve_answers env (db w) (log w) p r w (conj eq_refl eq_refl)) as H.
  rewrite E in H. unfold serve_post in H. by rewrite decide_True in H.
Qed.

Lemma server_errors_are_logged_witness :
  ∃ line,
    log (serve (faulty_env 3) StandaloneServer (POST_register demo_register)
           empty_world).2 = [] ++ [line].
Proof.
  apply (server_errors_are_logged (faulty_env 3) StandaloneServer
           (POST_register demo_register) empty_world "Failed to register device").
  vm_compute. reflexivity.
Defined.

(** ** Requests that only read *)

Section reads.
Context (env : Env) (d0 : DB) (L : list string).

Ltac unchanged := hcases; subst; done.

Lemma Main_checkActivation_reads serial :
  hoare (λ d l, d = d0 ∧ l = L) (Main.checkActivation env serial)
    (λ _ d l, d = d0 ∧ l = L).
Proof.
  unfold Main.checkActivation, Main.termsWithDates.
  case_bool_decide; [by apply hoare_ret|]. hwalk env unchanged.
Qed.

Lemma checkRemoteLock_reads serial :
  hoare (λ d l, d = d0 ∧ l = L) (checkRemoteLock env serial) (λ _ d l, d = d0 ∧ l = L).
Proof.
  unfold checkRemoteLock. case_bool_decide; [by apply hoare_ret|]. hwalk env unchanged.
Qed.
End reads.

(** X7.  The check of [main.go], check-lock and the health check only
    read: whatever they answer and whatever fails, the store and the log
    are as before. *)
Theorem read_requests_change_nothing env w :
  (∀ serial, db (serve env StandaloneServer (GET_check serial) w).2 = db w
             ∧ log (serve env StandaloneServer (GET_check serial) w).2 = log w)
  ∧ (∀ p serial, db (serve env p (GET_check_lock serial) w).2 = db w
                 ∧ log (serve env p (GET_check_lock serial) w).2 = log w)
  ∧ (∀ p, serve env p GET_health w = (HealthResponse "ok", w)).
Proof.
  split_and!.
  - intros serial.
    apply (Main_checkActivation_reads env (db w) (log w) serial w (conj eq_refl eq_refl)).
  - intros p serial.
    apply (checkRemoteLock_reads env (db w) (log w) serial w (conj eq_refl eq_refl)).
  - done.
Qed.

(** ** What the statements keep *)

Section statements.
Context (env : Env) (Inv : DB → Prop).
Hypothesis Inv_statement : ∀ d d', statement d d' → Inv d → Inv d'.

Ltac by_statement :=
  let Hs := fresh in let Hi := fresh in
  intros Hs Hi; refine (Inv_statement _ _ _ Hi);
  first [ injection Hs as <-; constructor | econstructor; exact Hs ].

Lemma statements_registerDevice_loop deviceID lockDates n : ∀ i acc,
  hoare (λ d _, Inv d) (registerDevice_loop env n i deviceID lockDates acc)
    (λ _ d _, Inv d).
Proof.
  induction n as [|n IH]; intros i acc; cbn [registerDevice_loop];
    hinv env by_statement. apply IH.
Qed.

Lemma statements_serve p r : hoare (λ d _, Inv d) (serve env p r) (λ _ d _, Inv d).
Proof.
  destruct r, p; cbn [serve];
    unfold registerDevice, Main.activateDevice, Handler.activateDevice,
      Main.checkActivation, Handler.checkActivation, setRemoteLock, checkRemoteLock,
      unlockDevice, healthCheck, Main.termsWithDates, Handler.termsWithDates;
    hinv env by_statement.
  all: apply statements_registerDevice_loop.
Qed.

(** What every statement keeps, every session keeps. *)
Lemma statements_run p rs : hoare (λ d _, Inv d) (run env p rs) (λ _ d _, Inv d).
Proof.
  induction rs as [|r rs IH]; cbn [run]; [by apply hoare_ret|].
  eapply hoare_bind; [apply statements_serve|]. intros resp.
  eapply hoare_bind; [apply IH|]. intros resps. by apply hoare_ret.
Qed.
End statements.

#[global] Instance keeps_rows_refl : Reflexive keeps_rows.
Proof. intros d. by repeat split. Qed.

#[global] Instance keeps_rows_trans : Transitive keeps_rows.
Proof.
  intros d1 d2 d3 (A1 & A2 & A3 & A4) (B1 & B2 & B3 & B4).
  repeat split; by etrans.
Qed.

Lemma prefix_of_fmap_update {A K} (key : A → K) (g : A → A) (l : list A) :
  (∀ r, key (g r) = key r) → key <$> l `prefix_of` key <$> (g <$> l).
Proof.
  intros H. rewrite <- list_fmap_compose.
  assert (key ∘ g <$> l = key <$> l) as ->; [|done].
  apply list_fmap_ext. intros _ r _. apply H.
Qed.

Lemma statement_keeps_rows d d' : statement d d' → keeps_rows d d'.
Proof.
  destruct 1 as [? ? ? ? ? ? ? ? ? ? Hs|? ? ? ? ? ? ? Hs|? ? ? ? ? ? Hs|? ? ? ? ? ? Hs
                 | | | | |].
  - apply insert_device_inv in Hs as [_ ->]. repeat split; cbn; try done.
    rewrite fmap_app. by apply prefix_app_r.
  - apply insert_activation_code_inv in Hs as ->. repeat split; cbn; try done.
    rewrite fmap_app. by apply prefix_app_r.
  - apply insert_lock_date_inv in Hs as ->. repeat split; cbn; try done.
    by apply prefix_app_r.
  - apply insert_remote_lock_inv in Hs as [_ ->]. repeat split; cbn; try done.
    rewrite fmap_app. by apply prefix_app_r.
  - repeat split; cbn; try done. apply prefix_of_fmap_update. intros r. by case_decide.
  - repeat split; cbn; try done. apply prefix_of_fmap_update. intros r. by case_decide.
  - repeat split; cbn; try done. apply prefix_of_fmap_update. intros r. by case_decide.
  - repeat split; cbn; try done. apply prefix_of_fmap_update. intros r. by case_decide.
  - repeat split; cbn; try done. apply prefix_of_fmap_update. intros r. by case_decide.
Qed.

(** X8.  No request deletes, moves or re-keys a row: after any session,
    under any failures, every row of the four tables is at its place
    with its identifying columns (for a device: id, serial number,
    customer, phone, installment count, start date, term duration), and
    the rows of [lock_dates] are exactly as they were inserted. *)
Theorem rows_are_kept env p rs w : keeps_rows (db w) (db (run env p rs w).2).
Proof.
  apply (statements_run env (keeps_rows (db w))); [|reflexivity].
  intros d d' Hs Hk. etrans; [exact Hk|]. by apply statement_keeps_rows.
Qed.

Lemma statement_flags_as_inserted d d' :
  statement d d' → flags_as_inserted d → flags_as_inserted d'.
Proof.
  intros Hs [Hl Hu].
  destruct Hs as [? ? ? ? ? ? ? ? ? ? Hs|? ? ? ? ? ? ? Hs|? ? ? ? ? ? Hs|? ? ? ? ? ? Hs
                  | | | | |].
  - by apply insert_device_inv in Hs as [_ ->].
  - apply insert_activation_code_inv in Hs as ->. split; [done|]. cbn.
    apply Forall_app. split; [done|]. apply Forall_singleton. cbn.
    split; [done|]. by intros [? ?].
  - apply insert_lock_date_inv in Hs as ->. split; [|done]. cbn.
    apply Forall_app. split; [done|]. by apply Forall_singleton.
  - by apply insert_remote_lock_inv in Hs as [_ ->].
  - split; [done|]. cbn. apply Forall_fmap. eapply Forall_impl; [exact Hu|].
    intros r Hr. cbn. case_decide; [|done]. cbn. split; [by eexists|done].
  - done.
  - done.
  - done.
  - done.
Qed.

(** X9.  Two flags are written in one direction only.  When in every
    lock date [is_locked] is [false], and [used_at] is set on the used
    codes and on no other, as in the empty store, this is so after any
    session: no handler sets the [is_locked] of a lock date, and
    [used_at] is written together with [is_used]. *)
Theorem flags_are_kept env p rs w :
  flags_as_inserted (db w) → flags_as_inserted (db (run env p rs w).2).
Proof.
  apply (statements_run env flags_as_inserted). apply statement_flags_as_inserted.
Qed.

Lemma flags_are_kept_witness :
  flags_as_inserted
    (db (run demo_env StandaloneServer
           [POST_register demo_register; POST_activate (ActivateRequest.mk "00000004");
            POST_remote_lock (RemoteLockRequest.mk "TV1" true)] empty_world).2).
Proof.
  apply flags_are_kept. split; constructor.
Defined.

(** X10.  The constraints of [schema.sql] hold after any session that
    starts in a store where they hold, under any failures: primary keys,
    the unique serial number, code, (device, term number) and remote
    lock of a device, the foreign keys, and the allowed term durations.
    The updates of the handlers write none of these columns, and an
    insert that would break a constraint is refused. *)
Theorem schema_constraints_are_kept env p rs w :
  wf_db (db w) → wf_db (db (run env p rs w).2).
Proof. apply (wf_db_run env p rs w). Qed.

Lemma schema_constraints_are_kept_witness :
  wf_db (db (run (faulty_env 12) ServerlessHandler
               [POST_register demo_register; POST_register demo_register;
                GET_check "TV1"] empty_world).2).
Proof. apply schema_constraints_are_kept. exact wf_db_empty. Defined.

(** ** Requests on one device leave the others alone *)

Lemma Forall2_update {A K} (key : A → K) (id : K) (g : A → A) (l : list A) :
  (∀ r, key (g r) = key r) → (∀ r, key r ≠ id → g r = r) →
  Forall2 (λ r r', key r' = key r ∧ (key r ≠ id → r' = r)) l (g <$> l).
Proof.
  intros Hk Hg. apply Forall2_fmap_r, Forall_Forall2_diag, Forall_forall.
  intros r _. unfold compose. split; [apply Hk | apply Hg].
Qed.

Lemma Forall2_keep_trans {A K} (key : A → K) (id : K) (l1 l2 l3 : list A) :
  Forall2 (λ r r', key r' = key r ∧ (key r ≠ id → r' = r)) l1 l2 →
  Forall2 (λ r r', key r' = key r ∧ (key r ≠ id → r' = r)) l2 l3 →
  Forall2 (λ r r', key r' = key r ∧ (key r ≠ id → r' = r)) l1 l3.
Proof.
  intros H12. revert l3. induction H12 as [|x y l1 l2 [Hk Hxy] _ IH]; intros l3 H23.
  - by inversion H23.
  - inversion H23 as [|? z ? l3' [Hk' Hyz] H23']; subst. constructor; [|by apply IH].
    split; [congruence|]. intros Hne. rewrite Hyz, Hxy; congruence.
Qed.

Lemma Forall2_keep_refl {A K} (key : A → K) (id : K) (l : list A) :
  Forall2 (λ r r', key r' = key r ∧ (key r ≠ id → r' = r)) l l.
Proof. apply Forall_Forall2_diag, Forall_forall. by intros r _. Qed.

#[global] Instance touches_only_refl id : Reflexive (touches_only id).
Proof. intros d. repeat split; try apply Forall2_keep_refl. Qed.

#[global] Instance touches_only_trans id : Transitive (touches_only id).
Proof.
  intros d1 d2 d3 (A1 & A2 & A3 & A4) (B1 & B2 & B3 & B4).
  repeat split; [by eapply Forall2_keep_trans..|congruence|by eapply Forall2_keep_trans].
Qed.

Lemma touches_only_devices id (g : Device.t → Device.t) d :
  (∀ r, Device.ID (g r) = Device.ID r) → (∀ r, Device.ID r ≠ id → g r = r) →
  touches_only id d
    (mkDB (g <$> devices d) (activation_codes d) (lock_dates d) (remote_locks d)).
Proof.
  intros Hk Hg. repeat split; cbn; try apply Forall2_keep_refl.
  by apply (Forall2_update Device.ID).
Qed.

Lemma touches_only_set_device_active id d :
  touches_only id d (sql.set_device_active id d).
Proof. apply touches_only_devices; intros r; by case_decide. Qed.

Lemma touches_only_set_device_locked b id d :
  touches_only id d (sql.set_device_locked b id d).
Proof. apply touches_only_devices; intros r; by case_decide. Qed.

Lemma touches_only_reset_device id d : touches_only id d (sql.reset_device id d).
Proof. apply touches_only_devices; intros r; by case_decide. Qed.

Lemma touches_only_set_remote_lock b now now' id d :
  touches_only id d (sql.set_remote_lock b now now' id d).
Proof.
  repeat split; cbn; try apply Forall2_keep_refl.
  apply (Forall2_update RemoteLock.DeviceID); intros r; by case_decide.
Qed.

Lemma touches_only_mark_code_used now ac d :
  wf_db d → ac ∈ activation_codes d →
  touches_only (ActivationCode.DeviceID ac) d
    (sql.mark_code_used now (ActivationCode.ID ac) d).
Proof.
  intros Hwf Hac. repeat split; cbn; try apply Forall2_keep_refl.
  apply Forall2_fmap_r, Forall_Forall2_diag, Forall_forall. intros r Hr. unfold compose.
  case_decide as E; [|done]. split; [done|]. intros Hne. exfalso. apply Hne. f_equal.
  eapply (unique_key ActivationCode.ID); [apply Hwf|done|done|done].
Qed.

Lemma unused_code_elem code d ac :
  sql.unused_code code d = Some ac → ac ∈ activation_codes d.
Proof.
  unfold sql.unused_code. intros H%head_Some_elem_of.
  by apply list_elem_of_filter in H as [_ H].
Qed.

Section one_device.
Context (env : Env) (d0 : DB).

Ltac found :=
  hcases; subst;
  repeat match goal with
         | H : _ ∨ _ |- _ => destruct H as [H|H]; [discriminate|]
         | H : Some _ = ?q, E : ?q = Some _ |- _ => rewrite E in H; injection H as ->
         end.

Ltac touched :=
  found;
  repeat first
    [ reflexivity
    | etrans; [|first [ apply touches_only_set_device_locked
                      | apply touches_only_set_device_active
                      | apply touches_only_reset_device
                      | apply touches_only_set_remote_lock ]] ].

Lemma touches_only_setRemoteLock req dev :
  sql.device_by_serial (RemoteLockRequest.SerialNumber req) d0 = Some dev →
  hoare (λ d _, d = d0) (setRemoteLock env req) (λ _ d _, touches_only (Device.ID dev) d0 d).
Proof. intros Hdev. unfold setRemoteLock. hwalk env touched. Qed.

Lemma touches_only_unlockDevice req dev :
  sql.device_by_serial (UnlockRequest.SerialNumber req) d0 = Some dev →
  hoare (λ d _, d = d0) (unlockDevice env req) (λ _ d _, touches_only (Device.ID dev) d0 d).
Proof. intros Hdev. unfold unlockDevice. hwalk env touched. Qed.

Lemma touches_only_checkActivation serial dev :
  sql.device_by_serial serial d0 = Some dev →
  hoare (λ d _, d = d0) (Handler.checkActivation env serial)
    (λ _ d _, touches_only (Device.ID dev) d0 d).
Proof.
  intros Hdev. unfold Handler.checkActivation, Handler.termsWithDates.
  case_bool_decide; [by apply hoare_ret; intros ? ? ->|]. hwalk env touched.
Qed.

Lemma touches_only_activateDevice p req ac :
  wf_db d0 →
  sql.unused_code (ActivateRequest.ActivationCode req) d0 = Some ac →
  hoare (λ d _, d = d0)
    (match p with
     | StandaloneServer => Main.activateDevice env req
     | ServerlessHandler => Handler.activateDevice env req
     end) (λ _ d _, touches_only (ActivationCode.DeviceID ac) d0 d).
Proof.
  intros Hwf Hac. pose proof (unused_code_elem _ _ _ Hac) as Hin.
  destruct p; [unfold Main.activateDevice, Main.termsWithDates
              | unfold Handler.activateDevice, Handler.termsWithDates];
    hwalk env ltac:(found;
      repeat first
        [ reflexivity
        | by apply touches_only_mark_code_used
        | etrans; [|apply touches_only_set_device_active] ]).
Qed.
End one_device.

(** X11.  Set-remote-lock, unlock and the check of package [handler], on
    a serial number that is in the store, add and remove no row and
    leave every row of every other device as it is, whatever fails: they
    write the flags of this device and of its remote lock only. *)
Theorem lock_requests_touch_one_device env p serial dev w :
  sql.device_by_serial serial (db w) = Some dev →
  (∀ b, touches_only (Device.ID dev) (db w)
          (db (serve env p (POST_remote_lock (RemoteLockRequest.mk serial b)) w).2))
  ∧ touches_only (Device.ID dev) (db w)
      (db (serve env p (POST_unlock (UnlockRequest.mk serial)) w).2)
  ∧ touches_only (Device.ID dev) (db w)
      (db (serve env ServerlessHandler (GET_check serial) w).2).
Proof.
  intros Hdev. split_and!.
  - intros b.
    by apply (touches_only_setRemoteLock env (db w) (RemoteLockRequest.mk serial b) dev).
  - by apply (touches_only_unlockDevice env (db w) (UnlockRequest.mk serial) dev).
  - by apply (touches_only_checkActivation env (db w) serial dev).
Qed.

Lemma lock_requests_touch_one_device_witness :
  ∃ dev,
    sql.device_by_serial "TV1" (db demo_world) = Some dev
    ∧ touches_only (Device.ID dev) (db demo_world)
        (db (serve (faulty_env 32) StandaloneServer
               (POST_unlock (UnlockRequest.mk "TV1")) demo_world).2).
Proof.
  destruct (sql.device_by_serial "TV1" (db demo_world)) as [dev|] eqn:Hdev;
    [|vm_compute in Hdev; discriminate].
  exists dev. split; [reflexivity|].
  exact (proj1 (proj2 (lock_requests_touch_one_device (faulty_env 32) StandaloneServer
                         "TV1" dev demo_world Hdev))).
Defined.

(** X12.  An activation with a code that is in the store and unused adds
    and removes no row and leaves every row of every other device as it
    is, whatever fails: it writes rows of the device that owns the code
    only. *)
Theorem activation_touches_one_device env p code ac w :
  wf_db (db w) →
  sql.unused_code code (db w) = Some ac →
  touches_only (ActivationCode.DeviceID ac) (db w)
    (db (serve env p (POST_activate (ActivateRequest.mk code)) w).2).
Proof.
  intros Hwf Hac.
  by apply (touches_only_activateDevice env (db w) p (ActivateRequest.mk code) ac).
Qed.

Lemma activation_touches_one_device_witness :
  touches_only "00000001-0000-4000-8000-000000000000" (db demo_world)
    (db (serve demo_env ServerlessHandler (POST_activate (ActivateRequest.mk "00000011"))
           demo_world).2).
Proof.
  destruct (sql.unused_code "00000011" (db demo_world)) as [ac|] eqn:Hac;
    [|vm_compute in Hac; discriminate].
  pose proof (activation_touches_one_device demo_env ServerlessHandler "00000011" ac
                demo_world) as H.
  vm_compute in Hac. injection Hac as <-. apply H; [|reflexivity].
  apply (bool_decide_unpack _). vm_compute. exact I.
Defined.

(** ** Registration, followed by other requests *)

Lemma device_by_serial_registered env req s base d :
  sql.device_by_serial (RegisterDeviceRequest.SerialNumber req) d = None →
  sql.device_by_serial (RegisterDeviceRequest.SerialNumber req) (registered env req s base d)
  = Some (new_device env req s base).
Proof.
  unfold sql.device_by_serial. intros H%head_None. cbn [registered devices].
  rewrite filter_app, H. cbn [app]. rewrite filter_cons_True by done. done.
Qed.

Lemma duration_allowed req :
  RegisterDeviceRequest.TermDuration req ∈ [7; 15; 30] →
  negb (bool_decide (RegisterDeviceRequest.TermDuration req = 7))
  && negb (bool_decide (RegisterDeviceRequest.TermDuration req = 15))
  && negb (bool_decide (RegisterDeviceRequest.TermDuration req = 30)) = false.
Proof.
  rewrite !elem_of_cons. intros [->| [->| [->| []%elem_of_nil]]]; done.
Qed.

(** The serial number is taken: the registration is refused before any
    write. *)
Lemma registerDevice_conflict env req w dev :
  RegisterDeviceRequest.TermDuration req ∈ [7; 15; 30] →
  is_Some (time.Parse (RegisterDeviceRequest.EMIStartDate req)) →
  fault_at env (step w) = false →
  sql.device_by_serial (RegisterDeviceRequest.SerialNumber req) (db w) = Some dev →
  registerDevice env req w
  = (Error "Device with this serial number already exists" StatusConflict, tick w).
Proof.
  intros Hd [s Hs] Hf Hdev. unfold registerDevice.
  by rewrite duration_allowed, Hs, bind_db_QueryRow, Hf, Hdev.
Qed.

(** X13.  After a successful registration, a second registration with the
    same serial number (and any other valid fields) is refused with 409,
    and makes no row. *)
Theorem second_registration_conflicts env req req' w s :
  no_faults env →
  RegisterDeviceRequest.TermDuration req ∈ [7; 15; 30] →
  time.Parse (RegisterDeviceRequest.EMIStartDate req) = Some s →
  sql.device_by_serial (RegisterDeviceRequest.SerialNumber req) (db w) = None →
  Fresh env (step w) (step w + 7 * Z.to_nat (RegisterDeviceRequest.EMITerm req) + 8)
    (uuids_in (db w)) (codes_in (db w)) →
  RegisterDeviceRequest.SerialNumber req' = RegisterDeviceRequest.SerialNumber req →
  RegisterDeviceRequest.TermDuration req' ∈ [7; 15; 30] →
  is_Some (time.Parse (RegisterDeviceRequest.EMIStartDate req')) →
  ∃ deviceID terms w1,
    registerDevice env req w
    = (RegisterResponse true "Device registered successfully" deviceID terms, w1)
    ∧ registerDevice env req' w1
      = (Error "Device with this serial number already exists" StatusConflict, tick w1).
Proof.
  intros Hnf Hdur Hparse Hnone Hfresh Hserial Hdur' Hparse'.
  eexists _, _, _. split; [by apply registerDevice_ok|].
  eapply registerDevice_conflict; [done | done | apply Hnf |].
  cbn [db]. rewrite Hserial. by apply device_by_serial_registered.
Qed.

Lemma second_registration_conflicts_witness :
  ∃ deviceID terms w1,
    registerDevice demo_env demo_register empty_world
    = (RegisterResponse true "Device registered successfully" deviceID terms, w1)
    ∧ registerDevice demo_env demo_register w1
      = (Error "Device with this serial number already exists" 409, tick w1).
Proof.
  apply (second_registration_conflicts demo_env demo_register demo_register
           empty_world 738885).
  - exact no_faults_demo.
  - apply (bool_decide_unpack _). vm_compute. exact I.
  - vm_compute. reflexivity.
  - reflexivity.
  - apply (bool_decide_unpack _). vm_compute. exact I.
  - reflexivity.
  - apply (bool_decide_unpack _). vm_compute. exact I.
  - vm_compute. eauto.
Defined.

(** X14.  Every activation code that a successful registration returns
    activates the device: the activation with the code of any term of
    the response succeeds, in either program, and the device registered
    is active afterwards. *)
Theorem registered_code_activates env p req w s (k : nat) :
  no_faults env →
  wf_db (db w) →
  RegisterDeviceRequest.TermDuration req ∈ [7; 15; 30] →
  time.Parse (RegisterDeviceRequest.EMIStartDate req) = Some s →
  sql.device_by_serial (RegisterDeviceRequest.SerialNumber req) (db w) = None →
  Fresh env (step w) (step w + 7 * Z.to_nat (RegisterDeviceRequest.EMITerm req) + 8)
    (uuids_in (db w)) (codes_in (db w)) →
  (k < Z.to_nat (RegisterDeviceRequest.EMITerm req))%nat →
  ∃ deviceID terms w1 t resp w2 dev,
    registerDevice env req w
    = (RegisterResponse true "Device registered successfully" deviceID terms, w1)
    ∧ terms !! k = Some t
    ∧ TermWithLockDateAndCode.Term t = Z.of_nat k + 1
    ∧ serve env p
        (POST_activate (ActivateRequest.mk (TermWithLockDateAndCode.ActivationCode t))) w1
      = (resp, w2)
    ∧ reports_success resp = true
    ∧ sql.device_by_serial (RegisterDeviceRequest.SerialNumber req) (db w2) = Some dev
    ∧ Device.ID dev = deviceID
    ∧ Device.IsActive dev = true.
Proof.
  intros Hnf Hwf Hdur Hparse Hnone Hfresh Hk.
  pose proof (registerDevice_ok env req w s Hnf Hdur Hparse Hnone Hfresh) as E.
  cbv zeta in E.
  pose proof (wf_db_serve env p (POST_register req) w Hwf) as Hwf1.
  cbn [serve] in Hwf1. rewrite E in Hwf1. cbn [snd db] in Hwf1.
  set (base := (step w + 4)%nat).
  set (ac := ActivationCode.mk (uuid_at env (base + 7 * k + 1)) (uuid_at env (step w + 1))
               (String.substring 0 8 (uuid_at env (base + 7 * k)))
               (1 + Z.of_nat k) false None (now_at env (base + 7 * k + 2))).
  assert (Hac : ac ∈ activation_codes (registered env req s (step w) (db w))).
  { cbn [registered activation_codes]. apply elem_of_app. right.
    apply (list_elem_of_lookup_2 _ k). unfold new_codes.
    by rewrite list_lookup_fmap, lookup_seq_lt. }
  destruct (activateDevice_ok env Hnf p
              (ActivateRequest.mk (ActivationCode.Code ac))
              (mkWorld (registered env req s (step w) (db w))
                 (step w + 7 * Z.to_nat (RegisterDeviceRequest.EMITerm req) + 8) (log w))
              ac (unused_code_found _ _ Hwf1 Hac eq_refl)) as (resp & E2 & Hok).
  eexists _, _, _, _, resp, _, _. split; [exact E|].
  split; [by apply new_terms_lookup|]. cbn [TermWithLockDateAndCode.Term
    TermWithLockDateAndCode.ActivationCode].
  split; [lia|]. split; [exact E2|]. split; [exact Hok|].
  cbn [db]. unfold activated.
  rewrite device_by_serial_set_device_active.
  change (sql.device_by_serial ?x (sql.mark_code_used _ _ ?d))
    with (sql.device_by_serial x d).
  rewrite device_by_serial_registered by done. cbn [fmap option_fmap option_map].
  rewrite decide_True by done. done.
Qed.

Lemma registered_code_activates_witness :
  ∃ deviceID terms w1 t resp w2 dev,
    registerDevice demo_env demo_register empty_world
    = (RegisterResponse true "Device registered successfully" deviceID terms, w1)
    ∧ terms !! 2%nat = Some t
    ∧ TermWithLockDateAndCode.Term t = 3
    ∧ serve demo_env StandaloneServer
        (POST_activate (ActivateRequest.mk (TermWithLockDateAndCode.ActivationCode t))) w1
      = (resp, w2)
    ∧ reports_success resp = true
    ∧ sql.device_by_serial "TV1" (db w2) = Some dev
    ∧ Device.ID dev = deviceID
    ∧ Device.IsActive dev = true.
Proof.
  apply (registered_code_activates demo_env StandaloneServer demo_register empty_world
           738885 2).
  - exact no_faults_demo.
  - exact wf_db_empty.
  - apply (bool_decide_unpack _). vm_compute. exact I.
  - vm_compute. reflexivity.
  - reflexivity.
  - apply (bool_decide_unpack _). vm_compute. exact I.
  - vm_compute. lia.
Defined.

Lemma duration_allowed_inv req :
  negb (bool_decide (RegisterDeviceRequest.TermDuration req = 7))
  && negb (bool_decide (RegisterDeviceRequest.TermDuration req = 15))
  && negb (bool_decide (RegisterDeviceRequest.TermDuration req = 30)) = false →
  RegisterDeviceRequest.TermDuration req ∈ [7; 15; 30].
Proof.
  intros Hd. rewrite !elem_of_cons.
  apply andb_false_iff in Hd as [[H|H]%andb_false_iff|H];
    apply negb_false_iff, bool_decide_eq_true in H; tauto.
Qed.

Section partial_registration.
Context (env : Env) (d0 : DB).

(** A registration that is given up in the loop has inserted the device
    and not the remote lock. *)
Lemma registerDevice_partial req :
  hoare (λ d _, d = d0) (registerDevice env req)
    (λ resp d _,
       ∀ msg, resp = Error msg StatusInternalServerError →
              msg ≠ "Failed to register device"%string →
              RegisterDeviceRequest.TermDuration req ∈ [7; 15; 30]
              ∧ is_Some (time.Parse (RegisterDeviceRequest.EMIStartDate req))
              ∧ is_Some (sql.device_by_serial
                           (RegisterDeviceRequest.SerialNumber req) d)
              ∧ remote_locks d = remote_locks d0).
Proof.
  unfold registerDevice. destruct (_ && _) eqn:Hd; [hret; by intros msg [=]|].
  apply duration_allowed_inv in Hd.
  destruct (time.Parse _) as [s|] eqn:Hs; [|hret; by intros msg [=]].
  hstep env as existing. destruct existing; [hret; by intros msg [=]|].
  hstep env as deviceID. hstep env as now. hstep env as ok. destruct ok; cbn [negb].
  - eapply hoare_bind.
    { eapply hoare_pre;
        [|apply (registerDevice_loop_keeps_pred env
                   (λ devs rls,
                      is_Some (head (filter
                                 (λ r, Device.SerialNumber r
                                       = RegisterDeviceRequest.SerialNumber req) devs))
                      ∧ rls = remote_locks d0))].
      intros d l H. hopen. subst. cbn [devices remote_locks]. split; [|done].
      rewrite filter_app, filter_cons_True by done.
      by destruct (filter _ (devices d0)). }
    intros [early|terms].
    + hret. intros msg _ _. eauto.
    + hwalk env ltac:(by intros msg [=]).
  - hstep env as u. hret. intros msg [= <-] Hne. done.
Qed.
End partial_registration.

(** X15.  A registration that is given up after the device row is
    inserted (the insert of an activation code or of a lock date fails:
    the two 500 answers of the loop) leaves that row in the store, with
    no remote lock added: the same registration, sent again, is refused
    with 409. *)
Theorem failed_registration_blocks_retry env req w msg :
  (registerDevice env req w).1 = Error msg StatusInternalServerError →
  msg ≠ "Failed to register device"%string →
  let w1 := (registerDevice env req w).2 in
  is_Some (sql.device_by_serial (RegisterDeviceRequest.SerialNumber req) (db w1))
  ∧ remote_locks (db w1) = remote_locks (db w)
  ∧ ∀ env', fault_at env' (step w1) = false →
      registerDevice env' req w1
      = (Error "Device with this serial number already exists" StatusConflict, tick w1).
Proof.
  intros E Hne w1.
  destruct (registerDevice_partial env (db w) req w eq_refl msg E Hne)
    as (Hd & Hs & [dev Hdev] & Hrl).
  split; [by exists dev|]. split; [exact Hrl|].
  intros env' Hf. by eapply registerDevice_conflict.
Qed.

Lemma failed_registration_blocks_retry_witness :
  let w1 := (registerDevice (faulty_env 7) demo_register empty_world).2 in
  (registerDevice (faulty_env 7) demo_register empty_world).1
  = Error "Failed to generate activation codes" 500
  ∧ registerDevice demo_env demo_register w1
    = (Error "Device with this serial number already exists" 409, tick w1).
Proof.
  intros w1. split; [vm_compute; reflexivity|].
  apply (failed_registration_blocks_retry (faulty_env 7) demo_register empty_world
           "Failed to generate activation codes").
  - vm_compute. reflexivity.
  - discriminate.
  - reflexivity.
Defined.

(** ** The remote lock, over several requests *)










(** ** The terms of a device *)

Lemma paired_terms_dates codeRows lockDates :
  (λ t, TermWithLockDate.mk (TermWithLockDateAndCode.Term t)
          (TermWithLockDateAndCode.LockDate t))
    <$> paired_terms codeRows lockDates
  = paired_dates codeRows.*1 lockDates.
Proof.
  unfold paired_terms, paired_dates. revert lockDates.
  induction codeRows as [|[t c] rows IH]; intros [|ld lds]; try done.
  cbn. by rewrite IH.
Qed.

Lemma paired_terms_length codeRows lockDates :
  length (paired_terms codeRows lockDates) = (length codeRows `min` length lockDates)%nat.
Proof. unfold paired_terms. apply length_zip_with. Qed.

(** X19.  The two programs read the same terms: whatever fails, the
    terms that [main.go] assembles for a device are those that package
    [handler] assembles, without the codes, when the store keeps the
    term numbers of a device distinct as [schema.sql] demands.  So the
    map of codes, the sort of its keys and the match by index of package
    [handler] pair as the two ordered queries of [main.go] do. *)
Theorem programs_read_the_same_terms env id w :
  wf_db (db w) →
  (Main.termsWithDates env id w).1
  = (λ t, TermWithLockDate.mk (TermWithLockDateAndCode.Term t)
            (TermWithLockDateAndCode.LockDate t))
      <$> (Handler.termsWithDates env id w).1
  ∧ (Main.termsWithDates env id w).2 = (Handler.termsWithDates env id w).2.
Proof.
  intros Hwf. destruct (codes_of_sorted id (db w) Hwf) as [Hs Hnd].
  unfold Main.termsWithDates, Handler.termsWithDates. rewrite !bind_db_Query.
  destruct (fault_at env (step w)); [done|].
  rewrite !bind_db_Query. cbn [tick step db].
  destruct (fault_at env (S (step w))); [done|]. cbn [ret fst snd].
  split; [|done].
  rewrite term_numbers_of_codes, match_terms_zip, Handler_terms_paired by done.
  cbn [app drop]. by rewrite paired_terms_dates.
Qed.

Lemma programs_read_the_same_terms_witness :
  (Main.termsWithDates demo_env "00000001-0000-4000-8000-000000000000" demo_world).1
  = [TermWithLockDate.mk 1 "2024-01-16"; TermWithLockDate.mk 2 "2024-01-31";
     TermWithLockDate.mk 3 "2024-02-15"]
  ∧ (Handler.termsWithDates demo_env "00000001-0000-4000-8000-000000000000" demo_world).1
    = [TermWithLockDateAndCode.mk 1 "2024-01-16" "00000004";
       TermWithLockDateAndCode.mk 2 "2024-01-31" "00000011";
       TermWithLockDateAndCode.mk 3 "2024-02-15" "00000018"].
Proof.
  destruct (programs_read_the_same_terms demo_env "00000001-0000-4000-8000-000000000000"
              demo_world) as [E _].
  - apply (bool_decide_unpack _). vm_compute. exact I.
  - split; [rewrite E|]; vm_compute; reflexivity.
Defined.

(** X20.  How many terms are answered: none when one of the two queries
    fails (the answer is a success all the same), and otherwise as many
    as the device has activation codes or lock dates, whichever are
    fewer; the codes or lock dates beyond that number are left out. *)
Theorem terms_are_cut_to_the_shorter_list env id w :
  wf_db (db w) →
  length (Handler.termsWithDates env id w).1
  = if fault_at env (step w) || fault_at env (S (step w)) then 0%nat
    else (length (filter (λ r, ActivationCode.DeviceID r = id) (activation_codes (db w)))
          `min` length (filter (λ r, LockDate.DeviceID r = id) (lock_dates (db w))))%nat.
Proof.
  intros Hwf. destruct (codes_of_sorted id (db w) Hwf) as [Hs Hnd].
  unfold Handler.termsWithDates. rewrite bind_db_Query.
  destruct (fault_at env (step w)); [done|].
  rewrite bind_db_Query. cbn [tick step db orb].
  destruct (fault_at env (S (step w))); [done|]. cbn [ret fst].
  rewrite Handler_terms_paired, paired_terms_length by done.
  unfold sql.codes_of, sql.lock_dates_of.
  by rewrite !merge_sort_Permutation, !length_fmap.
Qed.

Lemma terms_are_cut_to_the_shorter_list_witness :
  length (Handler.termsWithDates (faulty_env 17) "00000001-0000-4000-8000-000000000000"
            (registerDevice (faulty_env 17) demo_register empty_world).2).1 = 1%nat.
Proof.
  rewrite terms_are_cut_to_the_shorter_list.
  - vm_compute. reflexivity.
  - apply (bool_decide_unpack _). vm_compute. exact I.
Defined.



(** ** What an answer tells about the writes *)

Section first_write.
Context (env : Env) (d0 : DB).

Ltac nothing_written :=
  hcases; subst;
  first [ by intros ? [=] | by intros ? _ ].

Lemma server_error_writes_nothing p r :
  (∀ req, r ≠ POST_register req) →
  hoare (λ d _, d = d0) (serve env p r)
    (λ resp d _, ∀ msg, resp = Error msg StatusInternalServerError → d = d0).
Proof.
  intros Hr. destruct r as [req|req|serial|req|serial|req|]; cbn [serve].
  - by destruct (Hr req).
  - destruct p; [unfold Main.activateDevice | unfold Handler.activateDevice];
      unfold Main.termsWithDates, Handler.termsWithDates; hwalk env nothing_written.
  - destruct p; [unfold Main.checkActivation | unfold Handler.checkActivation];
      unfold Main.termsWithDates, Handler.termsWithDates;
      (case_bool_decide; [hret; by intros ? [=]|]); hwalk env nothing_written.
  - unfold setRemoteLock. hwalk env nothing_written.
  - unfold checkRemoteLock. case_bool_decide; [hret; by intros ? [=]|].
    hwalk env nothing_written.
  - unfold unlockDevice. hwalk env nothing_written.
  - hret. by intros ? [=].
Qed.
End first_write.

(** X22.  Outside registration, an answer with status 500 means that
    nothing was written: each of these handlers gives up at its first
    write only, and its later write does not fail the request.  (A
    registration answered with 500 may have inserted rows already.) *)
Theorem server_error_means_no_write env p r w msg :
  (∀ req, r ≠ POST_register req) →
  (serve env p r w).1 = Error msg StatusInternalServerError →
  db (serve env p r w).2 = db w.
Proof.
  intros Hr E. by apply (server_error_writes_nothing env (db w) p r Hr w eq_refl msg).
Qed.

Lemma server_error_means_no_write_witness :
  (serve (faulty_env 30) StandaloneServer (POST_unlock (UnlockRequest.mk "TV1"))
     demo_world).1 = Error "Failed to unlock device" 500
  ∧ db (serve (faulty_env 30) StandaloneServer (POST_unlock (UnlockRequest.mk "TV1"))
          demo_world).2 = db demo_world.
Proof.
  split; [vm_compute; reflexivity|].
  apply (server_error_means_no_write (faulty_env 30) StandaloneServer
           (POST_unlock (UnlockRequest.mk "TV1")) demo_world "Failed to unlock device").
  - discriminate.
  - vm_compute. reflexivity.
Defined.

Section success.
Context (env : Env) (d0 : DB).

Ltac found :=
  hcases; subst;
  repeat match goal with
         | H : _ ∨ _ |- _ => destruct H as [H|H]; [discriminate|]
         end.

Lemma setRemoteLock_success req :
  hoare (λ d _, d = d0) (setRemoteLock env req)
    (λ resp d _,
       reports_success resp = true →
       ∃ dev, sql.device_by_serial (RemoteLockRequest.SerialNumber req) d0 = Some dev
              ∧ ∀ rl, rl ∈ remote_locks d → RemoteLock.DeviceID rl = Device.ID dev →
                      RemoteLock.IsLocked rl = RemoteLockRequest.IsLocked req).
Proof.
  unfold setRemoteLock.
  hwalk env idtac.
  all: found; cbn [reports_success]; try (by intros [=]); intros _.
  all: eexists; split; [done|].
  all: cbn [remote_locks sql.set_device_locked sql.set_remote_lock].
  all: intros rl (rl0 & -> & _)%list_elem_of_fmap_1.
  all: case_decide as E; [done|]; intros E'; by destruct E.
Qed.

Lemma unlockDevice_success req :
  hoare (λ d _, d = d0) (unlockDevice env req)
    (λ resp d _,
       reports_success resp = true →
       ∃ dev, sql.device_by_serial (UnlockRequest.SerialNumber req) d0 = Some dev
              ∧ ∀ dev', dev' ∈ devices d → Device.ID dev' = Device.ID dev →
                        Device.IsActive dev' = false ∧ Device.IsLocked dev' = false).
Proof.
  unfold unlockDevice.
  hwalk env idtac.
  all: found; cbn [reports_success]; try (by intros [=]); intros _.
  all: eexists; split; [done|].
  all: cbn [devices sql.reset_device sql.set_remote_lock].
  all: intros dev' (dev0 & -> & _)%list_elem_of_fmap_1.
  all: case_decide as E; [done|]; intros E'; by destruct E.
Qed.

Lemma activateDevice_success p req :
  hoare (λ d _, d = d0)
    (match p with
     | StandaloneServer => Main.activateDevice env req
     | ServerlessHandler => Handler.activateDevice env req
     end)
    (λ resp d _,
       reports_success resp = true →
       ∃ ac, sql.unused_code (ActivateRequest.ActivationCode req) d0 = Some ac
             ∧ ∀ r, r ∈ activation_codes d → ActivationCode.ID r = ActivationCode.ID ac →
                    ActivationCode.IsUsed r = true).
Proof.
  destruct p; [unfold Main.activateDevice, Main.termsWithDates
              | unfold Handler.activateDevice, Handler.termsWithDates];
    hwalk env idtac.
  all: found; cbn [reports_success]; try (by intros [=]); intros _.
  all: eexists; split; [done|].
  all: cbn [activation_codes sql.set_device_active sql.mark_code_used].
  all: intros r (r0 & -> & _)%list_elem_of_fmap_1.
  all: case_decide as E; [done|]; intros E'; by destruct E.
Qed.
End success.

(** X23.  What a success answer guarantees when store calls may fail: the
    first write of the handler was carried out.  After set-remote-lock,
    the remote lock of the device has the value asked for; after unlock,
    the device is neither active nor locked; after an activation, the
    code is marked as used.  (The second write, of the other table, may
    have failed: only the log tells.) *)
Theorem success_means_first_write env p w :
  (∀ req, reports_success (serve env p (POST_remote_lock req) w).1 = true →
     ∃ dev, sql.device_by_serial (RemoteLockRequest.SerialNumber req) (db w) = Some dev
            ∧ ∀ rl, rl ∈ remote_locks (db (serve env p (POST_remote_lock req) w).2) →
                    RemoteLock.DeviceID rl = Device.ID dev →
                    RemoteLock.IsLocked rl = RemoteLockRequest.IsLocked req)
  ∧ (∀ req, reports_success (serve env p (POST_unlock req) w).1 = true →
       ∃ dev, sql.device_by_serial (UnlockRequest.SerialNumber req) (db w) = Some dev
              ∧ ∀ dev', dev' ∈ devices (db (serve env p (POST_unlock req) w).2) →
                        Device.ID dev' = Device.ID dev →
                        Device.IsActive dev' = false ∧ Device.IsLocked dev' = false)
  ∧ (∀ req, reports_success (serve env p (POST_activate req) w).1 = true →
       ∃ ac, sql.unused_code (ActivateRequest.ActivationCode req) (db w) = Some ac
             ∧ ∀ r, r ∈ activation_codes (db (serve env p (POST_activate req) w).2) →
                    ActivationCode.ID r = ActivationCode.ID ac →
                    ActivationCode.IsUsed r = true).
Proof.
  split_and!; intros req.
  - apply (setRemoteLock_success env (db w) req w eq_refl).
  - apply (unlockDevice_success env (db w) req w eq_refl).
  - apply (activateDevice_success env (db w) p req w eq_refl).
Qed.

Lemma success_means_first_write_witness :
  ∃ dev,
    sql.device_by_serial "TV1" (db demo_world) = Some dev
    ∧ ∀ rl,
        rl ∈ remote_locks
               (db (serve (faulty_env 32) StandaloneServer
                      (POST_remote_lock (RemoteLockRequest.mk "TV1" true)) demo_world).2) →
        RemoteLock.DeviceID rl = Device.ID dev →
        RemoteLock.IsLocked rl = true.
Proof.
  apply (proj1 (success_means_first_write (faulty_env 32) StandaloneServer demo_world)
           (RemoteLockRequest.mk "TV1" true)).
  vm_compute. reflexivity.
Defined.

(** ** What a successful registration has stored *)

Lemma bind_db_Exec_cases {B} env stmt (k : bool → M B) w :
  (∃ d', stmt (now_at env (step w)) (db w) = Some d'
         ∧ bind (db_Exec env stmt) k w = k true (mkWorld d' (S (step w)) (log w)))
  ∨ bind (db_Exec env stmt) k w = k false (tick w).
Proof.
  unfold bind, db_Exec. destruct (fault_at env (step w)); [by right|].
  destruct (stmt _ _) as [d'|]; [left; by exists d' | by right].
Qed.

Lemma registerDevice_loop_rows env deviceID lockDates n : ∀ i acc w terms,
  (registerDevice_loop env n i deviceID lockDates acc w).1 = inr terms →
  ∃ crows lrows,
    devices (db (registerDevice_loop env n i deviceID lockDates acc w).2) = devices (db w)
    ∧ remote_locks (db (registerDevice_loop env n i deviceID lockDates acc w).2)
      = remote_locks (db w)
    ∧ activation_codes (db (registerDevice_loop env n i deviceID lockDates acc w).2)
      = activation_codes (db w) ++ crows
    ∧ lock_dates (db (registerDevice_loop env n i deviceID lockDates acc w).2)
      = lock_dates (db w) ++ lrows
    ∧ terms = acc ++ zip_with term_of_rows crows lrows
    ∧ length crows = n ∧ length lrows = n
    ∧ ActivationCode.TermNumber <$> crows = (λ k : nat, i + Z.of_nat k) <$> seq 0 n
    ∧ Forall (λ c, ActivationCode.DeviceID c = deviceID ∧ ActivationCode.IsUsed c = false)
        crows
    ∧ Forall (λ l, LockDate.DeviceID l = deviceID) lrows.
Proof.
  induction n as [|n IH]; intros i acc w terms.
  - cbn. intros [= <-]. exists [], []. by rewrite !app_nil_r.
  - cbn [registerDevice_loop]. unfold generateActivationCode.
    rewrite bind_assoc, bind_uuid_New, bind_ret, bind_uuid_New, bind_time_Now.
    cbn [tick step db log].
    match goal with
    | |- context [bind (db_Exec env ?stmt) ?k ?w'] =>
        destruct (bind_db_Exec_cases env stmt k w') as [(d1 & Hs1 & ->)| ->]
    end; cbn [negb]; [|rewrite bind_log_Printf; by intros [=]].
    apply insert_activation_code_inv in Hs1 as ->. cbn [step db log] in *.
    destruct (lockDates !! Z.to_nat (i - 1)) as [ld|]; [|by intros [=]].
    rewrite bind_uuid_New, bind_time_Now. cbn [tick step db log].
    match goal with
    | |- context [bind (db_Exec env ?stmt) ?k ?w'] =>
        destruct (bind_db_Exec_cases env stmt k w') as [(d2 & Hs2 & ->)| ->]
    end; cbn [negb]; [|rewrite bind_log_Printf; by intros [=]].
    apply insert_lock_date_inv in Hs2 as ->.
    cbn [tick step db log devices activation_codes lock_dates remote_locks] in *.
    intros E. destruct (IH _ _ _ _ E)
      as (crows & lrows & Hd & Hr & Hc & Hl & Ht & Hnc & Hnl & Htn & Hfc & Hfl).
    cbn [tick db devices activation_codes lock_dates remote_locks] in Hd, Hr, Hc, Hl.
    eexists (ActivationCode.mk _ deviceID _ i false None _ :: crows),
      (LockDate.mk _ deviceID ld false _ :: lrows).
    rewrite Hd, Hr, Hc, Hl, Ht, <- !app_assoc. cbn [app zip_with length fmap list_fmap].
    split_and!; try done; try (by f_equal).
    + cbn [seq fmap list_fmap]. cbn [ActivationCode.TermNumber]. f_equal; [lia|].
      rewrite Htn, <- fmap_S_seq, <- list_fmap_compose. apply list_fmap_ext.
      intros _ k _. cbn. lia.
    + by constructor.
    + by constructor.
Qed.

Lemma registerDevice_rows env req w resp w' :
  registerDevice env req w = (resp, w') →
  ∀ message deviceID terms,
  resp = RegisterResponse true message deviceID terms →
  ∃ dev crows lrows,
    devices (db w') = devices (db w) ++ [dev]
    ∧ Device.ID dev = deviceID
    ∧ Device.SerialNumber dev = RegisterDeviceRequest.SerialNumber req
    ∧ Device.IsActive dev = false ∧ Device.IsLocked dev = false
    ∧ activation_codes (db w') = activation_codes (db w) ++ crows
    ∧ lock_dates (db w') = lock_dates (db w) ++ lrows
    ∧ terms = zip_with term_of_rows crows lrows
    ∧ length crows = Z.to_nat (RegisterDeviceRequest.EMITerm req)
    ∧ length lrows = Z.to_nat (RegisterDeviceRequest.EMITerm req)
    ∧ ActivationCode.TermNumber <$> crows
      = (λ k : nat, 1 + Z.of_nat k) <$> seq 0 (Z.to_nat (RegisterDeviceRequest.EMITerm req))
    ∧ Forall (λ c, ActivationCode.DeviceID c = deviceID ∧ ActivationCode.IsUsed c = false)
        crows
    ∧ Forall (λ l, LockDate.DeviceID l = deviceID) lrows.
Proof.
  unfold registerDevice. destruct (_ && _); [by intros [= <- <-]|].
  destruct (time.Parse _) as [s|]; [|by intros [= <- <-]].
  rewrite bind_db_QueryRow.
  destruct (if fault_at env (step w) then None else _); [by intros [= <- <-]|].
  rewrite bind_uuid_New, bind_time_Now. cbn [tick step db log].
  match goal with
  | |- context [bind (db_Exec env ?stmt) ?k ?w0] =>
      destruct (bind_db_Exec_cases env stmt k w0) as [(d1 & Hs1 & ->)| ->]
  end; cbn [negb]; [|rewrite bind_log_Printf; by intros [= <- <-]].
  apply insert_device_inv in Hs1 as [_ ->]. cbn [step db log] in *.
  unfold bind at 1.
  match goal with
  | |- context [registerDevice_loop env ?n ?i ?id ?lds ?acc ?w0] =>
      pose proof (registerDevice_loop_rows env id lds n i acc w0) as Hloop;
      pose proof (registerDevice_loop_log env id lds (log w0) n i acc w0 eq_refl) as Hlog;
      destruct (registerDevice_loop env n i id lds acc w0) as [[early|terms'] w2]
  end; cbn [fst snd] in *; [intros [= <- <-] ? ? ? ->; by destruct Hlog|].
  clear Hlog.
  destruct (Hloop terms' eq_refl)
    as (crows & lrows & Hd & Hr & Hc & Hl & Ht & Hnc & Hnl & Htn & Hfc & Hfl).
  cbn [db devices activation_codes lock_dates remote_locks app] in *.
  rewrite bind_uuid_New, !bind_time_Now.
  match goal with
  | |- context [bind (db_Exec env ?stmt) ?k ?w0] =>
      destruct (bind_db_Exec_cases env stmt k w0) as [(d3 & Hs3 & ->)| ->]
  end.
  - apply insert_remote_lock_inv in Hs3 as [_ ->]. cbn [tick step db log] in *.
    unfold log_unless. rewrite bind_ret.
    intros [= <- <-] message deviceID terms [= <- <- <-].
    cbn [db devices activation_codes lock_dates].
    eexists _, crows, lrows. rewrite Hd, Hc, Hl. split_and!; done.
  - unfold log_unless. rewrite bind_log_Printf.
    intros [= <- <-] message deviceID terms [= <- <- <-].
    cbn [db tick devices activation_codes lock_dates].
    eexists _, crows, lrows. rewrite Hd, Hc, Hl. split_and!; done.
Qed.

(** X24.  Whatever fails, a registration that is answered with success
    has inserted the device, inactive and unlocked and under the id of
    the answer, and one activation code and one lock date for each of
    the terms 1 to [emi_term], all for this device and the codes unused;
    the terms of the answer are these rows, in the order of insertion:
    term number and code of the code row, date of the lock date row. *)
Theorem successful_registration_stores_its_terms env req w message deviceID terms :
  (registerDevice env req w).1 = RegisterResponse true message deviceID terms →
  let d' := db (registerDevice env req w).2 in
  let n := Z.to_nat (RegisterDeviceRequest.EMITerm req) in
  ∃ dev crows lrows,
    devices d' = devices (db w) ++ [dev]
    ∧ Device.ID dev = deviceID
    ∧ Device.SerialNumber dev = RegisterDeviceRequest.SerialNumber req
    ∧ Device.IsActive dev = false ∧ Device.IsLocked dev = false
    ∧ activation_codes d' = activation_codes (db w) ++ crows
    ∧ lock_dates d' = lock_dates (db w) ++ lrows
    ∧ terms = zip_with term_of_rows crows lrows
    ∧ length crows = n ∧ length lrows = n
    ∧ ActivationCode.TermNumber <$> crows = (λ k : nat, 1 + Z.of_nat k) <$> seq 0 n
    ∧ Forall (λ c, ActivationCode.DeviceID c = deviceID ∧ ActivationCode.IsUsed c = false)
        crows
    ∧ Forall (λ l, LockDate.DeviceID l = deviceID) lrows.
Proof.
  intros E. by eapply registerDevice_rows; [apply surjective_pairing|].
Qed.

Lemma successful_registration_stores_its_terms_witness :
  ∃ (crows : list ActivationCode.t) (lrows : list LockDate.t),
    activation_codes (db (registerDevice (faulty_env 28) demo_register empty_world).2)
    = [] ++ crows
    ∧ length crows = 3%nat ∧ length lrows = 3%nat.
Proof.
  destruct (successful_registration_stores_its_terms (faulty_env 28) demo_register
              empty_world "Device registered successfully"
              "00000001-0000-4000-8000-000000000000"
              [TermWithLockDateAndCode.mk 1 "2024-01-16" "00000004";
               TermWithLockDateAndCode.mk 2 "2024-01-31" "00000011";
               TermWithLockDateAndCode.mk 3 "2024-02-15" "00000018"])
    as (dev & crows & lrows & _ & _ & _ & _ & _ & Hc & _ & _ & Hnc & Hnl & _).
  - vm_compute. reflexivity.
  - exists crows, lrows. split_and!; [exact Hc | exact Hnc | exact Hnl].
Defined.

(** X25.  After a successful registration the device is unlocked and
    inactive for its readers: check-lock answers [false], and the check
    of [main.go] is refused with 403.  The serial number is not
    validated at registration: a device registered with the empty serial
    number is in the store, and both reads refuse to look for it, with
    400. *)
Theorem reads_after_registration env p req w s :
  no_faults env →
  RegisterDeviceRequest.TermDuration req ∈ [7; 15; 30] →
  time.Parse (RegisterDeviceRequest.EMIStartDate req) = Some s →
  sql.device_by_serial (RegisterDeviceRequest.SerialNumber req) (db w) = None →
  Fresh env (step w) (step w + 7 * Z.to_nat (RegisterDeviceRequest.EMITerm req) + 8)
    (uuids_in (db w)) (codes_in (db w)) →
  let serial := RegisterDeviceRequest.SerialNumber req in
  let w1 := (registerDevice env req w).2 in
  is_Some (sql.device_by_serial serial (db w1))
  ∧ (serve env p (GET_check_lock serial) w1).1
    = (if bool_decide (serial = ""%string)
       then Error "serial_number parameter is required" StatusBadRequest
       else CheckLockResponse false)
  ∧ (serve env StandaloneServer (GET_check serial) w1).1
    = (if bool_decide (serial = ""%string)
       then Error "serial_number parameter is required" StatusBadRequest
       else Error "Device is not activated" StatusForbidden).
Proof.
  intros Hnf Hdur Hparse Hnone Hfresh serial w1.
  assert (Hid : uuid_at env (step w + 1) ∉ uuids_in (db w)).
  { eapply registered_device_id_fresh; [|exact Hfresh]. lia. }
  rewrite elem_of_uuids_in in Hid.
  unfold w1. rewrite (registerDevice_ok env req w s) by done. cbn [snd serve].
  pose proof (device_by_serial_registered env req s (step w) (db w) Hnone) as Hdev.
  split; [by eexists|].
  unfold checkRemoteLock, Main.checkActivation. fold serial.
  case_bool_decide; [done|].
  rewrite !bind_db_QueryRow, !Hnf. cbn [db tick]. fold serial in Hdev. rewrite Hdev.
  rewrite bind_db_QueryRow, Hnf. cbn [db tick new_device Device.ID Device.IsActive negb].
  split; [|done].
  unfold sql.remote_lock_of, registered. cbn [remote_locks].
  rewrite filter_app, (filter_fresh_key RemoteLock.DeviceID) by tauto.
  by rewrite filter_cons_True.
Qed.

Lemma reads_after_registration_witness :
  let req := RegisterDeviceRequest.mk "" "A. Customer" "0123456789" 1 "2024-01-01" 7 in
  let w1 := (registerDevice demo_env req empty_world).2 in
  is_Some (sql.device_by_serial "" (db w1))
  ∧ (serve demo_env StandaloneServer (GET_check_lock "") w1).1
    = Error "serial_number parameter is required" 400.
Proof.
  intros req w1.
  destruct (reads_after_registration demo_env StandaloneServer req empty_world 738885)
    as (H1 & H2 & _).
  - exact no_faults_demo.
  - apply (bool_decide_unpack _). vm_compute. exact I.
  - vm_compute. reflexivity.
  - reflexivity.
  - apply (bool_decide_unpack _). vm_compute. exact I.
  - split; [exact H1 | exact H2].
Defined.

(** * Failing writes, handler by handler *)

Lemma response_of {A} (out : A * World) a w : out = (a, w) → out.1 = a.
Proof. by intros ->. Qed.

Lemma success_of (out : Response * World) a w :
  out = (a, w) → reports_success a = true → reports_success out.1 = true.
Proof. by intros ->. Qed.

Section failed_writes.
Context (env : Env).

Lemma bind_db_Exec_fails {B} stmt (k : bool → M B) w :
  write_fails env stmt w → bind (db_Exec env stmt) k w = k false (tick w).
Proof.
  unfold write_fails, bind, db_Exec. destruct (fault_at env (step w)); [done|].
  by destruct (stmt _ _).
Qed.

Lemma bind_db_Exec {B} stmt (k : bool → M B) w :
  bind (db_Exec env stmt) k w = k (db_Exec env stmt w).1 (db_Exec env stmt w).2.
Proof. done. Qed.

Lemma bind_db_Exec_done {B} stmt (k : bool → M B) w w' :
  db_Exec env stmt w = (true, w') → bind (db_Exec env stmt) k w = k true w'.
Proof. unfold bind. by intros ->. Qed.

Lemma db_Exec_done_log stmt w w' :
  db_Exec env stmt w = (true, w') → log w' = log w.
Proof.
  unfold db_Exec. destruct (fault_at env (step w)); [by intros [=]|].
  destruct (stmt _ _); by intros [= <-].
Qed.

Lemma termsWithDates_end {A} p id (k1 : list TermWithLockDate.t → A)
    (k2 : list TermWithLockDateAndCode.t → A) w :
  ∃ a w',
    match p with
    | StandaloneServer => let! terms := Main.termsWithDates env id in ret (k1 terms)
    | ServerlessHandler => let! terms := Handler.termsWithDates env id in ret (k2 terms)
    end w = (a, w')
    ∧ (∃ t1 t2, a = match p with StandaloneServer => k1 t1 | ServerlessHandler => k2 t2 end)
    ∧ db w' = db w ∧ log w' = log w.
Proof.
  destruct p; unfold bind, ret.
  - destruct (hoare_Main_termsWithDates env id (λ d l, d = db w ∧ l = log w) w
                (conj eq_refl eq_refl)) as [Hd Hl].
    eexists _, _. split; [reflexivity|]. split; [by exists (Main.termsWithDates env id w).1, []|].
    done.
  - destruct (hoare_Handler_termsWithDates env id (λ d l, d = db w ∧ l = log w) w
                (conj eq_refl eq_refl)) as [Hd Hl].
    eexists _, _. split; [reflexivity|].
    split; [by exists [], (Handler.termsWithDates env id w).1|]. done.
Qed.

(** The loop of [registerDevice], cut after [k] iterations. *)
Lemma registerDevice_loop_app deviceID lockDates k m : ∀ i acc w,
  registerDevice_loop env (k + m) i deviceID lockDates acc w
  = match registerDevice_loop env k i deviceID lockDates acc w with
    | (inl early, w') => (inl early, w')
    | (inr terms, w') =>
        registerDevice_loop env m (i + Z.of_nat k) deviceID lockDates terms w'
    end.
Proof.
  induction k as [|k IH]; intros i acc w.
  - cbn. by rewrite Z.add_0_r.
  - cbn [Nat.add registerDevice_loop]. unfold generateActivationCode.
    rewrite !bind_assoc, !bind_uuid_New, !bind_ret, !bind_uuid_New, !bind_time_Now.
    rewrite !bind_db_Exec.
    destruct (db_Exec env _ _) as [[] w1]; cbn [fst snd negb]; [|done].
    destruct (lockDates !! Z.to_nat (i - 1)) as [ld|]; [|done].
    rewrite !bind_uuid_New, !bind_time_Now, !bind_db_Exec.
    destruct (db_Exec env _ _) as [[] w2]; cbn [fst snd negb]; [|done].
    rewrite IH. replace (i + 1 + Z.of_nat k) with (i + Z.of_nat (S k)) by lia. done.
Qed.

Lemma bind_registerDevice_loop {B} n i deviceID lockDates acc
    (k : Response + list TermWithLockDateAndCode.t → M B) w :
  bind (registerDevice_loop env n i deviceID lockDates acc) k w
  = k (registerDevice_loop env n i deviceID lockDates acc w).1
      (registerDevice_loop env n i deviceID lockDates acc w).2.
Proof. done. Qed.
End failed_writes.

(** C6, as amended.  A write that fails ends the request with status 500
    at once, except the last write of four handlers, whose failure is
    only logged while the request is answered with success.  Handler by
    handler, for each write [db.Exec] in the order of the source, in the
    world in which it is executed, the earlier writes having succeeded:

    - register: the insert of the device, of the activation code and of
      the lock date of any term fail the request; the insert of the
      remote lock, the last write, does not;
    - activate, in both programs: the update of the code fails the
      request; the update of the device, the last write, does not;
    - check, in package [handler]: the update that activates the device
      fails the request;
    - set-remote-lock: the update of the remote lock fails the request;
      the update of the device, the last write, does not;
    - unlock: the update of the device fails the request; the update of
      the remote lock, the last write, does not.

    Each failure is reported in the log by one line, and, for every
    request and whatever fails, a request that is answered with success
    has logged no line but that of its last write. *)
Theorem write_errors_fail_unless_tolerated env p :
  (∀ req w s,
     RegisterDeviceRequest.TermDuration req ∈ [7; 15; 30] →
     time.Parse (RegisterDeviceRequest.EMIStartDate req) = Some s →
     (if fault_at env (step w) then None
      else sql.device_by_serial (RegisterDeviceRequest.SerialNumber req) (db w)) = None →
     let n := Z.to_nat (RegisterDeviceRequest.EMITerm req) in
     let deviceID := uuid_at env (S (step w)) in
     let lockDates := calculateLockDates s (RegisterDeviceRequest.TermDuration req)
                        (RegisterDeviceRequest.EMITerm req) in
     let insert_device := λ _ : Z, sql.insert_device
           (Device.mk deviceID (RegisterDeviceRequest.SerialNumber req)
              (RegisterDeviceRequest.CustomerName req)
              (RegisterDeviceRequest.PhoneNumber req)
              (RegisterDeviceRequest.EMITerm req) s
              (RegisterDeviceRequest.TermDuration req) false false
              (now_at env (S (S (step w))))) in
     let w3 := tick (tick (tick w)) in
     (write_fails env insert_device w3 →
      serve env p (POST_register req) w
      = (Error "Failed to register device" StatusInternalServerError,
         with_log_line "Error inserting device" (tick w3)))
     ∧ ∀ w4, db_Exec env insert_device w3 = (true, w4) →
         (∀ (k m : nat) terms wk,
            n = (k + S m)%nat →
            registerDevice_loop env k 1 deviceID lockDates [] w4 = (inr terms, wk) →
            let code := String.substring 0 8 (uuid_at env (step wk)) in
            let insert_code := λ _ : Z, sql.insert_activation_code
                  (ActivationCode.mk (uuid_at env (S (step wk))) deviceID code
                     (1 + Z.of_nat k) false None (now_at env (S (S (step wk))))) in
            let wk3 := tick (tick (tick wk)) in
            (write_fails env insert_code wk3 →
             serve env p (POST_register req) w
             = (Error "Failed to generate activation codes" StatusInternalServerError,
                with_log_line "Error inserting activation code" (tick wk3)))
            ∧ ∀ wk4, db_Exec env insert_code wk3 = (true, wk4) →
                let lockDate := lock_date_of s (RegisterDeviceRequest.TermDuration req)
                                  (1 + Z.of_nat k) in
                let insert_lock_date := λ _ : Z, sql.insert_lock_date
                      (LockDate.mk (uuid_at env (step wk4)) deviceID lockDate false
                         (now_at env (S (step wk4)))) in
                let wk6 := tick (tick wk4) in
                write_fails env insert_lock_date wk6 →
                serve env p (POST_register req) w
                = (Error "Failed to generate lock dates" StatusInternalServerError,
                   with_log_line "Error inserting lock date" (tick wk6)))
         ∧ ∀ terms wn,
             registerDevice_loop env n 1 deviceID lockDates [] w4 = (inr terms, wn) →
             let insert_remote_lock := λ _ : Z, sql.insert_remote_lock
                   (RemoteLock.mk (uuid_at env (step wn)) deviceID false
                      (now_at env (S (step wn))) (now_at env (S (S (step wn))))) in
             let wn3 := tick (tick (tick wn)) in
             write_fails env insert_remote_lock wn3 →
             serve env p (POST_register req) w
             = (RegisterResponse true "Device registered successfully" deviceID terms,
                with_log_line "Error inserting remote lock" (tick wn3)))
  ∧ (∀ req ac w,
       fault_at env (step w) = false →
       sql.unused_code (ActivateRequest.ActivationCode req) (db w) = Some ac →
       let mark_used := λ (_ : Z) d,
             Some (sql.mark_code_used (now_at env (S (step w))) (ActivationCode.ID ac) d) in
       let activate := λ (_ : Z) d,
             Some (sql.set_device_active (ActivationCode.DeviceID ac) d) in
       let w2 := tick (tick w) in
       (write_fails env mark_used w2 →
        serve env p (POST_activate req) w
        = (Error "Failed to activate device" StatusInternalServerError,
           with_log_line "Error updating activation code" (tick w2)))
       ∧ ∀ w3, db_Exec env mark_used w2 = (true, w3) →
           write_fails env activate w3 →
           reports_success (serve env p (POST_activate req) w).1 = true
           ∧ db (serve env p (POST_activate req) w).2 = db w3
           ∧ log (serve env p (POST_activate req) w).2
             = log w ++ ["Error activating device"]%string)
  ∧ (∀ serial dev w,
       serial ≠ ""%string →
       fault_at env (step w) = false →
       sql.device_by_serial serial (db w) = Some dev →
       Device.IsActive dev = false →
       write_fails env (λ _ d, Some (sql.set_device_active (Device.ID dev) d)) (tick w) →
       serve env ServerlessHandler (GET_check serial) w
       = (Error "Failed to activate device" StatusInternalServerError,
          with_log_line "Error activating device" (tick (tick w))))
  ∧ (∀ req dev w,
       fault_at env (step w) = false →
       sql.device_by_serial (RemoteLockRequest.SerialNumber req) (db w) = Some dev →
       let locked := RemoteLockRequest.IsLocked req in
       let update_lock := λ server_now d,
             Some (sql.set_remote_lock locked (now_at env (S (step w))) server_now
                     (Device.ID dev) d) in
       let update_device := λ (_ : Z) d,
             Some (sql.set_device_locked locked (Device.ID dev) d) in
       let w2 := tick (tick w) in
       (write_fails env update_lock w2 →
        serve env p (POST_remote_lock req) w
        = (Error "Failed to update remote lock" StatusInternalServerError,
           with_log_line "Error updating remote lock" (tick w2)))
       ∧ ∀ w3, db_Exec env update_lock w2 = (true, w3) →
           write_fails env update_device w3 →
           serve env p (POST_remote_lock req) w
           = (RemoteLockResponse true
                (if locked then "Remote lock set to true" else "Remote lock set to false")
                locked,
              with_log_line "Error updating device lock" (tick w3)))
  ∧ (∀ req dev w,
       fault_at env (step w) = false →
       sql.device_by_serial (UnlockRequest.SerialNumber req) (db w) = Some dev →
       let reset := λ (_ : Z) d, Some (sql.reset_device (Device.ID dev) d) in
       (write_fails env reset (tick w) →
        serve env p (POST_unlock req) w
        = (Error "Failed to unlock device" StatusInternalServerError,
           with_log_line "Error unlocking device" (tick (tick w))))
       ∧ ∀ w2, db_Exec env reset (tick w) = (true, w2) →
           let update_lock := λ server_now d,
                 Some (sql.set_remote_lock false (now_at env (step w2)) server_now
                         (Device.ID dev) d) in
           write_fails env update_lock (tick w2) →
           serve env p (POST_unlock req) w
           = (UnlockResponse true "Device unlocked successfully",
              with_log_line "Error updating remote lock" (tick (tick w2))))
  ∧ (∀ r w, ∃ extra,
       log (serve env p r w).2 = log w ++ extra
       ∧ (reports_success (serve env p r w).1 = true →
          ∀ line, line ∈ extra → line ∈ tolerated r)).
Proof.
  split_and!.
  - intros req w s Hdur Hparse Hnone n deviceID lockDates insert_device w3.
    cbn [serve]. unfold registerDevice.
    rewrite duration_allowed, Hparse, bind_db_QueryRow, Hnone, bind_uuid_New, bind_time_Now
      by done.
    split.
    { intros H. erewrite bind_db_Exec_fails; [|exact H]. cbn [negb].
      by rewrite bind_log_Printf. }
    intros w4 E4. erewrite bind_db_Exec_done; [|exact E4]. cbn [negb].
    rewrite bind_registerDevice_loop. change (uuid_at env (step (tick w))) with deviceID.
    fold n lockDates. split.
    + intros k m terms wk Hn Ek.
      rewrite Hn, registerDevice_loop_app, Ek. cbn [registerDevice_loop].
      unfold generateActivationCode.
      rewrite !bind_assoc, bind_uuid_New, bind_ret, bind_uuid_New, bind_time_Now.
      split.
      { intros H. erewrite bind_db_Exec_fails; [|exact H]. cbn [negb].
        by rewrite bind_log_Printf. }
      intros wk4 Ek4 H.
      erewrite bind_db_Exec_done; [|exact Ek4]. cbn [negb].
      replace (1 + Z.of_nat k - 1) with (Z.of_nat k) by lia. rewrite Nat2Z.id.
      assert (lookup (A := time.Time) k lockDates
              = Some (s + Z.of_nat (S k) * RegisterDeviceRequest.TermDuration req)) as ->
        by (apply calculateLockDates_lookup; fold n; lia).
      rewrite bind_uuid_New, bind_time_Now.
      replace (s + Z.of_nat (S k) * RegisterDeviceRequest.TermDuration req)
        with (lock_date_of s (RegisterDeviceRequest.TermDuration req) (1 + Z.of_nat k))
        by (unfold lock_date_of; lia).
      erewrite bind_db_Exec_fails; [|exact H].
      cbn [negb]. by rewrite bind_log_Printf.
    + intros terms wn En H. rewrite En. cbn [fst snd].
      rewrite bind_uuid_New, !bind_time_Now.
      erewrite bind_db_Exec_fails; [|exact H]. unfold log_unless.
      by rewrite bind_log_Printf.
  - intros req ac w Hf Hac mark_used activate w2. cbn [serve].
    split.
    + intros H.
      destruct p; [unfold Main.activateDevice | unfold Handler.activateDevice];
        rewrite bind_db_QueryRow, Hf, Hac, bind_time_Now;
        (erewrite bind_db_Exec_fails; [|exact H]); cbn [negb];
        by rewrite bind_log_Printf.
    + intros w3 E3 H. pose proof (db_Exec_done_log env _ _ _ E3) as Hl3.
      destruct p; [unfold Main.activateDevice | unfold Handler.activateDevice];
        rewrite bind_db_QueryRow, Hf, Hac, bind_time_Now;
        (erewrite bind_db_Exec_done; [|exact E3]); cbn [negb];
        (erewrite bind_db_Exec_fails; [|exact H]); unfold log_unless;
        rewrite bind_log_Printf.
      * destruct (termsWithDates_end env StandaloneServer (ActivationCode.DeviceID ac)
                    (ActivationResponse true "Device activated successfully")
                    (ActivationResponseWithCode true "Device activated successfully")
                    (mkWorld (db (tick w3)) (step (tick w3))
                       (log (tick w3) ++ ["Error activating device"%string])))
          as (a & w' & -> & (t1 & t2 & ->) & Hd & Hl).
        cbn [fst snd reports_success]. rewrite Hd, Hl. cbn [db log tick]. by rewrite Hl3.
      * destruct (termsWithDates_end env ServerlessHandler (ActivationCode.DeviceID ac)
                    (ActivationResponse true "Device activated successfully")
                    (ActivationResponseWithCode true "Device activated successfully")
                    (mkWorld (db (tick w3)) (step (tick w3))
                       (log (tick w3) ++ ["Error activating device"%string])))
          as (a & w' & -> & (t1 & t2 & ->) & Hd & Hl).
        cbn [fst snd reports_success]. rewrite Hd, Hl. cbn [db log tick]. by rewrite Hl3.
  - intros serial dev w Hne Hf Hdev Hinactive H. cbn [serve].
    unfold Handler.checkActivation. rewrite bool_decide_eq_false_2 by done.
    rewrite bind_db_QueryRow, Hf, Hdev, Hinactive. cbn [negb].
    erewrite bind_db_Exec_fails; [|exact H]. cbn [negb]. by rewrite bind_log_Printf.
  - intros req dev w Hf Hdev locked update_lock update_device w2. cbn [serve].
    unfold setRemoteLock. rewrite bind_db_QueryRow, Hf, Hdev, bind_time_Now. split.
    + intros H. erewrite bind_db_Exec_fails; [|exact H]. cbn [negb].
      by rewrite bind_log_Printf.
    + intros w3 E3 H. erewrite bind_db_Exec_done; [|exact E3]. cbn [negb].
      erewrite bind_db_Exec_fails; [|exact H]. unfold log_unless.
      by rewrite bind_log_Printf.
  - intros req dev w Hf Hdev reset. cbn [serve].
    unfold unlockDevice. rewrite bind_db_QueryRow, Hf, Hdev. split.
    + intros H. erewrite bind_db_Exec_fails; [|exact H]. cbn [negb].
      by rewrite bind_log_Printf.
    + intros w2 E2 H. erewrite bind_db_Exec_done; [|exact E2]. cbn [negb].
      rewrite bind_time_Now.
      erewrite bind_db_Exec_fails; [|exact H]. unfold log_unless.
      by rewrite bind_log_Printf.
  - intros r w. by apply (error_log_serve env p r (log w) w).
Qed.

Lemma write_errors_fail_unless_tolerated_witness :
  (serve (faulty_env 3) StandaloneServer (POST_register demo_register) empty_world).1
  = Error "Failed to register device" StatusInternalServerError
  ∧ (serve (faulty_env 7) StandaloneServer (POST_register demo_register) empty_world).1
    = Error "Failed to generate activation codes" StatusInternalServerError
  ∧ (serve (faulty_env 17) ServerlessHandler (POST_register demo_register) empty_world).1
    = Error "Failed to generate lock dates" StatusInternalServerError
  ∧ reports_success
      (serve (faulty_env 28) ServerlessHandler (POST_register demo_register) empty_world).1
    = true
  ∧ (serve (faulty_env 31) StandaloneServer
       (POST_activate (ActivateRequest.mk "00000004")) demo_world).1
    = Error "Failed to activate device" StatusInternalServerError
  ∧ reports_success
      (serve (faulty_env 32) ServerlessHandler
         (POST_activate (ActivateRequest.mk "00000004")) demo_world).1
    = true
  ∧ (serve (faulty_env 30) ServerlessHandler (GET_check "TV1") demo_world).1
    = Error "Failed to activate device" StatusInternalServerError
  ∧ (serve (faulty_env 31) StandaloneServer
       (POST_remote_lock (RemoteLockRequest.mk "TV1" true)) demo_world).1
    = Error "Failed to update remote lock" StatusInternalServerError
  ∧ (serve (faulty_env 32) StandaloneServer
       (POST_remote_lock (RemoteLockRequest.mk "TV1" true)) demo_world).1
    = RemoteLockResponse true "Remote lock set to true" true
  ∧ (serve (faulty_env 30) ServerlessHandler
       (POST_unlock (UnlockRequest.mk "TV1")) demo_world).1
    = Error "Failed to unlock device" StatusInternalServerError
  ∧ (serve (faulty_env 32) ServerlessHandler
       (POST_unlock (UnlockRequest.mk "TV1")) demo_world).1
    = UnlockResponse true "Device unlocked successfully".
Proof.
  split_and!.
  - eapply response_of.
    eapply (proj1 (proj1 (write_errors_fail_unless_tolerated (faulty_env 3) StandaloneServer)
                     demo_register empty_world 738885 _ _ _)).
    Unshelve. all: try (vm_compute; reflexivity).
    apply (bool_decide_unpack _). vm_compute. exact I.
  - eapply response_of.
    eapply (proj1 (proj1 (proj2 (proj1
              (write_errors_fail_unless_tolerated (faulty_env 7) StandaloneServer)
              demo_register empty_world 738885 _ _ _) _ _) 0%nat 2%nat [] _ _ _) _).
    Unshelve. all: try (vm_compute; reflexivity).
    apply (bool_decide_unpack _). vm_compute. exact I.
  - eapply response_of.
    eapply (proj2 (proj1 (proj2 (proj1
              (write_errors_fail_unless_tolerated (faulty_env 17) ServerlessHandler)
              demo_register empty_world 738885 _ _ _) _ _) 1%nat 1%nat _ _ _ _) _ _ _).
    Unshelve. all: try (vm_compute; reflexivity).
    apply (bool_decide_unpack _). vm_compute. exact I.
  - eapply success_of;
      [eapply (proj2 (proj2 (proj1
                 (write_errors_fail_unless_tolerated (faulty_env 28) ServerlessHandler)
                 demo_register empty_world 738885 _ _ _) _ _) _ _ _ _)|].
    Unshelve. all: try (vm_compute; reflexivity).
    apply (bool_decide_unpack _). vm_compute. exact I.
  - eapply response_of.
    eapply (proj1 (proj1 (proj2
              (write_errors_fail_unless_tolerated (faulty_env 31) StandaloneServer))
              (ActivateRequest.mk "00000004") _ demo_world _ _) _).
    Unshelve. all: try (vm_compute; reflexivity).
  - eapply (proj1 (proj2 (proj1 (proj2
              (write_errors_fail_unless_tolerated (faulty_env 32) ServerlessHandler))
              (ActivateRequest.mk "00000004") _ demo_world _ _) _ _ _)).
    Unshelve. all: try (vm_compute; reflexivity).
  - eapply response_of.
    eapply (proj1 (proj2 (proj2
              (write_errors_fail_unless_tolerated (faulty_env 30) ServerlessHandler)))
              "TV1"%string _ demo_world _ _ _ _ _).
    Unshelve. all: try (vm_compute; reflexivity). done.
  - eapply response_of.
    eapply (proj1 (proj1 (proj2 (proj2 (proj2
              (write_errors_fail_unless_tolerated (faulty_env 31) StandaloneServer))))
              (RemoteLockRequest.mk "TV1" true) _ demo_world _ _) _).
    Unshelve. all: try (vm_compute; reflexivity).
  - eapply response_of.
    eapply (proj2 (proj1 (proj2 (proj2 (proj2
              (write_errors_fail_unless_tolerated (faulty_env 32) StandaloneServer))))
              (RemoteLockRequest.mk "TV1" true) _ demo_world _ _) _ _ _).
    Unshelve. all: try (vm_compute; reflexivity).
  - eapply response_of.
    eapply (proj1 (proj1 (proj2 (proj2 (proj2 (proj2
              (write_errors_fail_unless_tolerated (faulty_env 30) ServerlessHandler)))))
              (UnlockRequest.mk "TV1") _ demo_world _ _) _).
    Unshelve. all: try (vm_compute; reflexivity).
  - eapply response_of.
    eapply (proj2 (proj1 (proj2 (proj2 (proj2 (proj2
              (write_errors_fail_unless_tolerated (faulty_env 32) ServerlessHandler)))))
              (UnlockRequest.mk "TV1") _ demo_world _ _) _ _ _).
    Unshelve. all: try (vm_compute; reflexivity).
Defined.
